(** * Gymnastics result extraction: the line pipeline of
      [individual_allaround.py], [team_allaround.py] and [events.py]

    Text is modelled as lists of characters ([list ascii], code points
    below 256); Python's [re] patterns are written as regular-expression
    terms and run by a backtracking matcher with Python's priorities
    (greedy and lazy repetition, leftmost alternative first); the scanning
    loops are explicit state machines. *)

From Stdlib Require Import Ascii String List Bool Arith ZArith QArith Lia.
From Stdlib Require DecimalString.
Import ListNotations.

Set Implicit Arguments.

Local Open Scope nat_scope.
Local Open Scope list_scope.

(** ** Text *)

Definition str := list ascii.

Definition of_string : string -> str := list_ascii_of_string.
Coercion of_string : string >-> str.

Definition str_eqb (a b : str) : bool :=
  if list_eq_dec ascii_dec a b then true else false.

(** Python's [str.isspace] on one character, which is also [\s] of [re] on
    [str] patterns: TAB..CR, FS..US, SPACE, NEL and NBSP below 256. *)
Definition is_space (c : ascii) : bool :=
  let n := nat_of_ascii c in
  ((9 <=? n) && (n <=? 13)) || ((28 <=? n) && (n <=? 32))
  || (n =? 133) || (n =? 160).

(** [\d] (below 256 the decimal digits are 0..9). *)
Definition is_digit (c : ascii) : bool :=
  let n := nat_of_ascii c in (48 <=? n) && (n <=? 57).

(** [[A-Z]] *)
Definition is_upper (c : ascii) : bool :=
  let n := nat_of_ascii c in (65 <=? n) && (n <=? 90).

(** [[a-z]] *)
Definition is_lower (c : ascii) : bool :=
  let n := nat_of_ascii c in (97 <=? n) && (n <=? 122).

Definition space : ascii := " "%char.
Definition newline : ascii := ascii_of_nat 10.

(** [s.lstrip()] *)
Fixpoint lstrip (s : str) : str :=
  match s with
  | [] => []
  | c :: t => if is_space c then lstrip t else s
  end.

(** [s.rstrip()] *)
Fixpoint rstrip (s : str) : str :=
  match s with
  | [] => []
  | c :: t =>
      match rstrip t with
      | [] => if is_space c then [] else [c]
      | r => c :: r
      end
  end.

(** [s.strip()] *)
Definition strip (s : str) : str := rstrip (lstrip s).

(** [re.sub(r"\s+", " ", s)]: every maximal run of whitespace becomes one
    space; [in_run] tells that the previous character was whitespace. *)
Fixpoint sub_ws (in_run : bool) (s : str) : str :=
  match s with
  | [] => []
  | c :: t =>
      if is_space c
      then (if in_run then sub_ws true t else space :: sub_ws true t)
      else c :: sub_ws false t
  end.

(** [norm] of both all-around scripts. *)
Definition norm (s : str) : str := sub_ws false (strip s).

(** [s.split()]: the maximal runs of non-whitespace characters. *)
Fixpoint split (s : str) : list str :=
  match s with
  | [] => []
  | c :: t =>
      if is_space c then split t
      else match t with
           | [] => [[c]]
           | d :: _ =>
               if is_space d then [c] :: split t
               else match split t with
                    | w :: ws => (c :: w) :: ws
                    | [] => [[c]]
                    end
           end
  end.

(** [sep.join(parts)] *)
Fixpoint join (sep : str) (parts : list str) : str :=
  match parts with
  | [] => []
  | [p] => p
  | p :: rest => p ++ sep ++ join sep rest
  end.

(** [s.startswith("-")] *)
Definition startswith_minus (s : str) : bool :=
  match s with
  | c :: _ => Ascii.eqb c "-"%char
  | [] => false
  end.

(** ** The line normalizer ([collapse_row]) *)

(** A raw cell of a table row: text, or one of the two non-text values a
    frame can hold, which [str(x)] prints as [None] and [nan]. *)
Inductive cell :=
| Text (s : str)
| PyNone
| PyNaN.

(** [str(x)] *)
Definition py_str (x : cell) : str :=
  match x with
  | Text s => s
  | PyNone => of_string "None"
  | PyNaN => of_string "nan"
  end.

(** [x in ("", "None", "nan")] *)
Definition is_placeholder (s : str) : bool :=
  str_eqb s (of_string "") || str_eqb s (of_string "None")
  || str_eqb s (of_string "nan").

(** The condition of the comprehension in [collapse_row]. *)
Definition keep_cell (x : cell) : bool :=
  negb (is_placeholder (strip (py_str x))).

Definition collapse_row (row : list cell) : str :=
  let parts := map py_str (filter keep_cell row) in
  norm (join (of_string " ") parts).

(** [lines = [collapse_row(r) for r in raw]; lines = [ln for ln in lines if ln]] *)
Definition nonempty (s : str) : bool :=
  match s with [] => false | _ => true end.

Definition build_lines (raw : list (list cell)) : list str :=
  filter nonempty (map collapse_row raw).

(** ** Regular expressions, as Python's [re] runs them *)

Inductive regex :=
| Eps                                   (* the empty pattern *)
| Chr (p : ascii -> bool)               (* one character of a class *)
| Cat (r1 r2 : regex)                   (* r1 r2 *)
| Rep (greedy : bool) (lo : nat) (hi : option nat) (r : regex)
                                        (* r{lo,hi}, or r{lo,hi}? when lazy *)
| Grp (name : string) (r : regex)       (* (?P<name>r) *)
| Eos.                                  (* $ *)

(** The groups captured so far, most recent first. *)
Definition captures := list (string * str).

Definition group (name : string) (g : captures) : str :=
  match find (fun b => String.eqb (fst b) name) g with
  | Some (_, v) => v
  | None => []
  end.

Definition below (n : nat) (hi : option nat) : bool :=
  match hi with
  | Some h => n <? h
  | None => true
  end.

Section Matcher.
Variable R : Type.

(** [run r s g k]: match [r] at the front of [s], then hand the rest of
    the text and the captures to the continuation [k]; alternatives are
    tried in Python's order and the first success is returned.  A
    repetition gives up an iteration that consumes nothing (no repeated
    pattern of this program can match the empty text). *)
Fixpoint run (r : regex) (s : str) (g : captures)
    (k : str -> captures -> option R) {struct r} : option R :=
  match r with
  | Eps => k s g
  | Chr p =>
      match s with
      | c :: t => if p c then k t g else None
      | [] => None
      end
  | Cat r1 r2 => run r1 s g (fun s' g' => run r2 s' g' k)
  | Grp name r1 =>
      run r1 s g
        (fun s' g' => k s' ((name, firstn (length s - length s') s) :: g'))
  | Eos =>
      match s with
      | [] => k s g
      | [c] => if Ascii.eqb c newline then k s g else None
      | _ => None
      end
  | Rep greedy lo hi r1 =>
      (fix loop (fuel n : nat) (s : str) (g : captures) {struct fuel}
         : option R :=
         match fuel with
         | 0 => if lo <=? n then k s g else None
         | S fuel' =>
             if greedy then
               match
                 (if below n hi
                  then run r1 s g
                         (fun s' g' =>
                            if length s' <? length s
                            then loop fuel' (S n) s' g' else None)
                  else None)
               with
               | Some x => Some x
               | None => if lo <=? n then k s g else None
               end
             else
               match (if lo <=? n then k s g else None) with
               | Some x => Some x
               | None =>
                   if below n hi
                   then run r1 s g
                          (fun s' g' =>
                             if length s' <? length s
                             then loop fuel' (S n) s' g' else None)
                   else None
               end
         end) (length s) 0 s g
  end.
End Matcher.

(** [pattern.match(s)]: the captures of the match anchored at the start of
    [s] (the patterns that open with [^] are used through [match] only). *)
Definition re_match (r : regex) (s : str) : option captures :=
  run r s [] (fun _ g => Some g).

(** The truth value of [pattern.match(s)]. *)
Definition matches (r : regex) (ln : str) : bool :=
  match re_match r ln with Some _ => true | None => false end.

(** The match of [r] at the front of [s]: the matched text, the captures
    and the rest of [s]. *)
Definition re_prefix (r : regex) (s : str) : option (str * captures * str) :=
  run r s [] (fun s' g => Some (firstn (length s - length s') s, g, s')).

(** [pattern.finditer(s)]: the matches from left to right, without
    overlap; [skip] characters still belong to the previous match. *)
Fixpoint finditer_from (r : regex) (skip : nat) (s : str)
    : list (str * captures) :=
  match s with
  | [] => []
  | _ :: t =>
      match skip with
      | S n => finditer_from r n t
      | 0 =>
          match re_prefix r s with
          | Some (w, g, _) =>
              match w with
              | [] => finditer_from r 0 t
              | _ => (w, g) :: finditer_from r (length w - 1) t
              end
          | None => finditer_from r 0 t
          end
      end
  end.

Definition finditer (r : regex) (s : str) : list (str * captures) :=
  finditer_from r 0 s.

(** [pattern.findall(s)] of a pattern without groups. *)
Definition findall (r : regex) (s : str) : list str :=
  map fst (finditer r s).

Definition cat (rs : list regex) : regex := fold_right Cat Eps rs.
Definition lit (c : ascii) : regex := Chr (Ascii.eqb c).
Definition digit : regex := Chr is_digit.                 (* \d *)
Definition ws : regex := Chr is_space.                    (* \s *)
Definition upper : regex := Chr is_upper.                 (* [A-Z] *)
Definition any : regex := Chr (fun c => negb (Ascii.eqb c newline)).  (* . *)
Definition star (r : regex) : regex := Rep true 0 None r.       (* r* *)
Definition plus (r : regex) : regex := Rep true 1 None r.       (* r+ *)
Definition opt (r : regex) : regex := Rep true 0 (Some 1) r.    (* r? *)
Definition times (lo hi : nat) (r : regex) : regex :=
  Rep true lo (Some hi) r.                                      (* r{lo,hi} *)

(** [\d{1,2}\.\d{3}], the pattern of [findall] in [parse_dscore_line] and
    of the groups [D] and [score]. *)
Definition FLOAT3 : regex :=
  cat [times 1 2 digit; lit "."; times 3 3 digit].

(** [IS_FLOAT = re.compile(r"^-?\d+(?:\.\d+)?$")] *)
Definition IS_FLOAT : regex :=
  cat [opt (lit "-"); plus digit; opt (cat [lit "."; plus digit]); Eos].

Definition is_float (t : str) : bool :=
  match re_match IS_FLOAT t with Some _ => true | None => false end.

(** [D_SCORE_RK] of the individual script. *)
Definition D_SCORE_RK : regex :=
  cat [Grp "D" FLOAT3; plus ws; Grp "score" FLOAT3; plus ws;
       lit "("; Grp "rk" (plus digit); lit ")"].

(** [IDENTITY_RE] of the individual script (verbose syntax: the blanks and
    comments of the literal are not part of the pattern). *)
Definition IDENTITY_RE : regex :=
  cat [star ws; Grp "rank" (plus digit); plus ws;
       Grp "bib" (plus digit); plus ws;
       Grp "name"
         (Rep false 1 None
            (cat [upper; times 0 40 (Chr (fun c => negb (is_digit c)));
                  opt ws]));
       plus ws; Grp "noc" (times 3 3 upper); plus ws;
       lit "D"; plus ws; lit "E"; star ws; Eos].

(** [\d{1,3}\.\d{3}\s*\(\d+\)\s+], one apparatus column of [TEAM_HDR]. *)
Definition team_column (name : string) : regex :=
  cat [Grp name (cat [times 1 3 digit; lit "."; times 3 3 digit]);
       star ws; lit "("; plus digit; lit ")"; plus ws].

(** [TEAM_HDR] of the team script. *)
Definition TEAM_HDR : regex :=
  cat [star ws; Grp "trank" (plus digit); plus ws;
       Grp "noc" (times 3 3 upper); star ws; lit "-"; star ws;
       Rep false 0 None any;
       team_column "v"; team_column "ub"; team_column "bb"; team_column "fx";
       Grp "ttotal" (cat [times 2 3 digit; lit "."; times 3 3 digit]);
       star ws; Eos].

(** [[A-Za-z'\-]] *)
Definition is_name_char (c : ascii) : bool :=
  is_upper c || is_lower c || Ascii.eqb c "'"%char || Ascii.eqb c "-"%char.

(** [ATH_HDR] of the team script. *)
Definition ATH_HDR : regex :=
  cat [star ws; Grp "bib" (Rep true 3 None digit); plus ws;
       Grp "name"
         (cat [upper; plus (Chr is_name_char);
               star (cat [ws; upper; plus (Chr is_name_char)])]);
       plus ws; lit "D"; plus ws; lit "E"; star ws;
       Grp "trail" (star any); Eos].

(** [int(s)] on a text of decimal digits. *)
Definition int_of (s : str) : Z :=
  fold_left (fun acc c => (10 * acc + Z.of_nat (nat_of_ascii c - 48))%Z) s 0%Z.

(** ** Floating-point values

    The scripts only convert tokens with [float], add scores, round a sum
    with [round(x, 3)] and write [0.0] and [float("nan")].  These are
    Python's, not the repository's, so they are an interface; [float] is
    only ever applied to a text that [IS_FLOAT] (or the stricter
    [\d{1,2}\.\d{3}]) accepts, where it does not raise and does not give a
    NaN. *)
Class PyFloat := {
  float : Type;
  float_of_str : str -> float;           (* float(t) *)
  fzero : float;                         (* 0.0 *)
  fnan : float;                          (* float("nan") *)
  fadd : float -> float -> float;        (* x + y *)
  round3 : float -> float;               (* round(x, 3) *)
  isnan : float -> bool;                 (* math.isnan / pandas isna *)
  isnan_fnan : isnan fnan = true;
  isnan_fzero : isnan fzero = false;
  isnan_float_of_str :
    forall t, is_float t = true -> isnan (float_of_str t) = false
}.

(** [l[-1]] when [l] is not empty. *)
Definition last_error (A : Type) (l : list A) : option A :=
  nth_error l (length l - 1).

(** [enumerate(l)] *)
Definition enumerate (A : Type) (l : list A) : list (nat * A) :=
  combine (seq 0 (length l)) l.

Definition APPARATUS : list string :=
  ["Vault"; "UnevenBars"; "BalanceBeam"; "Floor"]%string.

Section Parsers.
Context {PF : PyFloat}.

(** The five fields a record holds for one apparatus; [Rk] is [None]
    where Python stores [None]. *)
Record app_entry := {
  Score : float;
  D : float;
  E : float;
  Pen : float;
  Rk : option Z
}.

(** The optional penalty of both Execution/Penalty parsers:
    [Pen = 0.0; if i < len(t) and t[i].startswith("-") and
    IS_FLOAT.match(t[i]): Pen = float(t[i]); i += 1]. *)
Definition take_pen (toks : list str) : float * list str :=
  match toks with
  | p :: rest =>
      if startswith_minus p && is_float p
      then (float_of_str p, rest)
      else (fzero, toks)
  | [] => (fzero, [])
  end.
End Parsers.

(** *** individual_allaround.py *)
Module Individual.
Section Defs.
Context {PF : PyFloat}.

Record triplet := { tD : float; tScore : float; tRk : Z }.

(** The lookbehind [(?<=\d\.\d{3})] on the characters before a position,
    nearest first. *)
Definition behind_float3 (before : str) : bool :=
  match before with
  | d3 :: d2 :: d1 :: dot :: d0 :: _ =>
      is_digit d3 && is_digit d2 && is_digit d1
      && Ascii.eqb dot "."%char && is_digit d0
  | _ => false
  end.

(** [re.sub(r'(?<=\d\.\d{3})(?=\d)', ' ', line)]: a space goes in at
    every position of the line that has a 3-decimal number just before
    it and a digit just after it. *)
Fixpoint deglue_from (before s : str) : str :=
  match s with
  | [] => []
  | c :: t =>
      (if behind_float3 before && is_digit c then [space; c] else [c])
      ++ deglue_from (c :: before) t
  end.

Definition deglue (s : str) : str := deglue_from [] s.

Definition triplet_of (m : str * captures) : triplet :=
  {| tD := float_of_str (group "D" (snd m));
     tScore := float_of_str (group "score" (snd m));
     tRk := int_of (group "rk" (snd m)) |}.

Definition parse_dscore_line (line : str) : list triplet * option float :=
  let line := norm line in
  let line := deglue line in
  let triplets := map triplet_of (finditer D_SCORE_RK line) in
  let floats := findall FLOAT3 line in
  let total := option_map float_of_str (last_error floats) in
  (triplets, total).

(** The [for _ in range(4)] loop of [parse_e_pen_line], on the tokens
    from the cursor [i] on; [None] is the [return None]. *)
Fixpoint e_pen_loop (rounds : nat) (toks : list str)
    : option (list (float * float)) :=
  match rounds with
  | 0 => Some []
  | S rounds' =>
      match toks with
      | [] => None
      | t :: rest =>
          if is_float t then
            let '(pen, rest') := take_pen rest in
            option_map (cons (float_of_str t, pen)) (e_pen_loop rounds' rest')
          else None
      end
  end.

Definition parse_e_pen_line (line : str) : option (list (float * float)) :=
  let toks := split (norm line) in
  e_pen_loop 4 toks.

Record record := {
  Rank : Z;
  Bib : Z;
  Name : str;
  NOC : str;
  apps : list (string * app_entry);   (* one entry per apparatus *)
  Total : option float
}.

Definition default_triplet : triplet :=
  {| tD := fnan; tScore := fnan; tRk := 0%Z |}.

(** The body of [for j, app in enumerate(APPARATUS)]. *)
Definition app_fields (d_trips : list triplet) (epen : list (float * float))
    (ja : nat * string) : string * app_entry :=
  let '(j, app) := ja in
  let t := nth j d_trips default_triplet in
  let '(e, pen) := nth j epen (fnan, fnan) in
  (app, {| Score := tScore t; D := tD t; E := e; Pen := pen;
           Rk := Some (tRk t) |}).

(** Python's truth value of a list. *)
Definition truthy (A : Type) (l : list A) : bool :=
  match l with [] => false | _ => true end.

(** One iteration of the loop of [parse_pdf] on line [i]: the record it
    appends, or [None] where it runs into a [continue]. *)
Definition block (lines : list str) (i : nat) (line : str) : option record :=
  match re_match IDENTITY_RE line with
  | None => None
  | Some m =>
      if (i <? 1) || (length lines <=? i + 1) then None
      else
        let dscore_line := nth (i - 1) lines [] in
        let e_line := nth (i + 1) lines [] in
        let '(d_trips, total) := parse_dscore_line dscore_line in
        match parse_e_pen_line e_line with
        | None => None
        | Some epen =>
            if negb (truthy d_trips) || (length d_trips <? 4)
               || negb (truthy epen) || (length epen <? 4)
            then None
            else
              Some {| Rank := int_of (group "rank" m);
                      Bib := int_of (group "bib" m);
                      Name := strip (group "name" m);
                      NOC := group "noc" m;
                      apps := map (app_fields d_trips epen)
                                  (enumerate APPARATUS);
                      Total := total |}
        end
  end.

(** The records of [parse_pdf], each with the index of its identity
    line. *)
Definition emitted (lines : list str) : list (nat * record) :=
  flat_map
    (fun il => match block lines (fst il) (snd il) with
               | Some rec => [(fst il, rec)]
               | None => []
               end)
    (enumerate lines).

Definition parse_lines (lines : list str) : list record :=
  map snd (emitted lines).
End Defs.
End Individual.

(** *** team_allaround.py *)
Module Team.
Section Defs.
Context {PF : PyFloat}.

(** [floats_from] *)
Definition floats_from (s : str) : list str :=
  filter is_float (split s).

(** [range(0, stop, 2)]; [stop] is [len(vals) - 1], which is -1 on the
    empty list. *)
Definition range2 (stop : Z) : list nat :=
  map (fun j => 2 * j) (seq 0 (Z.to_nat ((stop + 1) / 2))).

(** The loop of [parse_ds_pairs] over the remaining indices, with its
    [break]. *)
Fixpoint pairs_loop (vals : list float) (idxs : list nat)
    (pairs : list (float * float)) : list (float * float) :=
  match idxs with
  | [] => pairs
  | i :: idxs' =>
      let pairs := pairs ++ [(nth i vals fnan, nth (i + 1) vals fnan)] in
      if length pairs =? 4 then pairs else pairs_loop vals idxs' pairs
  end.

(** [tokens] is a list of [floats_from]: texts that [float] accepts. *)
Definition parse_ds_pairs (tokens : list str) : list (float * float) :=
  let vals := map float_of_str tokens in
  pairs_loop vals (range2 (Z.of_nat (length vals) - 1)) [].

(** [parse_e_pen]: [room] is [max_groups - len(vals)], [tokens] the
    tokens from the cursor [i] on. *)
Fixpoint parse_e_pen (tokens : list str) (room : nat)
    : list (float * float) :=
  match room with
  | 0 => []
  | S room' =>
      match tokens with
      | [] => []
      | t :: rest =>
          if is_float t then
            let '(pen, rest') := take_pen rest in
            (float_of_str t, pen) :: parse_e_pen rest' room'
          else []
      end
  end.

Record record := {
  Rank : option Z;
  Bib : Z;
  Name : str;
  NOC : str;
  apps : list (string * app_entry);   (* one entry per apparatus *)
  Total : float
}.

(** The body of [for idx, app in enumerate(APPARATUS)]: the entries so
    far and the running [total]. *)
Definition add_app (ds_pairs epen : list (float * float)) (k : nat)
    (acc : list (string * app_entry) * float) (ia : nat * string)
    : list (string * app_entry) * float :=
  let '(entries, total) := acc in
  let '(idx, app) := ia in
  if idx <? k then
    let '(d, s) := nth idx ds_pairs (fnan, fnan) in
    let '(e, pen) := nth idx epen (fnan, fnan) in
    (entries ++ [(app, {| Score := s; D := d; E := e; Pen := pen;
                          Rk := None |})],
     fadd total s)
  else
    (entries ++ [(app, {| Score := fnan; D := fnan; E := fnan;
                          Pen := fnan; Rk := None |})],
     total).

(** Lines 116-142: the record of one athlete from the two token pools. *)
Definition build_record (ctx_rank : option Z) (ctx_noc : str) (bib : Z)
    (name : str) (ds_tokens e_tokens : list str) : record :=
  let ds_pairs := parse_ds_pairs ds_tokens in
  let epen := parse_e_pen e_tokens 4 in
  let k := Nat.min (length ds_pairs) (Nat.min (length epen) 4) in
  let '(entries, total) :=
    fold_left (add_app ds_pairs epen k) (enumerate APPARATUS) ([], fzero) in
  {| Rank := ctx_rank; Bib := bib; Name := name; NOC := ctx_noc;
     apps := entries;
     Total := if 0 <? k then round3 total else fnan |}.

(** The inner [while j < len(lines)] loop: [rest] is [lines[j:]]; the
    result is the final [j] and [e_tokens]. *)
Fixpoint scan (rest : list str) (j : nat) (e_tokens : list str)
    : nat * list str :=
  match rest with
  | [] => (j, e_tokens)
  | nxt :: rest' =>
      if matches ATH_HDR nxt || matches TEAM_HDR nxt then (j, e_tokens)
      else
        let toks := floats_from nxt in
        scan rest' (S j)
             (match toks with [] => e_tokens | _ => e_tokens ++ toks end)
  end.

(** The variables of the main loop; each row carries the index of the
    athlete line it was started from. *)
Record state := {
  pos : nat;                      (* i *)
  ctx_rank : option Z;
  ctx_noc : option str;
  rows : list (nat * record)
}.

Definition init : state :=
  {| pos := 0; ctx_rank := None; ctx_noc := None; rows := [] |}.

(** Python's truth value of [ctx_noc]. *)
Definition has_context (st : state) : bool :=
  match ctx_noc st with
  | Some (_ :: _) => true
  | _ => false
  end.

Definition advance (st : state) : state :=
  {| pos := pos st + 1; ctx_rank := ctx_rank st; ctx_noc := ctx_noc st;
     rows := rows st |}.

(** One iteration of [while i < len(lines)], entered with [i < len]. *)
Definition step (lines : list str) (st : state) : state :=
  let i := pos st in
  let ln := nth i lines [] in
  match re_match TEAM_HDR ln with
  | Some mt =>
      {| pos := i + 1;
         ctx_rank := Some (int_of (group "trank" mt));
         ctx_noc := Some (group "noc" mt);
         rows := rows st |}
  | None =>
      match re_match ATH_HDR ln with
      | Some ma =>
          if has_context st then
            let bib := int_of (group "bib" ma) in
            let name := strip (group "name" ma) in
            let trail := group "trail" ma in
            let ds_tokens := floats_from trail in
            let '(j, e_tokens) := scan (skipn (i + 1) lines) (i + 1) [] in
            let rec :=
              build_record (ctx_rank st)
                (match ctx_noc st with Some c => c | None => [] end)
                bib name ds_tokens e_tokens in
            {| pos := j; ctx_rank := ctx_rank st; ctx_noc := ctx_noc st;
               rows := rows st ++ [(i, rec)] |}
          else advance st
      | None => advance st
      end
  end.

(** The main loop; [None] only if [fuel] iterations were not enough. *)
Fixpoint loop (fuel : nat) (lines : list str) (st : state) : option state :=
  if length lines <=? pos st then Some st
  else match fuel with
       | 0 => None
       | S fuel' => loop fuel' lines (step lines st)
       end.

(** [rows] at the end of the scan of [parse_pdf_team]. *)
Definition parse_lines (lines : list str) : option (list record) :=
  option_map (fun st => map snd (rows st))
             (loop (length lines) lines init).
End Defs.
End Team.

(** *** Frames and the numeric pass

    A frame is its labelled columns in order; every column holds one cell
    per row. *)
Section Frames.
Context {PF : PyFloat}.

(** A cell of a frame: text, an integer, a float (NaN included) or
    [None]. *)
Inductive value :=
| VStr (s : str)
| VInt (n : Z)
| VNum (x : float)
| VNone.

Definition frame := list (str * list value).

Definition columns (d : frame) : list str := map fst d.

(** [len(d)] *)
Definition nrows (d : frame) : nat :=
  match d with
  | (_, col) :: _ => length col
  | [] => 0
  end.

(** [d[c]] where the label occurs. *)
Definition column (d : frame) (c : str) : option (list value) :=
  option_map snd (find (fun p => str_eqb (fst p) c) d).

(** [c in l] *)
Definition str_mem (c : str) (l : list str) : bool :=
  existsb (str_eqb c) l.

(** The text-to-number conversion of [pd.to_numeric] on one text:
    [None] where pandas finds the text unparsable. *)
Variable parse_numeric : str -> option float.

(** What [pd.to_numeric] makes of one cell once it converts the column:
    numbers stay, [None] and unparsable text become NaN. *)
Definition coerce_cell (v : value) : value :=
  match v with
  | VStr s =>
      match parse_numeric s with
      | Some x => VNum x
      | None => VNum fnan
      end
  | VNone => VNum fnan
  | VInt n => VInt n
  | VNum x => VNum x
  end.

Definition convertible (v : value) : bool :=
  match v with
  | VStr s => match parse_numeric s with Some _ => true | None => false end
  | _ => true
  end.

(** [pd.to_numeric(col, errors="coerce")] *)
Definition to_numeric_coerce (col : list value) : list value :=
  map coerce_cell col.

(** [pd.to_numeric(col, errors="ignore")]: the input itself comes back
    when one cell cannot be parsed. *)
Definition to_numeric_ignore (col : list value) : list value :=
  if forallb convertible col then map coerce_cell col else col.

(** [for c in df.columns: if c in skip: continue; df[c] = f(df[c])] on
    a frame whose labels are distinct. *)
Definition numeric_pass (skip : list str) (f : list value -> list value)
    (d : frame) : frame :=
  map (fun p => if str_mem (fst p) skip then p else (fst p, f (snd p))) d.

(** The numeric cleanup of [parse_pdf] and [parse_pdf_team]. *)
Definition numeric_cleanup (d : frame) : frame :=
  numeric_pass [of_string "Name"; of_string "NOC"] to_numeric_coerce d.
End Frames.

(** *** events.py *)
Module Events.
Section Defs.
Context {PF : PyFloat}.
Variable parse_numeric : str -> option float.

(** [if c not in master_cols: master_cols.append(c)] *)
Definition add_col (master : list str) (c : str) : list str :=
  if str_mem c master then master else master ++ [c].

(** The two nested loops that build [master_cols]. *)
Definition master_cols (all_rows : list frame) : list str :=
  fold_left (fun master d => fold_left add_col (columns d) master)
            all_rows [].

Fixpoint has_dup (l : list str) : bool :=
  match l with
  | [] => false
  | c :: t => str_mem c t || has_dup t
  end.

(** [d.reindex(columns=master)]: pandas refuses a frame with a repeated
    label ([None]); a label the frame lacks gives a column of NaN. *)
Definition reindex (master : list str) (d : frame) : option frame :=
  if has_dup (columns d) then None
  else
    Some (map (fun c =>
                 (c, match column d c with
                     | Some col => col
                     | None => repeat (VNum fnan) (nrows d)
                     end))
              master).

Fixpoint all_some (A : Type) (l : list (option A)) : option (list A) :=
  match l with
  | [] => Some []
  | Some x :: t => option_map (cons x) (all_some t)
  | None :: _ => None
  end.

(** [pd.concat(normed, ignore_index=True)] of frames that all carry the
    labels [master]: the columns stacked in the order of the frames. *)
Definition concat (master : list str) (normed : list frame) : frame :=
  map (fun c =>
         (c, flat_map (fun d => match column d c with
                                | Some col => col
                                | None => []
                                end) normed))
      master.

(** Step 3 of [parse_events_pdf]. *)
Definition align (all_rows : list frame) : option frame :=
  let master := master_cols all_rows in
  option_map (concat master) (all_some (map (reindex master) all_rows)).

(** Step 4 of [parse_events_pdf]. *)
Definition numeric_best_effort (out_df : frame) : frame :=
  numeric_pass [of_string "Event"; of_string "Name"]
               (to_numeric_ignore parse_numeric) out_df.

(** The labels of a list in the order of their first occurrence. *)
Fixpoint first_seen (l : list str) : list str :=
  match l with
  | [] => []
  | c :: t => c :: filter (fun x => negb (str_eqb x c)) (first_seen t)
  end.
End Defs.
End Events.

(** *** Exact decimals, an instance of the float interface used to run the
    parsers on sample lines. *)
Module Decimal.
(** The digits of [s] up to the first point, and those after it. *)
Fixpoint cut_point (s : str) : str * str :=
  match s with
  | [] => ([], [])
  | c :: t =>
      if Ascii.eqb c "."%char then ([], t)
      else let '(a, b) := cut_point t in (c :: a, b)
  end.

Definition value (t : str) : Q :=
  let '(neg, body) :=
    match t with
    | c :: rest => if Ascii.eqb c "-"%char then (true, rest) else (false, t)
    | [] => (false, t)
    end in
  let '(ip, fp) := cut_point body in
  let n := int_of (ip ++ fp) in
  Qred (Qmake (if neg then - n else n)
              (Z.to_pos (10 ^ Z.of_nat (length fp)))).

Definition of_str (t : str) : option Q := Some (value t).

Definition add (x y : option Q) : option Q :=
  match x, y with
  | Some a, Some b => Some (Qred (a + b))
  | _, _ => None
  end.

(** Rounding to thousandths, ties to even. *)
Definition round_thousandths (x : option Q) : option Q :=
  match x with
  | Some a =>
      let n := (Qnum a * 1000)%Z in
      let d := Zpos (Qden a) in
      let q := (n / d)%Z in
      let r := (2 * (n mod d))%Z in
      let q' := if (r <? d)%Z then q
                else if (d <? r)%Z then (q + 1)%Z
                else if Z.even q then q else (q + 1)%Z in
      Some (Qred (Qmake q' 1000))
  | None => None
  end.

Definition is_none (x : option Q) : bool :=
  match x with Some _ => false | None => true end.

#[export] Instance decimal : PyFloat :=
  {| float := option Q;
     float_of_str := of_str;
     fzero := Some 0%Q;
     fnan := None;
     fadd := add;
     round3 := round_thousandths;
     isnan := is_none;
     isnan_fnan := eq_refl;
     isnan_fzero := eq_refl;
     isnan_float_of_str := fun _ _ => eq_refl |}.
End Decimal.

(** ** Notions used to state the properties *)

Unset Implicit Arguments.

Arguments is_space : simpl never.
Arguments is_digit : simpl never.
Arguments is_float : simpl never.

(** The text starts with a whitespace character. *)
Definition starts_space (s : str) : bool :=
  match s with
  | c :: _ => is_space c
  | [] => false
  end.

Section TokenNotions.
Context {PF : PyFloat}.

(** A token that both parsers take as a penalty: a float written with a
    minus sign. *)
Definition is_pen (p : str) : bool := startswith_minus p && is_float p.

Definition next_is_pen (toks : list str) : bool :=
  match toks with
  | p :: _ => is_pen p
  | [] => false
  end.

(** No group starts at the front of the tokens. *)
Definition stuck (toks : list str) : bool :=
  match toks with
  | t :: _ => negb (is_float t)
  | [] => true
  end.

(** [reads toks gs rem]: reading the tokens from left to right gives the
    groups [gs], each a float with the negative float that follows it or
    with penalty zero when none follows, and leaves [rem]. *)
Inductive reads : list str -> list (float * float) -> list str -> Prop :=
| reads_done (toks : list str) : reads toks [] toks
| reads_pen (t p : str) (rest : list str) gs rem :
    is_float t = true -> is_pen p = true -> reads rest gs rem ->
    reads (t :: p :: rest) ((float_of_str t, float_of_str p) :: gs) rem
| reads_bare (t : str) (rest : list str) gs rem :
    is_float t = true -> next_is_pen rest = false -> reads rest gs rem ->
    reads (t :: rest) ((float_of_str t, fzero) :: gs) rem.

(** The [j]-th consecutive pair of a list of values. *)
Definition pair_at (vals : list float) (j : nat) : float * float :=
  (nth (2 * j) vals fnan, nth (2 * j + 1) vals fnan).

(** The four float fields of an apparatus entry are numbers. *)
Definition resolved (e : app_entry) : bool :=
  negb (isnan (Score e)) && negb (isnan (D e))
  && negb (isnan (E e)) && negb (isnan (Pen e)).

(** The four float fields of an apparatus entry are the unknown marker. *)
Definition unknown (e : app_entry) : Prop :=
  Score e = fnan /\ D e = fnan /\ E e = fnan /\ Pen e = fnan.

(** A line at which the forward scan of the team script stops. *)
Definition is_header (ln : str) : bool :=
  matches ATH_HDR ln || matches TEAM_HDR ln.


(** The indices of the rows are distinct and lie before the cursor. *)
Definition rows_before (st : Team.state) : Prop :=
  NoDup (map fst (Team.rows st))
  /\ forall i, In i (map fst (Team.rows st)) -> i < Team.pos st.

(** Both components of a pair are numbers. *)
Definition both_numbers (p : float * float) : Prop :=
  isnan (fst p) = false /\ isnan (snd p) = false.

(** A team record whose first [k] apparatus groups are resolved: the
    entries follow [APPARATUS], the first [k] hold numbers and the others
    the unknown marker, no entry has a rank, and [Total] is the rounded
    sum of the [k] resolved scores, or the unknown marker when [k] is 0. *)
Definition resolved_groups (rec : Team.record) (k : nat) : Prop :=
  map fst (Team.apps rec) = APPARATUS
  /\ (forall idx app e,
        nth_error (Team.apps rec) idx = Some (app, e) ->
        Rk e = None
        /\ if idx <? k then resolved e = true else unknown e)
  /\ Team.Total rec
     = if 0 <? k
       then round3 (fold_left fadd
                      (map (fun a => Score (snd a))
                           (firstn k (Team.apps rec)))
                      fzero)
       else fnan.

(** A row made by [build_record] from a pool of float tokens. *)
Definition record_built (rec : Team.record) : Prop :=
  exists ctx_rank ctx_noc bib name ds_tokens e_tokens,
    Forall (fun t => is_float t = true) ds_tokens
    /\ rec = Team.build_record ctx_rank ctx_noc bib name ds_tokens e_tokens.
End TokenNotions.

(** A team block used to run the scan: a team header, an athlete with two
    D/Score pairs on the line and two E/Penalty groups below, and an
    athlete without any number. *)
Definition sample_team_lines : list str :=
  [of_string "1 USA - United States 43.332 (1) 44.000 (2) 41.100 (3) 42.000 (1) 170.432";
   of_string "123 Ann Lee D E 5.400 15.100 6.200 14.500";
   of_string "9.700 8.300 -0.100";
   of_string "124 Mia Roe D E"].

(** [\.] *)
Definition is_dot (c : ascii) : bool := Ascii.eqb "."%char c.

(** A 3-decimal number starts here: a digit, a point and three digits. *)
Definition float3_here (s : str) : bool :=
  match s with
  | d0 :: dot :: d1 :: d2 :: d3 :: _ =>
      is_digit d0 && is_dot dot && is_digit d1 && is_digit d2 && is_digit d3
  | _ => false
  end.

(** The text is one or two digits, a point and three digits. *)
Definition float3_shape (w : str) : bool :=
  match w with
  | [d0; dot; d1; d2; d3] => float3_here w
  | [d; d0; dot; d1; d2; d3] => is_digit d && float3_here [d0; dot; d1; d2; d3]
  | _ => false
  end.

(** No 3-decimal number occurs anywhere in the text. *)
Definition no_float3 (s : str) : Prop :=
  forall p : nat, float3_here (skipn p s) = false.

(** What [\d{1,2}\.\d{3}] matches at the front of a text: two digits
    before the point if there are two, else one. *)
Definition float3_prefix (s : str) : option (str * captures * str) :=
  match s with
  | a :: b :: s2 =>
      if is_digit a && is_digit b && float3_here (b :: s2)
      then Some (firstn 6 s, [], skipn 6 s)
      else if float3_here s then Some (firstn 5 s, [], skipn 5 s) else None
  | _ => None
  end.

(** Position [p] of [s] has a 3-decimal number just before it and a digit
    just after it. *)
Definition glue_point (s : str) (p : nat) : bool :=
  Individual.behind_float3 (rev (firstn p s))
  && match nth_error s p with
     | Some c => is_digit c
     | None => false
     end.

(** Two event blocks with different columns, used to run the alignment. *)
Definition sample_blocks {PF : PyFloat} : list frame :=
  [[(of_string "Event", [VStr (of_string "Vault")]);
    (of_string "Rank", [VStr (of_string "1")]);
    (of_string "Vault 1", [VStr (of_string "14.300")])];
   [(of_string "Event", [VStr (of_string "Floor"); VStr (of_string "Floor")]);
    (of_string "Rank", [VStr (of_string "1"); VStr (of_string "2")]);
    (of_string "Pen", [VStr (of_string "-0.1"); VStr (of_string "")])]].

(** ** More notions: matches of patterns, record starts, tokens *)

(** ** What a match of a pattern is *)

(** [Matches r w rest g g']: the pattern [r] matches the text [w] where
    [rest] follows it, and turns the captures [g] into [g']. *)
Inductive Matches : regex -> str -> str -> captures -> captures -> Prop :=
| M_eps (rest : str) (g : captures) : Matches Eps [] rest g g
| M_chr (p : ascii -> bool) (c : ascii) (rest : str) (g : captures) :
    p c = true -> Matches (Chr p) [c] rest g g
| M_cat (r1 r2 : regex) (w1 w2 rest : str) (g g1 g2 : captures) :
    Matches r1 w1 (w2 ++ rest) g g1 -> Matches r2 w2 rest g1 g2 ->
    Matches (Cat r1 r2) (w1 ++ w2) rest g g2
| M_grp (name : string) (r : regex) (w rest : str) (g g' : captures) :
    Matches r w rest g g' ->
    Matches (Grp name r) w rest g ((name, w) :: g')
| M_eos (rest : str) (g : captures) :
    rest = [] \/ rest = [newline] -> Matches Eos [] rest g g
| M_rep_stop (greedy : bool) (hi : option nat) (r : regex) (rest : str)
    (g : captures) :
    Matches (Rep greedy 0 hi r) [] rest g g
| M_rep_more (greedy : bool) (lo : nat) (hi : option nat) (r : regex)
    (w1 w2 rest : str) (g g1 g' : captures) :
    below 0 hi = true ->
    Matches r w1 (w2 ++ rest) g g1 -> w1 <> [] ->
    Matches (Rep greedy (lo - 1) (option_map (fun h => h - 1) hi) r)
            w2 rest g1 g' ->
    Matches (Rep greedy lo hi r) (w1 ++ w2) rest g g'.

(** The text has no digit. *)
Definition no_digits (w : str) : Prop :=
  forallb (fun c => negb (is_digit c)) w = true.

(** Line [i] starts a record of the team script: it matches the
    athlete-header pattern, not the team-header pattern, and some line
    before it matches the team-header pattern. *)
Definition starts_record (lines : list str) (i : nat) : bool :=
  matches ATH_HDR (nth i lines [])
  && negb (matches TEAM_HDR (nth i lines []))
  && existsb (fun m => matches TEAM_HDR (nth m lines [])) (seq 0 i).

(** The captures of the last team-header line among the first [i] lines. *)
Definition context_at (lines : list str) (i : nat) : option captures :=
  fold_left (fun acc ln => match re_match TEAM_HDR ln with
                           | Some g => Some g
                           | None => acc
                           end)
            (firstn i lines) None.

(** What the main loop keeps true of its variables. *)
Definition scan_invariant {PF : PyFloat} (lines : list str) (st : Team.state) : Prop :=
  map fst (Team.rows st) = filter (starts_record lines) (seq 0 (Team.pos st))
  /\ Team.has_context st
     = existsb (fun m => matches TEAM_HDR (nth m lines []))
               (seq 0 (Team.pos st))
  /\ (match context_at lines (Team.pos st) with
      | Some mt =>
          Team.ctx_rank st = Some (int_of (group "trank" mt))
          /\ Team.ctx_noc st = Some (group "noc" mt)
      | None => Team.ctx_rank st = None /\ Team.ctx_noc st = None
      end)
  /\ forall i rec,
      In (i, rec) (Team.rows st) ->
      exists mt ma,
        context_at lines i = Some mt
        /\ re_match ATH_HDR (nth i lines []) = Some ma
        /\ Team.NOC rec = group "noc" mt
        /\ Team.Rank rec = Some (int_of (group "trank" mt))
        /\ Team.Bib rec = int_of (group "bib" ma)
        /\ Team.Name rec = strip (group "name" ma).


(** A token: a text that is not empty and has no whitespace. *)
Definition is_token (t : str) : bool :=
  nonempty t && forallb (fun c => negb (is_space c)) t.

(** An identity line between its score line and its execution line, and
    an identity line whose score line is short. *)
Definition sample_individual_lines : list str :=
  [of_string "5.300 13.233 (3) 5.600 14.100 (1) 5.000 13.000 (4) 5.100 13.100 (2) 53.433";
   of_string "1 345 SMITH Jane USA D E";
   of_string "7.933 8.500 -0.100 8.000 8.000";
   of_string "5.300 13.233 (3) 5.600 14.100 (1) 27.333";
   of_string "2 346 JONES Amy GBR D E";
   of_string "7.933 8.500 8.000 8.000"].

(** The line [j] at which the forward scan started after the athlete line
    [i] stops: the first later line that is an athlete or team header, or
    the end of the lines. *)
Definition scan_stop (lines : list str) (i j : nat) : Prop :=
  i < j <= length lines
  /\ (forall m, i < m < j -> is_header (nth m lines []) = false)
  /\ (j < length lines -> is_header (nth j lines []) = true).

(** The E/Pen token pool of the athlete line [i] when the forward scan
    stops at line [j]: the float tokens of the lines in between, in
    order. *)
Definition e_pool (lines : list str) (i j : nat) : list str :=
  flat_map Team.floats_from (firstn (j - (i + 1)) (skipn (i + 1) lines)).

(** What the main loop keeps true of every row: it was started from an
    athlete line that is no team header, and built from the float tokens
    of the trail of that line and from the E/Pen pool of the lines up to
    the stop of the forward scan. *)
Definition row_from_lines {PF : PyFloat} (lines : list str)
    (ir : nat * Team.record) : Prop :=
  exists ma j rank noc,
    re_match TEAM_HDR (nth (fst ir) lines []) = None
    /\ re_match ATH_HDR (nth (fst ir) lines []) = Some ma
    /\ scan_stop lines (fst ir) j
    /\ snd ir
       = Team.build_record rank noc (int_of (group "bib" ma))
           (strip (group "name" ma))
           (Team.floats_from (group "trail" ma))
           (e_pool lines (fst ir) j).

(** ** More of events.py *)


(** [str(n)] of a natural number. *)
Definition str_of_nat (n : nat) : str :=
  of_string (DecimalString.NilZero.string_of_uint (Nat.to_uint n)).

(** A dict from texts to counts, in insertion order. *)
Definition counts := list (str * nat).

(** [d.get(k)] *)
Fixpoint counts_get (d : counts) (k : str) : option nat :=
  match d with
  | [] => None
  | (k', v) :: t => if str_eqb k' k then Some v else counts_get t k
  end.

(** [d[k] = v] *)
Fixpoint counts_set (d : counts) (k : str) (v : nat) : counts :=
  match d with
  | [] => [(k, v)]
  | (k', v') :: t =>
      if str_eqb k' k then (k', v) :: t else (k', v') :: counts_set t k v
  end.

Module EventTables.

(** [c = str(c).strip(); if c == "": c = "Unnamed"] *)
Definition clean_label (c : str) : str :=
  let c := strip c in
  if str_eqb c (of_string "") then of_string "Unnamed" else c.

(** The body of the loop of [make_unique_columns] on [seen] and [out]. *)
Definition unique_step (st : counts * list str) (c : str)
    : counts * list str :=
  let '(seen, out) := st in
  let c := clean_label c in
  match counts_get seen c with
  | None => (counts_set seen c 1, out ++ [c])
  | Some n =>
      (counts_set seen c (n + 1),
       out ++ [c ++ of_string "_" ++ str_of_nat (n + 1)])
  end.

Definition make_unique_columns (cols : list str) : list str :=
  snd (fold_left unique_step cols ([], [])).

End EventTables.

(** How often a label occurs in a list. *)
Definition occurrences (l : list str) (c : str) : nat :=
  count_occ (list_eq_dec ascii_dec) l c.

(** The label [make_unique_columns] gives to [c] after the labels [before]. *)
Definition numbered (before : list str) (c : str) : str :=
  match occurrences before c with
  | 0 => c
  | S k => c ++ of_string "_" ++ str_of_nat (S k + 1)
  end.

(** [s.startswith(pat)] *)
Fixpoint startswith (pat s : str) : bool :=
  match pat, s with
  | [], _ => true
  | p :: pat', c :: s' => Ascii.eqb p c && startswith pat' s'
  | _ :: _, [] => false
  end.

(** [pat in s] *)
Fixpoint contains (pat s : str) : bool :=
  startswith pat s
  || match s with
     | [] => false
     | _ :: t => contains pat t
     end.

(** [pattern.search(s)] as a truth value: the pattern matches at the
    front of some suffix of [s]. *)
Fixpoint re_search (r : regex) (s : str) : bool :=
  matches r s
  || match s with
     | [] => false
     | _ :: t => re_search r t
     end.

(** The lower-case form of a letter A..Z; other characters are kept. *)
Definition to_lower (c : ascii) : ascii :=
  if is_upper c then ascii_of_nat (nat_of_ascii c + 32) else c.

(** A character of a pattern compiled with [re.I]. *)
Definition ci (c : ascii) : regex :=
  Chr (fun x => Ascii.eqb (to_lower x) (to_lower c)).

(** A literal text of a pattern compiled with [re.I]. *)
Definition ci_text (s : string) : regex :=
  cat (map ci (list_ascii_of_string s)).

Module EventPages.

Definition EVENT_PATTERNS : list (str * str) :=
  [(of_string "Women's Vault", of_string "Vault");
   (of_string "Women's Uneven Bars", of_string "Uneven Bars");
   (of_string "Women's Balance Beam", of_string "Balance Beam");
   (of_string "Women's Floor Exercise", of_string "Floor")].

(** [Women's\s+Vault] *)
Definition VAULT_RE : regex :=
  cat [ci_text "Women's"; plus ws; ci_text "Vault"].

(** [Women's\s+Uneven\s+Bars] *)
Definition BARS_RE : regex :=
  cat [ci_text "Women's"; plus ws; ci_text "Uneven"; plus ws; ci_text "Bars"].

(** [Women's\s+Balance\s+Beam] *)
Definition BEAM_RE : regex :=
  cat [ci_text "Women's"; plus ws; ci_text "Balance"; plus ws; ci_text "Beam"].

(** [Women's\s+Floor] *)
Definition FLOOR_RE : regex :=
  cat [ci_text "Women's"; plus ws; ci_text "Floor"].

Definition detect_event_name (page_text : str) : str :=
  match find (fun pn => contains (fst pn) page_text) EVENT_PATTERNS with
  | Some (_, name) => name
  | None =>
      if re_search VAULT_RE page_text then of_string "Vault"
      else if re_search BARS_RE page_text then of_string "Uneven Bars"
      else if re_search BEAM_RE page_text then of_string "Balance Beam"
      else if re_search FLOOR_RE page_text then of_string "Floor"
      else of_string "Unknown"
  end.

End EventPages.

(** [\w] *)
Definition is_word (c : ascii) : bool :=
  let n := nat_of_ascii c in
  ((48 <=? n) && (n <=? 57)) || ((65 <=? n) && (n <=? 90)) || (n =? 95)
  || ((97 <=? n) && (n <=? 122)) || (n =? 170) || (n =? 178) || (n =? 179)
  || (n =? 181) || (n =? 185) || (n =? 186) || ((188 <=? n) && (n <=? 190))
  || ((192 <=? n) && (n <=? 214)) || ((216 <=? n) && (n <=? 246))
  || (248 <=? n).

Definition wordy (c : option ascii) : bool :=
  match c with
  | Some c => is_word c
  | None => false
  end.

(** [\b] between two neighbours; the ends of the text count as no word
    character. *)
Definition boundary (before after : option ascii) : bool :=
  xorb (wordy before) (wordy after).

(** [\b w \b] matches at the front of [s], where [prev] stands before
    [s]. *)
Definition word_at (w : str) (prev : option ascii) (s : str) : bool :=
  boundary prev (hd_error s)
  && startswith w s
  && boundary (last (map Some w) prev) (nth_error s (length w)).

(** [re.search(r"\bw\b", s)] as a truth value. *)
Fixpoint word_search (w : str) (prev : option ascii) (s : str) : bool :=
  word_at w prev s
  || match s with
     | [] => false
     | c :: t => word_search w (Some c) t
     end.

Definition has_word (w : string) (s : str) : bool :=
  word_search (of_string w) None s.

(** [s.replace(old, new)] for a non-empty [old]; [skip] characters still
    belong to the occurrence replaced last. *)
Fixpoint replace_from (old new : str) (skip : nat) (s : str) : str :=
  match s with
  | [] => []
  | c :: t =>
      match skip with
      | S n => replace_from old new n t
      | 0 =>
          if startswith old s
          then new ++ replace_from old new (length old - 1) t
          else c :: replace_from old new 0 t
      end
  end.

Definition replace (old new : string) (s : str) : str :=
  replace_from (of_string old) (of_string new) 0 s.

(** A text without whitespace, such as a word to look for. *)
Definition solid (w : str) : Prop :=
  w <> [] /\ forallb (fun c => negb (is_space c)) w = true.

(** A table as Camelot gives it: rows of text cells. *)
Definition table := list (list str).

Definition n_cols (t : table) : nat :=
  match t with
  | r :: _ => length r
  | [] => 0
  end.

Module EventRows.

(** The test of the loop of [find_header_row] on one row. *)
Definition is_header_row (row : list str) : bool :=
  let row := map strip row in
  existsb (has_word "Rank") row && existsb (has_word "Name") row.

Definition find_header_row (df : table) : nat :=
  match find (fun i => is_header_row (nth i df []))
             (seq 0 (Nat.min (length df) 25)) with
  | Some i => i
  | None => 0
  end.

(** [df.replace("", pd.NA).isna().all(...)] on a list of cells. *)
Definition all_blank (cells : list str) : bool :=
  forallb (fun c => str_eqb c []) cells.

(** The positions of the columns that are not fully empty. *)
Definition kept_columns (df : table) : list nat :=
  filter (fun j => negb (all_blank (map (fun r => nth j r []) df)))
         (seq 0 (n_cols df)).

Definition select (js : list nat) (row : list str) : list str :=
  map (fun j => nth j row []) js.

(** [clean_table_keep_all_cols]: the labels and the rows of the cleaned
    table; [None] where [df.iloc[hdr_idx]] raises. *)
Definition clean_table_keep_all_cols (t : table)
    : option (list str * table) :=
  let df := map (select (kept_columns t)) t in
  let hdr_idx := find_header_row df in
  match nth_error df hdr_idx with
  | None => None
  | Some hdr =>
      let headers := EventTables.make_unique_columns (map strip hdr) in
      let df := skipn (hdr_idx + 1) df in
      let df := map (map strip) df in
      let df := filter (fun r => negb (all_blank r)) df in
      Some (EventTables.make_unique_columns headers, df)
  end.

End EventRows.

(** *** events.py, the run over the pages *)
Module EventRun.
Section Defs.
Context {PF : PyFloat}.
Variable parse_numeric : str -> option float.

(** A page of the PDF: what [extract_text] returns and the tables Camelot
    reads on it. *)
Record page := {
  text : option str;
  tables : list table
}.

(** [detect_event_name(p.extract_text() or "")] *)
Definition page_event (p : page) : str :=
  EventPages.detect_event_name
    (match text p with
     | Some t => t
     | None => []
     end).

(** [tt.df.shape[0] * tt.df.shape[1]] *)
Definition shape_size (t : table) : nat := length t * n_cols t.

(** [max(tables, key=...)]: the first table of the largest size. *)
Fixpoint largest_from (best : table) (rest : list table) : table :=
  match rest with
  | [] => best
  | t :: rest' =>
      if shape_size best <? shape_size t
      then largest_from t rest'
      else largest_from best rest'
  end.

(** The frame of the labels [cols] over the rows [rows]. *)
Definition to_frame (cols : list str) (rows : table) : frame :=
  map (fun j => (nth j cols [], map (fun r => VStr (nth j r [])) rows))
      (seq 0 (length cols)).

(** [df.insert(0, "Event", event_name)] on a frame of [n] rows: pandas
    refuses a label that is there already. *)
Definition insert_event (event_name : str) (n : nat) (d : frame)
    : option frame :=
  if str_mem (of_string "Event") (columns d) then None
  else Some ((of_string "Event", repeat (VStr event_name) n) :: d).

(** [df.rename(columns=lambda c: c.replace("Pen.", "Pen"))] *)
Definition rename_pen (d : frame) : frame :=
  map (fun p => (replace "Pen." "Pen" (fst p), snd p)) d.

Inductive page_result :=
| PageRaised                 (* an exception leaves the run *)
| PageSkipped                (* [continue] *)
| PageFrame (d : frame).     (* [all_rows.append(df)] *)

(** The body of the loop over the pages. *)
Definition page_frame (p : page) : page_result :=
  match tables p with
  | [] => PageSkipped
  | t :: rest =>
      match EventRows.clean_table_keep_all_cols (largest_from t rest) with
      | None => PageRaised
      | Some (cols, rows) =>
          match cols, rows with
          | [], _ | _, [] => PageSkipped
          | _, _ =>
              match insert_event (page_event p) (length rows)
                                 (to_frame cols rows) with
              | None => PageRaised
              | Some d => PageFrame (rename_pen d)
              end
          end
      end
  end.

(** [all_rows] after the loop, [None] when a page raised. *)
Fixpoint collect (pages : list page) : option (list frame) :=
  match pages with
  | [] => Some []
  | p :: ps =>
      match page_frame p with
      | PageRaised => None
      | PageSkipped => collect ps
      | PageFrame d => option_map (cons d) (collect ps)
      end
  end.

Inductive outcome :=
| Raised                     (* an exception leaves the run *)
| NoTables                   (* "No tables extracted." *)
| Saved (out_df : frame).    (* the table written to the CSV file *)

Definition parse_events_pdf (pages : list page) : outcome :=
  match collect pages with
  | None => Raised
  | Some [] => NoTables
  | Some all_rows =>
      match Events.align all_rows with
      | None => Raised
      | Some out_df => Saved (Events.numeric_best_effort parse_numeric out_df)
      end
  end.

(** The number of rows a page gives to the output. *)
Definition page_rows (p : page) : nat :=
  match page_frame p with
  | PageFrame d => nrows d
  | _ => 0
  end.
End Defs.
End EventRun.

(** ** Notions for the run over the pages *)

(** A page that makes the run raise: its largest table has no row, or
    the labels of its cleaned table collide once "Event" is put in front
    and "Pen." is renamed. *)
Definition breaks (p : EventRun.page) : bool :=
  match EventRun.tables p with
  | [] => false
  | t :: rest =>
      match EventRows.clean_table_keep_all_cols
              (EventRun.largest_from t rest) with
      | None => true
      | Some (cols, rows) =>
          negb (Nat.eqb (length cols) 0) && negb (Nat.eqb (length rows) 0)
          && Events.has_dup
               (of_string "Event" :: map (replace "Pen." "Pen") cols)
      end
  end.

(** Two pages used to run the extraction: a vault page whose table ends
    with an empty row, and a page without text whose table has a Pen.
    column. *)
Definition sample_pages : list EventRun.page :=
  [ {| EventRun.text := Some (of_string "Results Women's Vault Final");
       EventRun.tables :=
         [[[of_string "Rank"; of_string "Name"; of_string "Score"];
           [of_string "1"; of_string " Ann Lee"; of_string "14.500"];
           [of_string ""; of_string " "; of_string ""]]] |};
    {| EventRun.text := None;
       EventRun.tables :=
         [[[of_string "x"]];
          [[of_string "Rank"; of_string ""; of_string "Name"; of_string "Pen."];
           [of_string "1"; of_string ""; of_string "Mia Roe"; of_string "-0.100"];
           [of_string "2"; of_string ""; of_string "Eva Poe"; of_string ""]]] |} ].

(** The number parser used to run the extraction on the sample pages. *)
Definition sample_numeric (s : str) : option (float (PyFloat := Decimal.decimal)) :=
  if is_float s then Some (Decimal.of_str s) else None.

(** The run wrote a table. *)
Definition is_saved {PF : PyFloat} (o : EventRun.outcome) : bool :=
  match o with
  | EventRun.Saved _ => true
  | _ => false
  end.

(** A page that gives nothing to the output: it has no table, or the
    cleaned largest table has no label or no row. *)
Definition skipped (p : EventRun.page) : bool :=
  match EventRun.tables p with
  | [] => true
  | t :: rest =>
      match EventRows.clean_table_keep_all_cols
              (EventRun.largest_from t rest) with
      | None => false
      | Some (cols, rows) =>
          Nat.eqb (length cols) 0 || Nat.eqb (length rows) 0
      end
  end.

(** *** The tables of the two all-around scripts *)
Section Tables.
Context {PF : PyFloat}.

(** A record as Python holds it: a dict from labels to cells, in
    insertion order. *)
Definition dict := list (str * value).

(** [d[k] = v] *)
Fixpoint dict_set (d : dict) (k : str) (v : value) : dict :=
  match d with
  | [] => [(k, v)]
  | (k', v') :: t =>
      if str_eqb k' k then (k', v) :: t else (k', v') :: dict_set t k v
  end.

(** [d.get(k)] *)
Definition dict_get (d : dict) (k : str) : option value :=
  option_map snd (find (fun p => str_eqb (fst p) k) d).

(** The labels of a list of dicts in the order in which they are first
    met: the columns of [pd.DataFrame(rows)]. *)
Definition keys_union (rows : list dict) : list str :=
  fold_left (fun m r => fold_left Events.add_col (map fst r) m) rows [].

(** [pd.DataFrame(rows)] and [pd.DataFrame.from_records(rows)] of a list
    of dicts: a cell is NaN where the dict has no such label. *)
Definition from_dicts (rows : list dict) : frame :=
  map (fun k =>
         (k, map (fun r => match dict_get r k with
                           | Some v => v
                           | None => VNum fnan
                           end) rows))
      (keys_union rows).

(** [df[cols]] where every label of [cols] is a column of [df]. *)
Definition select_columns (cols : list str) (d : frame) : frame :=
  map (fun c => (c, match column d c with
                    | Some col => col
                    | None => []
                    end)) cols.

(** pandas [isna] on one cell. *)
Definition isna (v : value) : bool :=
  match v with
  | VNum x => isnan x
  | VNone => true
  | _ => false
  end.

(** The cell of column [c] in row [i]. *)
Definition cell_at (d : frame) (c : str) (i : nat) : value :=
  nth i (match column d c with
         | Some col => col
         | None => []
         end) VNone.

(** [f"{app}_{f}"] *)
Definition field_label (app f : string) : str :=
  of_string app ++ of_string "_" ++ of_string f.

(** [cols] of both scripts. *)
Definition COLS : list str :=
  [of_string "Rank"; of_string "Bib"; of_string "Name"; of_string "NOC"]
  ++ flat_map (fun a => map (field_label a)
                            ["Score"; "D"; "E"; "Pen"; "Rk"]%string)
              APPARATUS
  ++ [of_string "Total"].

Definition rk_cell (rk : option Z) : value :=
  match rk with
  | Some z => VInt z
  | None => VNone
  end.
End Tables.

Module IndividualTable.
Section Defs.
Context {PF : PyFloat}.
Variable parse_numeric : str -> option float.

(** The dict [rec] of one record, built in the order of the
    assignments. *)
Definition to_dict (rec : Individual.record) : dict :=
  let d := [(of_string "Rank", VInt (Individual.Rank rec));
            (of_string "Bib", VInt (Individual.Bib rec));
            (of_string "Name", VStr (Individual.Name rec));
            (of_string "NOC", VStr (Individual.NOC rec))] in
  let d :=
    fold_left
      (fun d ae =>
         let '(app, e) := ae in
         let d := dict_set d (field_label app "Score") (VNum (Score e)) in
         let d := dict_set d (field_label app "D") (VNum (D e)) in
         let d := dict_set d (field_label app "E") (VNum (E e)) in
         let d := dict_set d (field_label app "Pen") (VNum (Pen e)) in
         dict_set d (field_label app "Rk") (rk_cell (Rk e)))
      (Individual.apps rec) d in
  dict_set d (of_string "Total")
           (match Individual.Total rec with
            | Some x => VNum x
            | None => VNone
            end).

(** The end of [parse_pdf]: the table made of the records. *)
Definition frame_of (records : list Individual.record) : frame :=
  let df := from_dicts (map to_dict records) in
  let df :=
    if forallb (fun c => str_mem c (columns df)) COLS
    then select_columns COLS df
    else df in
  numeric_cleanup parse_numeric df.

(** [parse_pdf] on the rows of the concatenated tables. *)
Definition parse_pdf (raw : list (list cell)) : frame :=
  frame_of (Individual.parse_lines (build_lines raw)).
End Defs.
End IndividualTable.

Module TeamTable.
Section Defs.
Context {PF : PyFloat}.
Variable parse_numeric : str -> option float.

(** The dict [rec] of one record, built in the order of the
    assignments. *)
Definition to_dict (rec : Team.record) : dict :=
  let d := [(of_string "Rank", rk_cell (Team.Rank rec));
            (of_string "Bib", VInt (Team.Bib rec));
            (of_string "Name", VStr (Team.Name rec));
            (of_string "NOC", VStr (Team.NOC rec))] in
  let d :=
    fold_left
      (fun d ae =>
         let '(app, e) := ae in
         let d := dict_set d (field_label app "D") (VNum (D e)) in
         let d := dict_set d (field_label app "E") (VNum (E e)) in
         let d := dict_set d (field_label app "Pen") (VNum (Pen e)) in
         let d := dict_set d (field_label app "Score") (VNum (Score e)) in
         dict_set d (field_label app "Rk") (rk_cell (Rk e)))
      (Team.apps rec) d in
  dict_set d (of_string "Total") (VNum (Team.Total rec)).

(** [if c not in df.columns: df[c] = ...] for a table of [n] rows. *)
Definition add_missing (n : nat) (d : frame) (c : str) : frame :=
  if str_mem c (columns d) then d
  else d ++ [(c, repeat (if str_mem c [of_string "Name"; of_string "NOC"]
                         then VNone else VNum fnan) n)].

(** The table made of the rows. *)
Definition frame_of (rows : list Team.record) : frame :=
  let df := from_dicts (map to_dict rows) in
  if 0 <? length rows then
    let df := fold_left (add_missing (length rows)) COLS df in
    numeric_cleanup parse_numeric (select_columns COLS df)
  else df.

(** The rows of [partials]: Bib, Name and NOC of the rows with a missing
    score. *)
Definition partials (rows : list Team.record)
    : list (value * value * value) :=
  let df := frame_of rows in
  if 0 <? length rows then
    map (fun i => (cell_at df (of_string "Bib") i,
                   cell_at df (of_string "Name") i,
                   cell_at df (of_string "NOC") i))
        (filter (fun i =>
                   existsb (fun a => isna (cell_at df (field_label a "Score") i))
                           APPARATUS)
                (seq 0 (length rows)))
  else [].

(** [parse_pdf_team] on the rows of the concatenated tables: the table
    and the athletes reported as partial. *)
Definition parse_pdf_team (raw : list (list cell))
    : option (frame * list (value * value * value)) :=
  option_map (fun rows => (frame_of rows, partials rows))
             (Team.parse_lines (build_lines raw)).
End Defs.
End TeamTable.

(** ** Notions for the tables *)

(** The labels of a record of the team script in the order in which they
    are set. *)
Definition team_keys : list str :=
  [of_string "Rank"; of_string "Bib"; of_string "Name"; of_string "NOC"]
  ++ flat_map (fun a => map (field_label a)
                            ["D"; "E"; "Pen"; "Score"; "Rk"]%string)
              APPARATUS
  ++ [of_string "Total"].

(** Some score of the record is missing. *)
Definition missing_score {PF : PyFloat} (rec : Team.record) : bool :=
  existsb (fun a => isnan (Score (snd a))) (Team.apps rec).

(** What the report shows of a record. *)
Definition identity_cells {PF : PyFloat} (rec : Team.record)
    : value * value * value :=
  (VInt (Team.Bib rec), VStr (Team.Name rec), VStr (Team.NOC rec)).

Section TableNotions.
Context {PF : PyFloat}.
Variable parse_numeric : str -> option float.

(** The cell a dict gives to the column [k]. *)
Definition cell_of (r : dict) (k : str) : value :=
  match dict_get r k with
  | Some v => v
  | None => VNum fnan
  end.

(** What the numeric cleanup makes of a cell of the column [c]. *)
Definition cleaned (c : str) (v : value) : value :=
  if str_mem c [of_string "Name"; of_string "NOC"] then v
  else coerce_cell parse_numeric v.

(** The table of the dicts [rows] under the labels [COLS], after the
    numeric cleanup. *)
Definition table_of (rows : list dict) : frame :=
  map (fun c => (c, map (fun r => cleaned c (cell_of r c)) rows)) COLS.
End TableNotions.

(** * Properties *)

(** ** The line normalizer *)

Lemma str_eqb_eq (a b : str) : str_eqb a b = true <-> a = b.
Proof.
  unfold str_eqb. destruct (list_eq_dec ascii_dec a b); split; congruence.
Qed.

Lemma split_cons (c : ascii) (t : str) :
  split (c :: t)
  = if is_space c then split t
    else match t with
         | [] => [[c]]
         | d :: _ =>
             if is_space d then [c] :: split t
             else match split t with
                  | w :: ws => (c :: w) :: ws
                  | [] => [[c]]
                  end
         end.
Proof. reflexivity. Qed.

Lemma split_lstrip (s : str) : split (lstrip s) = split s.
Proof.
  induction s as [|c t IH]; [reflexivity|].
  simpl. destruct (is_space c) eqn:Hc; [exact IH|].
  simpl. rewrite Hc. reflexivity.
Qed.

Lemma rstrip_nil (s : str) : rstrip s = [] <-> forallb is_space s = true.
Proof.
  induction s as [|c t IH]; simpl; [tauto|].
  destruct (rstrip t) eqn:Hr.
  - destruct (is_space c); simpl.
    + tauto.
    + split; discriminate.
  - split; [discriminate|].
    intros H. apply andb_true_iff in H. destruct H as [_ H].
    apply IH in H. discriminate.
Qed.

Lemma split_nil (s : str) : split s = [] <-> forallb is_space s = true.
Proof.
  induction s as [|c t IH]; simpl; [tauto|].
  destruct (is_space c) eqn:Hc; simpl; [exact IH|].
  split; [|discriminate].
  destruct t as [|d t']; [discriminate|].
  destruct (is_space d); [discriminate|].
  destruct (split (d :: t')); discriminate.
Qed.

Lemma rstrip_head (s : str) (c : ascii) (r : str) :
  rstrip s = c :: r -> exists t, s = c :: t.
Proof.
  destruct s as [|d t]; simpl; [discriminate|].
  destruct (rstrip t).
  - destruct (is_space d); [discriminate|].
    intros H. injection H as -> _. eauto.
  - intros H. injection H as -> _. eauto.
Qed.

Lemma split_rstrip (s : str) : split (rstrip s) = split s.
Proof.
  induction s as [|c t IH]; [reflexivity|].
  cbn [rstrip]. destruct (rstrip t) as [|d r] eqn:Hr.
  - assert (Ht : split t = []) by (apply split_nil, rstrip_nil, Hr).
    destruct (is_space c) eqn:Hc.
    + simpl. rewrite Hc. symmetry. exact Ht.
    + simpl. rewrite Hc. destruct t as [|e t']; [reflexivity|].
      apply rstrip_nil in Hr. simpl in Hr. apply andb_true_iff in Hr.
      destruct Hr as [He _]. rewrite He. rewrite Ht. reflexivity.
  - destruct (rstrip_head t d r Hr) as [t' ->].
    rewrite (split_cons c (d :: r)), (split_cons c (d :: t')), IH.
    reflexivity.
Qed.

Lemma split_strip (s : str) : split (strip s) = split s.
Proof. unfold strip. rewrite split_rstrip. apply split_lstrip. Qed.

Lemma rstrip_cons (c : ascii) (t : str) :
  rstrip (c :: t)
  = match rstrip t with
    | [] => if is_space c then [] else [c]
    | r => c :: r
    end.
Proof. reflexivity. Qed.

Lemma rstrip_idem (s : str) : rstrip (rstrip s) = rstrip s.
Proof.
  induction s as [|c t IH]; [reflexivity|].
  rewrite rstrip_cons. destruct (rstrip t) as [|d r] eqn:Hr.
  - destruct (is_space c) eqn:Hc; [reflexivity|].
    simpl. rewrite Hc. reflexivity.
  - rewrite rstrip_cons, IH. reflexivity.
Qed.

Lemma lstrip_starts (s : str) : starts_space (lstrip s) = false.
Proof.
  induction s as [|c t IH]; [reflexivity|].
  simpl. destruct (is_space c) eqn:Hc; [exact IH|].
  simpl. exact Hc.
Qed.

Lemma rstrip_starts (s : str) :
  starts_space s = false -> starts_space (rstrip s) = false.
Proof.
  destruct s as [|c t]; [reflexivity|].
  simpl. intros Hc. destruct (rstrip t); rewrite ?Hc; simpl; auto.
Qed.

Lemma join_cons_char (c : ascii) (w : str) (ws : list str) (sep : str) :
  join sep ((c :: w) :: ws) = c :: join sep (w :: ws).
Proof. destruct ws; reflexivity. Qed.

(** On a text without trailing whitespace, [re.sub] leaves the words
    joined by single spaces, after one space if the text starts with
    whitespace that is not part of a run already begun. *)
Lemma sub_ws_words (u : str) :
  rstrip u = u ->
  sub_ws true u = join [space] (split u)
  /\ sub_ws false u
     = if starts_space u then space :: join [space] (split u)
       else join [space] (split u).
Proof.
  induction u as [|c t IH]; [intros _; split; reflexivity|].
  intros Hu.
  assert (Ht : rstrip t = t).
  { cbn [rstrip] in Hu. destruct (rstrip t) as [|d r] eqn:Hr.
    - destruct (is_space c); [discriminate|].
      injection Hu as <-. reflexivity.
    - injection Hu as <-. reflexivity. }
  assert (Hne : t <> [] -> split t <> []).
  { intros Hn Hs. apply split_nil, rstrip_nil in Hs. congruence. }
  destruct (IH Ht) as [IH1 IH2].
  rewrite split_cons. cbn [sub_ws starts_space].
  destruct (is_space c) eqn:Hc.
  - rewrite IH1. split; reflexivity.
  - rewrite IH2.
    assert (E : c :: (if starts_space t then space :: join [space] (split t)
                      else join [space] (split t))
                = join [space]
                    match t with
                    | [] => [[c]]
                    | d :: _ =>
                        if is_space d then [c] :: split t
                        else match split t with
                             | w :: ws => (c :: w) :: ws
                             | [] => [[c]]
                             end
                    end).
    { destruct t as [|d t']; [reflexivity|].
      cbn [starts_space]. destruct (is_space d) eqn:Hd.
      - specialize (Hne ltac:(discriminate)).
        destruct (split (d :: t')) as [|w ws] eqn:Hs; [congruence|].
        reflexivity.
      - specialize (Hne ltac:(discriminate)).
        destruct (split (d :: t')) as [|w ws] eqn:Hs; [congruence|].
        rewrite join_cons_char. reflexivity. }
    split; exact E.
Qed.

Lemma norm_words (s : str) : norm s = join [space] (split s).
Proof.
  unfold norm.
  destruct (sub_ws_words (strip s)) as [_ H].
  { unfold strip. apply rstrip_idem. }
  rewrite H.
  assert (Hs : starts_space (strip s) = false).
  { unfold strip. apply rstrip_starts, lstrip_starts. }
  rewrite Hs, split_strip. reflexivity.
Qed.

Lemma split_app_space (a b : str) (c : ascii) :
  is_space c = true -> split (a ++ c :: b) = split a ++ split b.
Proof.
  intros Hc. induction a as [|x a IH].
  - simpl. rewrite Hc. reflexivity.
  - cbn [app]. rewrite !(split_cons x). destruct (is_space x) eqn:Hx; [exact IH|].
    destruct a as [|d a'].
    + cbn [app]. rewrite Hc. cbn [app] in IH. rewrite IH. reflexivity.
    + cbn [app] in *. destruct (is_space d) eqn:Hd.
      * rewrite IH. reflexivity.
      * rewrite IH.
        destruct (split (d :: a')) as [|w ws] eqn:Hs; [|reflexivity].
        apply split_nil in Hs. simpl in Hs. rewrite Hd in Hs. discriminate.
Qed.

Lemma split_join (parts : list str) :
  split (join [space] parts) = flat_map split parts.
Proof.
  induction parts as [|p rest IH]; [reflexivity|].
  destruct rest as [|q rest'].
  - simpl. rewrite app_nil_r. reflexivity.
  - change (join [space] (p :: q :: rest'))
      with (p ++ space :: join [space] (q :: rest')).
    rewrite split_app_space by reflexivity.
    rewrite IH. reflexivity.
Qed.

(** C5. The line normalizer drops the cells whose trimmed text is empty,
    [None] or [nan], and its line is the words of the surviving cells, in
    order, separated by single spaces (so whitespace runs are collapsed
    and the ends trimmed); the raw cells ["", "12", "  SMITH   Jane ",
    "USA", "None"] give "12 SMITH Jane USA". *)
Theorem collapse_row_spec :
  (forall x : cell,
     keep_cell x = false
     <-> (strip (py_str x) = of_string ""
          \/ strip (py_str x) = of_string "None"
          \/ strip (py_str x) = of_string "nan"))
  /\ (forall row : list cell,
        collapse_row row
        = join (of_string " ")
            (flat_map split (map py_str (filter keep_cell row))))
  /\ collapse_row
       [Text (of_string ""); Text (of_string "12");
        Text (of_string "  SMITH   Jane "); Text (of_string "USA");
        Text (of_string "None")]
     = of_string "12 SMITH Jane USA".
Proof.
  split; [|split].
  - intros x. unfold keep_cell, is_placeholder.
    rewrite negb_false_iff, !orb_true_iff, !str_eqb_eq. tauto.
  - intros row. unfold collapse_row.
    rewrite norm_words. f_equal. apply split_join.
  - vm_compute. reflexivity.
Qed.

(** ** The token parsers *)

Section TokenParsers.
Context {PF : PyFloat}.

Lemma take_pen_cases (toks : list str) :
  (exists p rest, toks = p :: rest /\ is_pen p = true
                  /\ take_pen toks = (float_of_str p, rest))
  \/ (next_is_pen toks = false /\ take_pen toks = (fzero, toks)).
Proof.
  destruct toks as [|p rest]; [right; split; reflexivity|].
  unfold take_pen, next_is_pen, is_pen.
  destruct (startswith_minus p && is_float p) eqn:Hp.
  - left. exists p, rest. auto.
  - right. auto.
Qed.

Lemma parse_e_pen_reads (n : nat) :
  forall toks : list str,
    exists rem,
      reads toks (Team.parse_e_pen toks n) rem
      /\ length (Team.parse_e_pen toks n) <= n
      /\ (length (Team.parse_e_pen toks n) < n -> stuck rem = true).
Proof.
  induction n as [|n IH]; intros toks.
  - exists toks. simpl. split; [constructor|]. split; lia.
  - destruct toks as [|t rest].
    + exists []. simpl. split; [constructor|]. split; [lia|reflexivity].
    + cbn [Team.parse_e_pen]. destruct (is_float t) eqn:Ht.
      * destruct (take_pen_cases rest) as [(p & rest' & -> & Hp & E)|[Hp E]];
          rewrite E.
        -- destruct (IH rest') as (rem & Hr & Hl & Hs).
           exists rem. cbn [length]. split; [|split; [lia|intros; apply Hs; lia]].
           now apply reads_pen.
        -- destruct (IH rest) as (rem & Hr & Hl & Hs).
           exists rem. cbn [length]. split; [|split; [lia|intros; apply Hs; lia]].
           now apply reads_bare.
      * exists (t :: rest). simpl. rewrite Ht.
        split; [constructor|]. split; [lia|reflexivity].
Qed.

Lemma e_pen_loop_parse_e_pen (n : nat) :
  forall toks : list str,
    Individual.e_pen_loop n toks
    = if length (Team.parse_e_pen toks n) =? n
      then Some (Team.parse_e_pen toks n) else None.
Proof.
  induction n as [|n IH]; intros toks; [reflexivity|].
  destruct toks as [|t rest]; [reflexivity|].
  cbn [Individual.e_pen_loop Team.parse_e_pen].
  destruct (is_float t); [|reflexivity].
  destruct (take_pen rest) as [pen rest'].
  rewrite IH. cbn [length Nat.eqb].
  destruct (length (Team.parse_e_pen rest' n) =? n); reflexivity.
Qed.

(** C3 (as amended). Both Execution/Penalty matchers read groups of a
    float and an optional negative float from the tokens, left to right,
    at most 4 of them, a float alone having penalty zero.  The team
    matcher [parse_e_pen] returns the groups it could read, fewer than
    the limit only where no group starts at the next token; the
    individual matcher [parse_e_pen_line] returns the same 4 groups when
    there are 4, and no match at all when there are fewer. *)
Theorem e_pen_matchers :
  (forall (toks : list str) (max_groups : nat),
      exists rem,
        reads toks (Team.parse_e_pen toks max_groups) rem
        /\ length (Team.parse_e_pen toks max_groups) <= max_groups
        /\ (length (Team.parse_e_pen toks max_groups) < max_groups ->
            stuck rem = true))
  /\ (forall line : str,
        Individual.parse_e_pen_line line
        = let gs := Team.parse_e_pen (split (norm line)) 4 in
          if length gs =? 4 then Some gs else None).
Proof.
  split.
  - intros toks n. apply parse_e_pen_reads.
  - intros line. unfold Individual.parse_e_pen_line.
    apply e_pen_loop_parse_e_pen.
Qed.

(** *** [parse_ds_pairs] *)

Lemma pairs_loop_closed (vals : list float) (m : nat) :
  forall (a : nat) (acc : list (float * float)),
    length acc = a -> a < 4 ->
    Team.pairs_loop vals (map (fun j => 2 * j) (seq a m)) acc
    = acc ++ map (pair_at vals) (seq a (Nat.min m (4 - a))).
Proof.
  induction m as [|m IH]; intros a acc Ha La.
  - simpl. now rewrite app_nil_r.
  - cbn [seq map Team.pairs_loop].
    rewrite length_app, Ha. cbn [length].
    destruct (a + 1 =? 4) eqn:E.
    + apply Nat.eqb_eq in E. replace (4 - a) with 1 by lia.
      replace (Nat.min (S m) 1) with 1 by lia. reflexivity.
    + apply Nat.eqb_neq in E.
      rewrite IH by (rewrite ?length_app, ?Ha; cbn [length]; lia).
      replace (Nat.min (S m) (4 - a)) with (S (Nat.min m (4 - S a))) by lia.
      cbn [seq map]. rewrite <- app_assoc. reflexivity.
Qed.

Lemma parse_ds_pairs_closed (tokens : list str) :
  Team.parse_ds_pairs tokens
  = map (pair_at (map float_of_str tokens))
        (seq 0 (Nat.min (length tokens / 2) 4)).
Proof.
  unfold Team.parse_ds_pairs, Team.range2.
  rewrite length_map.
  replace (Z.to_nat ((Z.of_nat (length tokens) - 1 + 1) / 2))
    with (length tokens / 2).
  - rewrite pairs_loop_closed by (simpl; lia).
    simpl. reflexivity.
  - replace (Z.of_nat (length tokens) - 1 + 1)%Z
      with (Z.of_nat (length tokens)) by lia.
    change 2%Z with (Z.of_nat 2). rewrite <- Nat2Z.inj_div.
    now rewrite Nat2Z.id.
Qed.

Lemma parse_ds_pairs_length (tokens : list str) :
  length (Team.parse_ds_pairs tokens) = Nat.min (length tokens / 2) 4.
Proof.
  rewrite parse_ds_pairs_closed. now rewrite length_map, length_seq.
Qed.

Lemma parse_ds_pairs_nth (tokens : list str) (j : nat) :
  j < length (Team.parse_ds_pairs tokens) ->
  exists d s,
    nth_error tokens (2 * j) = Some d
    /\ nth_error tokens (2 * j + 1) = Some s
    /\ nth_error (Team.parse_ds_pairs tokens) j
       = Some (float_of_str d, float_of_str s).
Proof.
  intros Hj. rewrite parse_ds_pairs_length in Hj.
  assert (H2 : 2 * j + 1 < length tokens).
  { assert (j < length tokens / 2) by lia.
    pose proof (Nat.div_mod_eq (length tokens) 2).
    pose proof (Nat.mod_upper_bound (length tokens) 2). lia. }
  destruct (nth_error tokens (2 * j)) as [d|] eqn:Hd;
    [|apply nth_error_None in Hd; lia].
  destruct (nth_error tokens (2 * j + 1)) as [s|] eqn:Hs;
    [|apply nth_error_None in Hs; lia].
  exists d, s. split; [reflexivity|]. split; [reflexivity|].
  rewrite parse_ds_pairs_closed.
  rewrite nth_error_map, nth_error_seq.
  destruct (Nat.ltb_spec j (Nat.min (length tokens / 2) 4)); [|lia].
  cbn [option_map Nat.add]. unfold pair_at.
  f_equal. f_equal.
  + apply nth_error_nth. now rewrite nth_error_map, Hd.
  + apply nth_error_nth. now rewrite nth_error_map, Hs.
Qed.

(** C10. On a list of float tokens [parse_ds_pairs] pairs the tokens
    consecutively, (D1,S1),(D2,S2),..., gives min(len/2, 4) pairs, each
    made of two tokens of the list, and drops a trailing unpaired token:
    2n+1 tokens with n < 4 give exactly n pairs. *)
Theorem parse_ds_pairs_spec (tokens : list str) :
  Forall (fun t => is_float t = true) tokens ->
  let pairs := Team.parse_ds_pairs tokens in
  length pairs = Nat.min (length tokens / 2) 4
  /\ (forall j, j < length pairs ->
        exists d s,
          nth_error tokens (2 * j) = Some d
          /\ nth_error tokens (2 * j + 1) = Some s
          /\ nth_error pairs j = Some (float_of_str d, float_of_str s))
  /\ (forall n, length tokens = 2 * n + 1 -> n < 4 -> length pairs = n).
Proof.
  intros _ pairs. unfold pairs.
  split; [apply parse_ds_pairs_length|]. split.
  - intros j Hj. now apply parse_ds_pairs_nth.
  - intros n Hn Hn4. rewrite parse_ds_pairs_length, Hn.
    replace ((2 * n + 1) / 2) with n; [lia|].
    apply (Nat.div_unique _ 2 n 1); lia.
Qed.
End TokenParsers.

(** C3, as first stated, fails on the individual matcher: three tokens
    hold two groups, which [parse_e_pen] returns and for which
    [parse_e_pen_line] returns [None]. *)
Lemma e_pen_line_partial_is_none :
  Individual.parse_e_pen_line (PF := Decimal.decimal)
    (of_string "8.5 -0.1 8.2") = None
  /\ Team.parse_e_pen (PF := Decimal.decimal)
       (split (norm (of_string "8.5 -0.1 8.2"))) 4
     = [(float_of_str (of_string "8.5"), float_of_str (of_string "-0.1"));
        (float_of_str (of_string "8.2"), fzero)].
Proof. split; vm_compute; reflexivity. Qed.

Lemma parse_ds_pairs_spec_witness :
  let tokens := [of_string "5.300"; of_string "13.233"; of_string "5.600"] in
  let pairs := Team.parse_ds_pairs (PF := Decimal.decimal) tokens in
  length pairs = Nat.min (length tokens / 2) 4
  /\ (forall j, j < length pairs ->
        exists d s,
          nth_error tokens (2 * j) = Some d
          /\ nth_error tokens (2 * j + 1) = Some s
          /\ nth_error pairs j = Some (float_of_str d, float_of_str s))
  /\ (forall n, length tokens = 2 * n + 1 -> n < 4 -> length pairs = n).
Proof.
  apply (parse_ds_pairs_spec (PF := Decimal.decimal)).
  repeat constructor.
Defined.

(** ** The team pipeline *)

Section TeamScan.
Context {PF : PyFloat}.

Lemma floats_from_float (s t : str) :
  In t (Team.floats_from s) -> is_float t = true.
Proof. unfold Team.floats_from. intros H. now apply filter_In in H. Qed.

Lemma scan_spec (rest : list str) :
  forall (j : nat) (e : list str) (j' : nat) (e' : list str),
    Team.scan rest j e = (j', e') ->
    j <= j' <= j + length rest
    /\ (forall m, m < j' - j -> is_header (nth m rest []) = false)
    /\ (j' - j < length rest -> is_header (nth (j' - j) rest []) = true)
    /\ e' = e ++ flat_map Team.floats_from (firstn (j' - j) rest).
Proof.
  induction rest as [|nxt rest IH]; intros j e j' e' H.
  - simpl in H. injection H as <- <-.
    rewrite Nat.sub_diag. simpl. rewrite app_nil_r.
    repeat split; intros; try lia.
  - cbn [Team.scan] in H.
    destruct (matches ATH_HDR nxt || matches TEAM_HDR nxt) eqn:Hh.
    + injection H as <- <-. rewrite Nat.sub_diag. cbn [firstn flat_map].
      rewrite app_nil_r. cbn [length nth].
      repeat split; intros; try lia. exact Hh.
    + apply IH in H. destruct H as (Hj & Hno & Hstop & He).
      replace (j' - j) with (S (j' - S j)) by lia.
      cbn [length nth firstn flat_map].
      split; [lia|]. split; [|split].
      * intros [|m] Hm; [exact Hh|]. apply Hno. lia.
      * intros Hl. apply Hstop. lia.
      * rewrite He. destruct (Team.floats_from nxt);
          [reflexivity|now rewrite <- app_assoc].
Qed.

(** The three ways an iteration of the main loop can go. *)
Lemma step_cases (lines : list str) (st : Team.state) :
  let i := Team.pos st in
  let ln := nth i lines [] in
  (exists mt,
      re_match TEAM_HDR ln = Some mt
      /\ Team.step lines st
         = {| Team.pos := i + 1;
              Team.ctx_rank := Some (int_of (group "trank" mt));
              Team.ctx_noc := Some (group "noc" mt);
              Team.rows := Team.rows st |})
  \/ (re_match TEAM_HDR ln = None
      /\ exists ma noc j e,
          re_match ATH_HDR ln = Some ma
          /\ Team.has_context st = true
          /\ Team.ctx_noc st = Some noc
          /\ Team.scan (skipn (i + 1) lines) (i + 1) [] = (j, e)
          /\ Team.step lines st
             = {| Team.pos := j;
                  Team.ctx_rank := Team.ctx_rank st;
                  Team.ctx_noc := Team.ctx_noc st;
                  Team.rows :=
                    Team.rows st
                    ++ [(i, Team.build_record (Team.ctx_rank st) noc
                              (int_of (group "bib" ma))
                              (strip (group "name" ma))
                              (Team.floats_from (group "trail" ma)) e)] |})
  \/ (re_match TEAM_HDR ln = None
      /\ (matches ATH_HDR ln && Team.has_context st) = false
      /\ Team.step lines st = Team.advance st).
Proof.
  intros i ln. unfold Team.step. fold i. fold ln. unfold matches.
  destruct (re_match TEAM_HDR ln) as [mt|] eqn:Ht.
  - left. exists mt. auto.
  - right. destruct (re_match ATH_HDR ln) as [ma|] eqn:Ha.
    + destruct (Team.has_context st) eqn:Hc.
      * left. split; [reflexivity|].
        destruct (Team.scan (skipn (i + 1) lines) (i + 1) []) as [j e] eqn:Hs.
        unfold Team.has_context in Hc.
        destruct (Team.ctx_noc st) as [noc|] eqn:Hn; [|discriminate].
        exists ma, noc, j, e. auto.
      * right. auto.
    + right. auto.
Qed.

Lemma scan_bounds (lines : list str) (i j : nat) (e : list str) :
  i < length lines ->
  Team.scan (skipn (i + 1) lines) (i + 1) [] = (j, e) ->
  i < j <= length lines
  /\ (forall m, i < m < j -> is_header (nth m lines []) = false)
  /\ (j < length lines -> is_header (nth j lines []) = true)
  /\ e = flat_map Team.floats_from (firstn (j - (i + 1)) (skipn (i + 1) lines)).
Proof.
  intros Hi H. apply scan_spec in H.
  destruct H as (Hj & Hno & Hstop & He).
  rewrite length_skipn in Hj, Hstop.
  split; [lia|]. split; [|split].
  - intros m Hm. specialize (Hno (m - (i + 1)) ltac:(lia)).
    rewrite nth_skipn in Hno.
    now replace (i + 1 + (m - (i + 1))) with m in Hno by lia.
  - intros Hl. specialize (Hstop ltac:(lia)).
    rewrite nth_skipn in Hstop.
    now replace (i + 1 + (j - (i + 1))) with j in Hstop by lia.
  - exact He.
Qed.

Lemma step_progress (lines : list str) (st : Team.state) :
  Team.pos st < length lines ->
  Team.pos st < Team.pos (Team.step lines st) <= length lines.
Proof.
  intros Hi.
  destruct (step_cases lines st)
    as [(mt & _ & ->)|[(_ & ma & noc & j & e & _ & _ & _ & Hs & ->)
                      |(_ & _ & ->)]];
    cbn [Team.pos Team.advance]; try lia.
  apply scan_bounds in Hs; [lia|exact Hi].
Qed.

End TeamScan.

Section TeamClaims.
Context {PF : PyFloat}.


Lemma step_rows_before (lines : list str) (st : Team.state) :
  Team.pos st < length lines ->
  rows_before st -> rows_before (Team.step lines st).
Proof.
  intros Hi [Hnd Hlt]. pose proof (step_progress lines st Hi) as Hp.
  unfold rows_before.
  destruct (step_cases lines st)
    as [(mt & _ & E)|[(_ & ma & noc & j & e & _ & _ & _ & _ & E)
                     |(_ & _ & E)]];
    rewrite E in Hp |- *; cbn [Team.pos Team.rows Team.advance] in *.
  - split; [exact Hnd|]. intros i Hin. apply Hlt in Hin. lia.
  - rewrite map_app. cbn [map fst]. split.
    + apply NoDup_app; [exact Hnd|repeat constructor; intros []|].
      intros a Ha [<-|[]]. apply Hlt in Ha. lia.
    + intros i Hin. apply in_app_or in Hin. destruct Hin as [Hin|[<-|[]]].
      * apply Hlt in Hin. lia.
      * lia.
  - split; [exact Hnd|]. intros i Hin. apply Hlt in Hin. lia.
Qed.

Lemma loop_total (lines : list str) (fuel : nat) :
  forall st : Team.state,
    Team.pos st <= length lines ->
    length lines - Team.pos st <= fuel ->
    rows_before st ->
    exists st',
      Team.loop fuel lines st = Some st'
      /\ Team.pos st' = length lines
      /\ rows_before st'.
Proof.
  induction fuel as [|fuel IH]; intros st Hle Hf Hrb.
  - exists st. simpl.
    destruct (Nat.leb_spec (length lines) (Team.pos st)); [|lia].
    split; [reflexivity|]. split; [lia|exact Hrb].
  - cbn [Team.loop].
    destruct (Nat.leb_spec (length lines) (Team.pos st)).
    + exists st. split; [reflexivity|]. split; [lia|exact Hrb].
    + pose proof (step_progress lines st H) as Hp.
      apply IH; [lia|lia|]. now apply step_rows_before.
Qed.

(** C9. Every iteration of the main loop of the team script moves the
    line index forward by at least one and never past the end, so on
    every finite list of lines the scan ends (with the index at the end
    of the list), and the rows it leaves were started from distinct
    lines. *)
Theorem team_scan_terminates (lines : list str) :
  (forall st : Team.state,
      Team.pos st < length lines ->
      Team.pos st < Team.pos (Team.step lines st) <= length lines)
  /\ exists st',
      Team.loop (length lines) lines Team.init = Some st'
      /\ Team.pos st' = length lines
      /\ Team.parse_lines lines = Some (map snd (Team.rows st'))
      /\ NoDup (map fst (Team.rows st'))
      /\ (forall i, In i (map fst (Team.rows st')) -> i < length lines).
Proof.
  split; [intros st; apply step_progress|].
  destruct (loop_total lines (length lines) Team.init)
    as (st' & Hl & Hp & Hnd & Hlt).
  - simpl. lia.
  - simpl. lia.
  - split; [constructor|intros i []].
  - exists st'. split; [exact Hl|]. split; [exact Hp|].
    split; [unfold Team.parse_lines; now rewrite Hl|].
    split; [exact Hnd|]. intros i Hin. apply Hlt in Hin. lia.
Qed.
End TeamClaims.

Section TeamRecords.
Context {PF : PyFloat}.

Lemma parse_ds_pairs_numbers (tokens : list str) :
  Forall (fun t => is_float t = true) tokens ->
  Forall both_numbers (Team.parse_ds_pairs tokens).
Proof.
  intros Hf. apply Forall_forall. intros p Hin.
  apply In_nth_error in Hin. destruct Hin as [j Hj].
  assert (Hlt : j < length (Team.parse_ds_pairs tokens)).
  { apply nth_error_Some. congruence. }
  destruct (parse_ds_pairs_nth tokens j Hlt) as (d & s & Hd & Hs & E).
  rewrite E in Hj. injection Hj as <-.
  rewrite Forall_forall in Hf.
  split; cbn [fst snd]; apply isnan_float_of_str, Hf;
    eapply nth_error_In; eassumption.
Qed.

Lemma parse_e_pen_numbers (n : nat) :
  forall toks : list str, Forall both_numbers (Team.parse_e_pen toks n).
Proof.
  induction n as [|n IH]; intros toks; [constructor|].
  destruct toks as [|t rest]; [constructor|].
  cbn [Team.parse_e_pen]. destruct (is_float t) eqn:Ht; [|constructor].
  destruct (take_pen_cases rest) as [(p & rest' & -> & Hp & E)|[Hp E]];
    rewrite E; constructor; try apply IH; split; cbn [fst snd].
  - now apply isnan_float_of_str.
  - apply isnan_float_of_str. unfold is_pen in Hp.
    now apply andb_true_iff in Hp.
  - now apply isnan_float_of_str.
  - apply isnan_fzero.
Qed.

Ltac split_forall :=
  repeat match goal with
         | H : Forall _ (_ :: _) |- _ =>
             apply Forall_cons_iff in H; destruct H as [[? ?] ?]
         end.

Lemma build_record_groups (ctx_rank : option Z) (ctx_noc : str) (bib : Z)
    (name : str) (ds_tokens e_tokens : list str) :
  Forall (fun t => is_float t = true) ds_tokens ->
  let rec := Team.build_record ctx_rank ctx_noc bib name ds_tokens e_tokens in
  let ds_pairs := Team.parse_ds_pairs ds_tokens in
  let epen := Team.parse_e_pen e_tokens 4 in
  let k := Nat.min (length ds_pairs) (Nat.min (length epen) 4) in
  k <= 4
  /\ resolved_groups rec k
  /\ (forall idx app e,
        nth_error (Team.apps rec) idx = Some (app, e) -> idx < k ->
        nth_error ds_pairs idx = Some (D e, Score e)
        /\ nth_error epen idx = Some (E e, Pen e)).
Proof.
  intros Hf rec ds_pairs epen k.
  pose proof (parse_ds_pairs_numbers ds_tokens Hf) as Fd.
  pose proof (parse_e_pen_numbers 4 e_tokens) as Fe.
  unfold rec, Team.build_record.
  fold ds_pairs in Fd |- *. fold epen in Fe |- *. fold k.
  assert (Hk : k <= 4 /\ k <= length ds_pairs /\ k <= length epen)
    by (unfold k; lia).
  clearbody k ds_pairs epen. destruct Hk as (Hk4 & Hkd & Hke).
  split; [exact Hk4|].
  change (enumerate APPARATUS)
    with [(0, "Vault"%string); (1, "UnevenBars"%string);
          (2, "BalanceBeam"%string); (3, "Floor"%string)].
  unfold resolved_groups, resolved, unknown, both_numbers in *.
  destruct k as [|[|[|[|[|k]]]]]; [| | | | |lia];
    destruct ds_pairs as [|[d0 s0] [|[d1 s1] [|[d2 s2] [|[d3 s3] ds]]]];
    cbn [length] in Hkd; try lia;
    destruct epen as [|[e0 p0] [|[e1 p1] [|[e2 p2] [|[e3 p3] es]]]];
    cbn [length] in Hke; try lia;
    split_forall; cbn [fst snd] in *.
  all: cbn.
  all: split; [split; [reflexivity|split]|].
  all: try reflexivity.
  all: intros idx app e Hn.
  all: try (intros Hlt).
  all: do 4 (destruct idx as [|idx];
             [cbn in Hn; injection Hn as <- <-; cbn;
              repeat match goal with
                     | H : isnan _ = false |- _ => rewrite H; clear H
                     end;
              try lia; repeat split; reflexivity|]).
  all: destruct idx; discriminate.
Qed.

Lemma step_rows_built (lines : list str) (st : Team.state) :
  Forall (fun r => record_built (snd r)) (Team.rows st) ->
  Forall (fun r => record_built (snd r)) (Team.rows (Team.step lines st)).
Proof.
  intros H.
  destruct (step_cases lines st)
    as [(mt & _ & E)|[(_ & ma & noc & j & e & _ & _ & _ & _ & E)
                     |(_ & _ & E)]];
    rewrite E; cbn [Team.rows Team.advance]; try exact H.
  apply Forall_app. split; [exact H|]. constructor; [|constructor].
  cbn [snd]. unfold record_built. do 6 eexists. split; [|reflexivity].
  apply Forall_forall. intros t. apply floats_from_float.
Qed.

Lemma loop_rows_built (lines : list str) (fuel : nat) :
  forall st st' : Team.state,
    Team.loop fuel lines st = Some st' ->
    Forall (fun r => record_built (snd r)) (Team.rows st) ->
    Forall (fun r => record_built (snd r)) (Team.rows st').
Proof.
  induction fuel as [|fuel IH]; intros st st' Hl Hb; cbn [Team.loop] in Hl;
    destruct (length lines <=? Team.pos st).
  - now injection Hl as <-.
  - discriminate.
  - now injection Hl as <-.
  - eapply IH; [exact Hl|]. now apply step_rows_built.
Qed.

Lemma step_rows_from (lines : list str) (st : Team.state) :
  Team.pos st < length lines ->
  Forall (row_from_lines lines) (Team.rows st) ->
  Forall (row_from_lines lines) (Team.rows (Team.step lines st)).
Proof.
  intros Hi H.
  destruct (step_cases lines st)
    as [(mt & _ & E)|[(Ht & ma & noc & j & e & Ha & _ & _ & Hs & E)
                     |(_ & _ & E)]];
    rewrite E; cbn [Team.rows Team.advance]; try exact H.
  apply Forall_app. split; [exact H|]. constructor; [|constructor].
  destruct (scan_bounds lines (Team.pos st) j e Hi Hs)
    as (Hj & Hno & Hstop & He).
  exists ma, j, (Team.ctx_rank st), noc. cbn [fst snd].
  split; [exact Ht|]. split; [exact Ha|].
  split; [unfold scan_stop; auto|].
  unfold e_pool. now rewrite <- He.
Qed.

Lemma loop_rows_from (lines : list str) (fuel : nat) :
  forall st st' : Team.state,
    Team.loop fuel lines st = Some st' ->
    Forall (row_from_lines lines) (Team.rows st) ->
    Forall (row_from_lines lines) (Team.rows st').
Proof.
  induction fuel as [|fuel IH]; intros st st' Hl Hb; cbn [Team.loop] in Hl;
    destruct (Nat.leb_spec (length lines) (Team.pos st)) as [Hle|Hlt].
  - now injection Hl as <-.
  - discriminate.
  - now injection Hl as <-.
  - eapply IH; [exact Hl|]. now apply step_rows_from.
Qed.

(** C2. Every record the team script emits is the row of an athlete
    line [i] of the line list.  Its D/Score pairs are read from the float
    tokens of the trail of that line, and its E/Pen groups from the float
    tokens of the lines between it and the line [j] at which the forward
    scan stops (the next athlete or team header, or the end).  With
    k = min(number of these D/Score pairs, number of these E/Pen groups,
    4), which is at most 4, the first k apparatus entries hold the k-th
    pair and group (all four fields numbers) and the other 4-k entries
    hold the unknown marker in Score, D, E and Pen; no entry has a rank;
    and Total is the sum of the k resolved scores rounded to 3 decimals,
    or the unknown marker when k = 0. *)
Theorem team_record_groups (lines : list str) (recs : list Team.record)
    (rec : Team.record) :
  Team.parse_lines lines = Some recs ->
  In rec recs ->
  exists st' i ma j,
    Team.loop (length lines) lines Team.init = Some st'
    /\ In (i, rec) (Team.rows st')
    /\ re_match TEAM_HDR (nth i lines []) = None
    /\ re_match ATH_HDR (nth i lines []) = Some ma
    /\ Team.Bib rec = int_of (group "bib" ma)
    /\ scan_stop lines i j
    /\ let ds_pairs :=
         Team.parse_ds_pairs (Team.floats_from (group "trail" ma)) in
       let epen := Team.parse_e_pen (e_pool lines i j) 4 in
       let k := Nat.min (length ds_pairs) (Nat.min (length epen) 4) in
       k <= 4
       /\ resolved_groups rec k
       /\ (forall idx app e,
             nth_error (Team.apps rec) idx = Some (app, e) -> idx < k ->
             nth_error ds_pairs idx = Some (D e, Score e)
             /\ nth_error epen idx = Some (E e, Pen e)).
Proof.
  unfold Team.parse_lines. intros Hp Hin.
  destruct (Team.loop (length lines) lines Team.init) as [st'|] eqn:Hl;
    [|discriminate].
  injection Hp as <-.
  pose proof (loop_rows_from lines (length lines) Team.init st' Hl
                (Forall_nil _)) as Hrows.
  apply in_map_iff in Hin. destruct Hin as ([i r] & <- & Hin).
  rewrite Forall_forall in Hrows. pose proof (Hrows _ Hin) as Hrow.
  cbn [snd] in *.
  destruct Hrow as (ma & j & rank & noc & Ht & Ha & Hstop & E).
  cbn [fst snd] in Ht, Ha, Hstop, E.
  exists st', i, ma, j.
  split; [reflexivity|]. split; [exact Hin|]. split; [exact Ht|].
  split; [exact Ha|]. split.
  { rewrite E. unfold Team.build_record.
    now destruct (fold_left _ _ _). }
  split; [exact Hstop|]. rewrite E.
  apply build_record_groups.
  apply Forall_forall. intros t. apply floats_from_float.
Qed.
End TeamRecords.


Lemma team_record_groups_witness :
  let lines := sample_team_lines in
  let recs :=
    match Team.parse_lines (PF := Decimal.decimal) lines with
    | Some l => l
    | None => []
    end in
  Team.parse_lines (PF := Decimal.decimal) lines = Some recs
  /\ map (fun rec => length (filter (fun a => resolved (PF := Decimal.decimal) (snd a))
                                     (Team.apps rec))) recs
     = [2; 0]
  /\ Forall
       (fun rec =>
          exists i ma j,
            re_match ATH_HDR (nth i lines []) = Some ma
            /\ scan_stop lines i j
            /\ resolved_groups rec
                 (Nat.min
                    (length (Team.parse_ds_pairs (PF := Decimal.decimal)
                               (Team.floats_from (group "trail" ma))))
                    (Nat.min
                       (length (Team.parse_e_pen (PF := Decimal.decimal)
                                  (e_pool lines i j) 4))
                       4)))
       recs.
Proof.
  intros lines recs.
  assert (H : Team.parse_lines (PF := Decimal.decimal) lines = Some recs)
    by (vm_compute; reflexivity).
  split; [exact H|]. split; [vm_compute; reflexivity|].
  apply Forall_forall. intros rec Hin.
  destruct (team_record_groups lines recs rec H Hin)
    as (st' & i & ma & j & _ & _ & _ & Ha & _ & Hstop & _ & Hg & _).
  exists i, ma, j. split; [exact Ha|]. split; [exact Hstop|exact Hg].
Defined.

(** ** The individual pipeline *)

Lemma in_combine_seq (A : Type) (l : list A) :
  forall (a i : nat) (x : A),
    In (i, x) (combine (seq a (length l)) l)
    <-> a <= i /\ nth_error l (i - a) = Some x.
Proof.
  induction l as [|y l IH]; intros a i x.
  - simpl. split; [intros []|]. intros [_ H].
    destruct (i - a); discriminate.
  - cbn [length seq combine In]. rewrite IH. split.
    + intros [H|[Hle H]].
      * injection H as <- <-. rewrite Nat.sub_diag. split; [lia|reflexivity].
      * split; [lia|]. replace (i - a) with (S (i - S a)) by lia. exact H.
    + intros [Hle H]. destruct (Nat.eq_dec a i) as [<-|Hne].
      * rewrite Nat.sub_diag in H. injection H as <-. now left.
      * right. split; [lia|].
        replace (i - a) with (S (i - S a)) in H by lia. exact H.
Qed.

Lemma in_enumerate (A : Type) (l : list A) (i : nat) (x : A) :
  In (i, x) (enumerate l) <-> nth_error l i = Some x.
Proof.
  unfold enumerate. rewrite in_combine_seq, Nat.sub_0_r.
  split; [tauto|]. intros H. split; [lia|exact H].
Qed.

(** The records kept from an enumeration carry increasing, hence
    distinct, indices. *)
Lemma kept_indices (A B : Type) (f : nat -> A -> option B) (l : list A) :
  forall a : nat,
    let kept :=
      flat_map (fun il => match f (fst il) (snd il) with
                          | Some b => [(fst il, b)]
                          | None => []
                          end)
               (combine (seq a (length l)) l) in
    NoDup (map fst kept) /\ forall i, In i (map fst kept) -> a <= i.
Proof.
  induction l as [|y l IH]; intros a kept.
  - split; [constructor|intros i []].
  - unfold kept. cbn [length seq combine flat_map fst snd].
    destruct (IH (S a)) as [Hnd Hge].
    destruct (f a y) as [b|].
    + cbn [app map fst]. split.
      * constructor; [|exact Hnd]. intros Hin. apply Hge in Hin. lia.
      * intros i [<-|Hin]; [lia|]. apply Hge in Hin. lia.
    + cbn [app]. split; [exact Hnd|].
      intros i Hin. apply Hge in Hin. lia.
Qed.

Section IndividualClaims.
Context {PF : PyFloat}.

Lemma in_emitted (lines : list str) (i : nat) (rec : Individual.record) :
  In (i, rec) (Individual.emitted lines)
  <-> exists line,
      nth_error lines i = Some line
      /\ Individual.block lines i line = Some rec.
Proof.
  unfold Individual.emitted. rewrite in_flat_map. split.
  - intros ([i' line] & Hin & H). cbn [fst snd] in H.
    apply in_enumerate in Hin.
    destruct (Individual.block lines i' line) as [r|] eqn:Hb; [|destruct H].
    destruct H as [H|[]]. injection H as -> ->. eauto.
  - intros (line & Hn & Hb). exists (i, line).
    split; [now apply in_enumerate|].
    cbn [fst snd]. rewrite Hb. now left.
Qed.

Lemma long_enough (A B : Type) (d : list A) (e : list B) :
  negb (Individual.truthy d) || (length d <? 4)
  || negb (Individual.truthy e) || (length e <? 4) = false
  <-> 4 <= length d /\ 4 <= length e.
Proof.
  rewrite !orb_false_iff, !Nat.ltb_ge, !negb_false_iff. split.
  - tauto.
  - intros [Hd He]. repeat split; try assumption.
    + destruct d; [simpl in Hd; lia|reflexivity].
    + destruct e; [simpl in He; lia|reflexivity].
Qed.

(** What [block] returns, read off its guards. *)
Lemma block_some (lines : list str) (i : nat) (line : str)
    (rec : Individual.record) :
  Individual.block lines i line = Some rec
  <-> exists m epen,
      re_match IDENTITY_RE line = Some m
      /\ 1 <= i /\ i + 1 < length lines
      /\ Individual.parse_e_pen_line (nth (i + 1) lines []) = Some epen
      /\ 4 <= length (fst (Individual.parse_dscore_line (nth (i - 1) lines [])))
      /\ 4 <= length epen
      /\ rec
         = {| Individual.Rank := int_of (group "rank" m);
              Individual.Bib := int_of (group "bib" m);
              Individual.Name := strip (group "name" m);
              Individual.NOC := group "noc" m;
              Individual.apps :=
                map (Individual.app_fields
                       (fst (Individual.parse_dscore_line
                               (nth (i - 1) lines [])))
                       epen)
                    (enumerate APPARATUS);
              Individual.Total :=
                snd (Individual.parse_dscore_line (nth (i - 1) lines [])) |}.
Proof.
  unfold Individual.block.
  destruct (re_match IDENTITY_RE line) as [m|];
    [|split; [discriminate|intros (m & e & H & _); discriminate]].
  destruct ((i <? 1) || (length lines <=? i + 1)) eqn:Hg.
  - split; [discriminate|]. intros (m' & e & _ & H1 & H2 & _).
    apply orb_true_iff in Hg. destruct Hg as [Hg|Hg].
    + apply Nat.ltb_lt in Hg. lia.
    + apply Nat.leb_le in Hg. lia.
  - apply orb_false_iff in Hg. destruct Hg as [Hg1 Hg2].
    apply Nat.ltb_ge in Hg1. apply Nat.leb_gt in Hg2.
    destruct (Individual.parse_dscore_line (nth (i - 1) lines []))
      as [d_trips total].
    cbn [fst snd].
    destruct (Individual.parse_e_pen_line (nth (i + 1) lines [])) as [epen|];
      [|split; [discriminate|intros (m' & e & _ & _ & _ & H & _); discriminate]].
    destruct (negb (Individual.truthy d_trips) || (length d_trips <? 4)
              || negb (Individual.truthy epen) || (length epen <? 4)) eqn:Hc.
    + split; [discriminate|].
      intros (m' & e & _ & _ & _ & He & Hd & Hl & _). injection He as <-.
      assert (Hf : negb (Individual.truthy d_trips) || (length d_trips <? 4)
                   || negb (Individual.truthy epen) || (length epen <? 4)
                   = false) by (apply long_enough; split; assumption).
      congruence.
    + apply long_enough in Hc. destruct Hc as [Hd He]. split.
      * intros H. injection H as <-. exists m, epen.
        repeat split; try assumption; lia.
      * intros (m' & e & Hm & _ & _ & He' & _ & _ & ->).
        injection Hm as <-. injection He' as <-. reflexivity.
Qed.

(** C1. In the individual pipeline a record is emitted for the line at
    position i exactly when that line matches the identity pattern, the
    positions i-1 and i+1 exist, line i-1 gives at least 4
    difficulty/score/rank triplets and line i+1 gives at least 4
    execution/penalty groups; a line gives at most one record; and an
    emitted record is whole: its four apparatus entries, in the order of
    APPARATUS, hold the fields of the first four triplets and groups. *)
Theorem individual_all_or_nothing (lines : list str) (i : nat) :
  ((exists rec, In (i, rec) (Individual.emitted lines))
   <-> (i < length lines
        /\ matches IDENTITY_RE (nth i lines []) = true
        /\ 1 <= i /\ i + 1 < length lines
        /\ 4 <= length (fst (Individual.parse_dscore_line
                               (nth (i - 1) lines [])))
        /\ exists epen,
            Individual.parse_e_pen_line (nth (i + 1) lines []) = Some epen
            /\ 4 <= length epen))
  /\ NoDup (map fst (Individual.emitted lines))
  /\ Individual.parse_lines lines = map snd (Individual.emitted lines)
  /\ (forall rec,
        In (i, rec) (Individual.emitted lines) ->
        map fst (Individual.apps rec) = APPARATUS
        /\ forall j app e,
            nth_error (Individual.apps rec) j = Some (app, e) ->
            exists t epen,
              nth_error (fst (Individual.parse_dscore_line
                                (nth (i - 1) lines []))) j = Some t
              /\ Individual.parse_e_pen_line (nth (i + 1) lines [])
                 = Some epen
              /\ nth_error epen j = Some (E e, Pen e)
              /\ Score e = Individual.tScore t
              /\ D e = Individual.tD t
              /\ Rk e = Some (Individual.tRk t)).
Proof.
  split; [|split; [|split]].
  - split.
    + intros (rec & Hin). apply in_emitted in Hin.
      destruct Hin as (line & Hn & Hb). apply block_some in Hb.
      destruct Hb as (m & epen & Hm & H1 & H2 & He & Hd & Hl & _).
      assert (Hlt : i < length lines) by (apply nth_error_Some; congruence).
      rewrite (nth_error_nth lines i [] Hn).
      unfold matches. rewrite Hm.
      repeat split; try assumption. eauto.
    + intros (Hlt & Hm & H1 & H2 & Hd & epen & He & Hl).
      unfold matches in Hm.
      destruct (re_match IDENTITY_RE (nth i lines [])) as [m|] eqn:Em;
        [|discriminate].
      eexists. apply in_emitted. exists (nth i lines []).
      split; [now apply nth_error_nth'|].
      apply block_some. exists m, epen.
      repeat split; try assumption.
  - exact (proj1 (kept_indices _ _ (Individual.block lines) lines 0)).
  - reflexivity.
  - intros rec Hin. apply in_emitted in Hin.
    destruct Hin as (line & Hn & Hb). apply block_some in Hb.
    destruct Hb as (m & epen & Hm & H1 & H2 & He & Hd & Hl & ->).
    cbn [Individual.apps]. split.
    + change (enumerate APPARATUS)
        with [(0, "Vault"%string); (1, "UnevenBars"%string);
              (2, "BalanceBeam"%string); (3, "Floor"%string)].
      unfold Individual.app_fields. cbn [map].
      repeat match goal with
             | |- context [nth ?j epen ?d] => destruct (nth j epen d)
             end.
      reflexivity.
    + set (d_trips := fst (Individual.parse_dscore_line (nth (i - 1) lines [])))
        in *.
      change (enumerate APPARATUS)
        with [(0, "Vault"%string); (1, "UnevenBars"%string);
              (2, "BalanceBeam"%string); (3, "Floor"%string)].
      intros j app e Hj.
      assert (Hj4 : j < 4).
      { assert (Hs : j < length [(0, "Vault"%string); (1, "UnevenBars"%string);
                                 (2, "BalanceBeam"%string); (3, "Floor"%string)]).
        { rewrite <- (length_map
                        (Individual.app_fields d_trips epen)).
          apply nth_error_Some. congruence. }
        simpl in Hs. lia. }
      destruct (nth_error d_trips j) as [t|] eqn:Et;
        [|apply nth_error_None in Et; lia].
      destruct (nth_error epen j) as [[e0 p0]|] eqn:Ee;
        [|apply nth_error_None in Ee; lia].
      exists t, epen.
      assert (Hnt : nth j d_trips Individual.default_triplet = t)
        by now apply nth_error_nth.
      assert (Hne : nth j epen (fnan, fnan) = (e0, p0))
        by now apply nth_error_nth.
      destruct j as [|[|[|[|j]]]]; [| | | |lia];
        cbn [nth_error map] in Hj; unfold Individual.app_fields in Hj;
        rewrite Hnt, Hne in Hj; injection Hj as <- <-;
        cbn; repeat split; try assumption; reflexivity.
Qed.
End IndividualClaims.

(** ** The Difficulty/Score/Rank line *)

Lemma dot_not_digit (c : ascii) : is_dot c = true -> is_digit c = false.
Proof.
  unfold is_dot. intros H. apply Ascii.eqb_eq in H. subst c. reflexivity.
Qed.

(** The matcher on [\d{1,2}\.\d{3}], by cases on the first characters. *)
Lemma re_prefix_float3 (s : str) : re_prefix FLOAT3 s = float3_prefix s.
Proof.
  unfold re_prefix, FLOAT3, cat, times, lit, digit. cbn [fold_right].
  change (Ascii.eqb "."%char) with is_dot.
  unfold float3_prefix, float3_here.
  destruct s as [|a [|b [|c [|d [|e [|f [|g rest]]]]]]];
    cbn -[is_dot Nat.sub].
  all: repeat match goal with
       | H : is_dot ?x = true, H' : is_digit ?x = true |- _ =>
           apply dot_not_digit in H; congruence
       | |- context [is_digit ?x] =>
           destruct (is_digit x) eqn:?; cbn -[is_dot Nat.sub]
       | |- context [is_dot ?x] =>
           destruct (is_dot x) eqn:?; cbn -[is_dot Nat.sub]
       | |- context [?n <=? ?n] => rewrite Nat.leb_refl; cbn -[is_dot Nat.sub]
       end; try reflexivity.
  all: repeat match goal with
       | |- context [firstn (?x - ?y) _] =>
           first [replace (x - y) with 6 by lia | replace (x - y) with 5 by lia]
       end; try reflexivity.
Qed.

Lemma float3_prefix_some (s w : str) (g : captures) (rest : str) :
  float3_prefix s = Some (w, g, rest) ->
  s = w ++ rest /\ float3_shape w = true
  /\ (float3_here s = true \/ float3_here (tl s) = true).
Proof.
  unfold float3_prefix.
  destruct s as [|a [|b s2]]; try discriminate.
  destruct (is_digit a && is_digit b && float3_here (b :: s2)) eqn:H2.
  - intros H. injection H as <- _ <-.
    apply andb_true_iff in H2. destruct H2 as [H2 Hh].
    apply andb_true_iff in H2. destruct H2 as [Ha Hb].
    split; [exact (eq_sym (firstn_skipn 6 (a :: b :: s2)))|].
    split; [|right; exact Hh].
    destruct s2 as [|c [|d [|e [|f s6]]]]; try discriminate.
    cbn [firstn float3_shape]. rewrite Ha. exact Hh.
  - destruct (float3_here (a :: b :: s2)) eqn:Hh; [|discriminate].
    intros H. injection H as <- _ <-.
    split; [exact (eq_sym (firstn_skipn 5 (a :: b :: s2)))|].
    split; [|left; reflexivity].
    destruct s2 as [|c [|d [|e s5]]]; try discriminate.
    cbn [firstn float3_shape]. exact Hh.
Qed.

Lemma float3_prefix_none (s : str) :
  float3_prefix s = None -> float3_here s = false.
Proof.
  unfold float3_prefix.
  destruct s as [|a [|b s2]]; try reflexivity.
  destruct (is_digit a && is_digit b && float3_here (b :: s2));
    [discriminate|].
  destruct (float3_here (a :: b :: s2)); [discriminate|reflexivity].
Qed.

Lemma float3_shape_nonempty (w : str) :
  float3_shape w = true -> exists c w', w = c :: w'.
Proof. destruct w as [|c w']; [discriminate|eauto]. Qed.

Lemma no_float3_cons (c : ascii) (t : str) :
  float3_here (c :: t) = false -> no_float3 t -> no_float3 (c :: t).
Proof. intros Hc Ht [|p]; [exact Hc|apply Ht]. Qed.

Lemma no_float3_tail (c : ascii) (t : str) :
  no_float3 (c :: t) -> no_float3 t.
Proof. intros H p. apply (H (S p)). Qed.

Lemma last_error_cons (A : Type) (a : A) (l : list A) :
  last_error (a :: l) = match l with [] => Some a | _ => last_error l end.
Proof.
  destruct l as [|b l]; [reflexivity|].
  unfold last_error. cbn [length].
  replace (S (S (length l)) - 1) with (S (length l)) by lia.
  replace (S (length l) - 1) with (length l) by lia.
  reflexivity.
Qed.

(** A scan that finds nothing went over a text without 3-decimal number,
    and the last find of a scan has no 3-decimal number after it. *)
Lemma scan_float3 (s : str) :
  forall skip : nat,
    let found := map fst (finditer_from FLOAT3 skip s) in
    (found = [] -> no_float3 (skipn skip s))
    /\ (forall w,
          last_error found = Some w ->
          exists pre post,
            skipn skip s = pre ++ w ++ post
            /\ float3_shape w = true /\ no_float3 post).
Proof.
  induction s as [|c t IH]; intros skip found.
  - unfold found. destruct skip; simpl.
    + split; [intros _ [|p]; reflexivity|discriminate].
    + split; [intros _ [|p]; reflexivity|discriminate].
  - unfold found. destruct skip as [|n].
    + cbn [finditer_from skipn]. rewrite re_prefix_float3.
      destruct (float3_prefix (c :: t)) as [[[w' g] rest]|] eqn:Hp.
      * destruct (float3_prefix_some _ _ _ _ Hp) as (Hs & Hw & _).
        destruct (float3_shape_nonempty w' Hw) as (x & w'' & ->).
        cbn [app] in Hs. injection Hs as <- ->.
        cbn [map fst length].
        replace (S (length w'') - 1) with (length w'') by lia.
        destruct (IH (length w'')) as [IH1 IH2].
        rewrite skipn_app, skipn_all, Nat.sub_diag in IH1, IH2.
        cbn [app skipn] in IH1, IH2.
        split; [discriminate|].
        intros w Hl. rewrite last_error_cons in Hl.
        destruct (map fst (finditer_from FLOAT3 (length w'') (w'' ++ rest)))
          as [|y ys] eqn:Hf.
        -- injection Hl as <-. exists [], rest.
           split; [reflexivity|]. split; [exact Hw|]. now apply IH1.
        -- destruct (IH2 w Hl) as (pre & post & E & Hsh & Hno).
           exists ((c :: w'') ++ pre), post.
           split; [|split; assumption].
           rewrite E, <- app_assoc. reflexivity.
      * apply float3_prefix_none in Hp.
        destruct (IH 0) as [IH1 IH2]. cbn [skipn] in IH1, IH2. split.
        -- intros Hf. apply no_float3_cons; [exact Hp|]. now apply IH1.
        -- intros w Hl. destruct (IH2 w Hl) as (pre & post & E & Hsh & Hno).
           exists (c :: pre), post. split; [|split; assumption].
           rewrite E. reflexivity.
    + cbn [finditer_from skipn]. apply IH.
Qed.

Lemma no_float3_finds_nothing (s : str) :
  no_float3 s -> finditer_from FLOAT3 0 s = [].
Proof.
  induction s as [|c t IH]; intros Hno; [reflexivity|].
  cbn [finditer_from]. rewrite re_prefix_float3.
  destruct (float3_prefix (c :: t)) as [[[w g] rest]|] eqn:Hp.
  - destruct (float3_prefix_some _ _ _ _ Hp) as (_ & _ & [H|H]).
    + pose proof (Hno 0) as H0. cbn [skipn] in H0. congruence.
    + pose proof (Hno 1) as H1. cbn [skipn tl] in H1, H. congruence.
  - apply IH. now apply no_float3_tail in Hno.
Qed.

Section DScoreLine.
Context {PF : PyFloat}.

Lemma deglue_from_positions (t : str) :
  forall pre : str,
    Individual.deglue_from (rev pre) t
    = flat_map
        (fun p => if glue_point (pre ++ t) p
                  then [space; nth p (pre ++ t) space]
                  else [nth p (pre ++ t) space])
        (seq (length pre) (length t)).
Proof.
  induction t as [|c t IH]; intros pre; [reflexivity|].
  cbn [Individual.deglue_from length seq flat_map].
  replace (c :: rev pre) with (rev (pre ++ [c])) by (now rewrite rev_app_distr).
  rewrite IH. rewrite <- app_assoc. cbn [app].
  rewrite length_app. cbn [length]. rewrite Nat.add_1_r.
  f_equal.
  unfold glue_point.
  rewrite firstn_app, firstn_all, Nat.sub_diag. cbn [firstn].
  rewrite app_nil_r.
  rewrite nth_error_app2, Nat.sub_diag by lia. cbn [nth_error].
  rewrite nth_middle. reflexivity.
Qed.

(** C4. [parse_dscore_line] normalizes the line, puts a space at every
    position that has a 3-decimal number just before it and a digit just
    after it, makes a triplet of every match of the D/score/(rank) pattern
    in the resulting text, and returns as Total the last 3-decimal number
    of that text (one or two digits, a point, three digits, with no
    3-decimal number after it), whatever the triplets are; Total is absent
    exactly when the text holds no 3-decimal number. *)
Theorem parse_dscore_line_spec (line : str) :
  let text := Individual.deglue (norm line) in
  (forall s : str,
      Individual.deglue s
      = flat_map (fun p => if glue_point s p
                           then [space; nth p s space]
                           else [nth p s space])
                 (seq 0 (length s)))
  /\ fst (Individual.parse_dscore_line line)
     = map Individual.triplet_of (finditer D_SCORE_RK text)
  /\ (snd (Individual.parse_dscore_line line) = None <-> no_float3 text)
  /\ (forall x,
        snd (Individual.parse_dscore_line line) = Some x ->
        exists pre w post,
          text = pre ++ w ++ post
          /\ float3_shape w = true
          /\ no_float3 post
          /\ x = float_of_str w)
  /\ Individual.parse_dscore_line
       (of_string "5.30013.233 (3) 5.600 14.100 (1) 27.333")
     = ([{| Individual.tD := float_of_str (of_string "5.300");
            Individual.tScore := float_of_str (of_string "13.233");
            Individual.tRk := 3 |};
         {| Individual.tD := float_of_str (of_string "5.600");
            Individual.tScore := float_of_str (of_string "14.100");
            Individual.tRk := 1 |}],
        Some (float_of_str (of_string "27.333")))
  /\ Individual.parse_dscore_line (of_string "scores 12.345 pending")
     = ([], Some (float_of_str (of_string "12.345"))).
Proof.
  intros text.
  split; [|split; [|split; [|split; [|split]]]].
  - intros s. apply (deglue_from_positions s []).
  - reflexivity.
  - unfold Individual.parse_dscore_line. fold text. cbn [snd].
    unfold findall, finditer.
    destruct (scan_float3 text 0) as [H1 H2]. cbn [skipn] in H1, H2.
    split.
    + intros Hn.
      destruct (map fst (finditer_from FLOAT3 0 text)) as [|y ys] eqn:Hf;
        [now apply H1|].
      exfalso. unfold last_error in Hn.
      destruct (nth_error (y :: ys) (length (y :: ys) - 1)) eqn:Hne;
        [discriminate|].
      apply nth_error_None in Hne. cbn [length] in Hne. lia.
    + intros Hno. now rewrite (no_float3_finds_nothing text Hno).
  - intros x. unfold Individual.parse_dscore_line. fold text. cbn [snd].
    unfold findall, finditer.
    destruct (scan_float3 text 0) as [_ H2]. cbn [skipn] in H2.
    destruct (last_error (map fst (finditer_from FLOAT3 0 text)))
      as [w|] eqn:Hl; [|discriminate].
    intros H. injection H as <-.
    destruct (H2 w eq_refl) as (pre & post & E & Hsh & Hno).
    exists pre, w, post. auto.
  - vm_compute. reflexivity.
  - vm_compute. reflexivity.
Qed.
End DScoreLine.

(** ** The schema normalizer and the numeric pass *)

Section FrameClaims.
Context {PF : PyFloat}.
Variable parse_numeric : str -> option float.

Lemma coerce_cell_idem (v : value) :
  coerce_cell parse_numeric (coerce_cell parse_numeric v)
  = coerce_cell parse_numeric v.
Proof.
  destruct v as [s|n|x|]; cbn; try reflexivity.
  destruct (parse_numeric s); reflexivity.
Qed.

Lemma coerce_cell_convertible (v : value) :
  convertible parse_numeric (coerce_cell parse_numeric v) = true.
Proof.
  destruct v as [s|n|x|]; cbn; try reflexivity.
  destruct (parse_numeric s); reflexivity.
Qed.

Lemma to_numeric_coerce_idem (col : list value) :
  to_numeric_coerce parse_numeric (to_numeric_coerce parse_numeric col)
  = to_numeric_coerce parse_numeric col.
Proof.
  unfold to_numeric_coerce. rewrite map_map.
  apply map_ext. intros v. apply coerce_cell_idem.
Qed.

Lemma to_numeric_ignore_idem (col : list value) :
  to_numeric_ignore parse_numeric (to_numeric_ignore parse_numeric col)
  = to_numeric_ignore parse_numeric col.
Proof.
  unfold to_numeric_ignore.
  destruct (forallb (convertible parse_numeric) col) eqn:Hc.
  - assert (H : forallb (convertible parse_numeric)
                  (map (coerce_cell parse_numeric) col) = true).
    { apply forallb_forall. intros v Hin. apply in_map_iff in Hin.
      destruct Hin as (u & <- & _). apply coerce_cell_convertible. }
    rewrite H. apply to_numeric_coerce_idem.
  - rewrite Hc. reflexivity.
Qed.

Lemma numeric_pass_idem (skip : list str) (f : list value -> list value)
    (d : frame) :
  (forall col, f (f col) = f col) ->
  numeric_pass skip f (numeric_pass skip f d) = numeric_pass skip f d.
Proof.
  intros Hf. unfold numeric_pass. rewrite map_map.
  apply map_ext. intros [c col]. cbn [fst snd].
  destruct (str_mem c skip) eqn:Hs; cbn [fst snd]; rewrite Hs;
    [reflexivity|]. now rewrite Hf.
Qed.

(** C8. The numeric coercion is idempotent: on every column,
    [pd.to_numeric] with [errors="coerce"] and with [errors="ignore"]
    gives on its own result that same result, and so do the per-column
    passes of the all-around scripts and of the events script on every
    frame. *)
Theorem numeric_coercion_idempotent :
  (forall col : list value,
      to_numeric_coerce parse_numeric (to_numeric_coerce parse_numeric col)
      = to_numeric_coerce parse_numeric col)
  /\ (forall col : list value,
        to_numeric_ignore parse_numeric (to_numeric_ignore parse_numeric col)
        = to_numeric_ignore parse_numeric col)
  /\ (forall d : frame,
        numeric_cleanup parse_numeric (numeric_cleanup parse_numeric d)
        = numeric_cleanup parse_numeric d)
  /\ (forall d : frame,
        Events.numeric_best_effort parse_numeric
          (Events.numeric_best_effort parse_numeric d)
        = Events.numeric_best_effort parse_numeric d).
Proof.
  split; [exact to_numeric_coerce_idem|].
  split; [exact to_numeric_ignore_idem|].
  split.
  - intros d. apply numeric_pass_idem, to_numeric_coerce_idem.
  - intros d. apply numeric_pass_idem, to_numeric_ignore_idem.
Qed.
End FrameClaims.

Section SchemaClaims.
Context {PF : PyFloat}.

Lemma fold_left_flat_map (A B C : Type) (g : A -> B -> A) (h : C -> list B)
    (l : list C) :
  forall m : A,
    fold_left (fun m d => fold_left g (h d) m) l m
    = fold_left g (flat_map h l) m.
Proof.
  induction l as [|d l IH]; intros m; [reflexivity|].
  cbn [fold_left flat_map]. rewrite fold_left_app. apply IH.
Qed.

Lemma str_mem_In (c : str) (l : list str) : str_mem c l = true <-> In c l.
Proof.
  unfold str_mem. rewrite existsb_exists. split.
  - intros (x & Hin & E). apply str_eqb_eq in E. now subst.
  - intros Hin. exists c. split; [exact Hin|]. now apply str_eqb_eq.
Qed.

Lemma str_eqb_refl (c : str) : str_eqb c c = true.
Proof. now apply str_eqb_eq. Qed.

Lemma filter_filter (A : Type) (f g : A -> bool) (l : list A) :
  filter f (filter g l) = filter (fun x => f x && g x) l.
Proof.
  induction l as [|x l IH]; [reflexivity|].
  cbn [filter]. destruct (g x); cbn [filter]; rewrite ?andb_true_r, ?andb_false_r.
  - destruct (f x); now rewrite IH.
  - exact IH.
Qed.

(** The loop that builds [master_cols] appends, in the order of first
    occurrence, the labels that are not there yet. *)
Lemma add_cols_first_seen (l : list str) :
  forall m : list str,
    fold_left Events.add_col l m
    = m ++ filter (fun x => negb (str_mem x m)) (Events.first_seen l).
Proof.
  induction l as [|c t IH]; intros m.
  - simpl. now rewrite app_nil_r.
  - cbn [fold_left Events.first_seen filter]. unfold Events.add_col at 2.
    destruct (str_mem c m) eqn:Hc; cbn [negb].
    + rewrite IH. f_equal. rewrite filter_filter. apply filter_ext.
      intros x. destruct (str_eqb x c) eqn:E; cbn [negb].
      * apply str_eqb_eq in E. subst x. rewrite Hc. reflexivity.
      * now rewrite andb_true_r.
    + rewrite IH, <- app_assoc. cbn [app]. f_equal. f_equal.
      rewrite filter_filter. apply filter_ext.
      intros x. unfold str_mem. rewrite existsb_app. cbn [existsb].
      rewrite orb_false_r, negb_orb. reflexivity.
Qed.

Lemma master_cols_first_seen (all_rows : list frame) :
  Events.master_cols all_rows
  = Events.first_seen (flat_map columns all_rows).
Proof.
  unfold Events.master_cols.
  rewrite (fold_left_flat_map _ _ _ Events.add_col columns).
  rewrite add_cols_first_seen. cbn [app].
  rewrite <- (filter_ext (fun _ => true)) by reflexivity.
  induction (Events.first_seen (flat_map columns all_rows)) as [|x l IH];
    [reflexivity|]. cbn [filter]. now rewrite IH.
Qed.

Lemma first_seen_In (l : list str) (c : str) :
  In c (Events.first_seen l) <-> In c l.
Proof.
  induction l as [|x t IH]; [reflexivity|].
  cbn [Events.first_seen In]. rewrite filter_In, IH, negb_true_iff.
  destruct (list_eq_dec ascii_dec x c) as [->|Hne].
  - tauto.
  - split; [tauto|]. intros [H|H]; [tauto|]. right. split; [exact H|].
    destruct (str_eqb c x) eqn:E; [|reflexivity].
    apply str_eqb_eq in E. congruence.
Qed.

Lemma first_seen_NoDup (l : list str) : NoDup (Events.first_seen l).
Proof.
  induction l as [|x t IH]; [constructor|].
  cbn [Events.first_seen]. constructor.
  - rewrite filter_In, str_eqb_refl. cbn [negb]. intros [_ H]. discriminate.
  - now apply NoDup_filter.
Qed.

Lemma column_of_map (F : str -> list value) (master : list str) (c : str) :
  In c master ->
  column (map (fun x => (x, F x)) master) c = Some (F c).
Proof.
  unfold column. induction master as [|x t IH]; intros Hin; [destruct Hin|].
  cbn [map find fst]. destruct (str_eqb x c) eqn:E.
  - apply str_eqb_eq in E. now subst.
  - apply IH. destruct Hin as [->|H]; [|exact H].
    rewrite str_eqb_refl in E. discriminate.
Qed.

Lemma all_some_map (A B : Type) (f : A -> option B) (g : A -> B)
    (l : list A) :
  (forall x, In x l -> f x = Some (g x)) ->
  Events.all_some (map f l) = Some (map g l).
Proof.
  induction l as [|x t IH]; intros H; [reflexivity|].
  cbn [map Events.all_some]. rewrite (H x (or_introl eq_refl)).
  rewrite IH by (intros y Hy; apply H; now right). reflexivity.
Qed.

(** C7. The column labels of the aligned table are [master_cols]: the
    labels of all blocks in the order in which they are first seen,
    without repetition, so a label is in the table exactly when some
    block has it (the union, no label dropped); and the column of the
    table under a label stacks, block after block, the block's column
    where the block has the label and NaN in every row of the block where
    it has not. *)
Theorem schema_union (all_rows : list frame) :
  Forall (fun d => Events.has_dup (columns d) = false) all_rows ->
  let master := Events.master_cols all_rows in
  master = Events.first_seen (flat_map columns all_rows)
  /\ NoDup master
  /\ (forall c, In c master <-> exists d, In d all_rows /\ In c (columns d))
  /\ exists out_df,
      Events.align all_rows = Some out_df
      /\ columns out_df = master
      /\ forall c,
          In c master ->
          column out_df c
          = Some (flat_map
                    (fun d => match column d c with
                              | Some col => col
                              | None => repeat (VNum fnan) (nrows d)
                              end)
                    all_rows).
Proof.
  intros Hnd master.
  assert (Hm : master = Events.first_seen (flat_map columns all_rows))
    by apply master_cols_first_seen.
  split; [exact Hm|]. split; [rewrite Hm; apply first_seen_NoDup|].
  split.
  - intros c. rewrite Hm, first_seen_In, in_flat_map. reflexivity.
  - set (fill := fun (d : frame) (c : str) =>
                   match column d c with
                   | Some col => col
                   | None => repeat (VNum fnan) (nrows d)
                   end).
    set (re := fun d : frame => map (fun c => (c, fill d c)) master).
    assert (Hn : Events.all_some (map (Events.reindex master) all_rows)
                 = Some (map re all_rows)).
    { apply all_some_map. intros d Hin. rewrite Forall_forall in Hnd.
      unfold Events.reindex. now rewrite (Hnd d Hin). }
    unfold Events.align. fold master. rewrite Hn. cbn [option_map].
    eexists. split; [reflexivity|]. split.
    + unfold Events.concat, columns. rewrite map_map. cbn [fst].
      apply map_id.
    + intros c Hin. unfold Events.concat.
      rewrite (column_of_map
                 (fun x => flat_map (fun d => match column d x with
                                              | Some col => col
                                              | None => []
                                              end) (map re all_rows))
                 master c Hin).
      f_equal. rewrite flat_map_concat_map, map_map, <- flat_map_concat_map.
      apply flat_map_ext. intros d. unfold re.
      now rewrite (column_of_map (fill d) master c Hin).
Qed.
End SchemaClaims.

Lemma schema_union_witness :
  let all_rows := sample_blocks (PF := Decimal.decimal) in
  Forall (fun d => Events.has_dup (columns d) = false) all_rows
  /\ Events.master_cols all_rows
     = [of_string "Event"; of_string "Rank"; of_string "Vault 1";
        of_string "Pen"]
  /\ NoDup (Events.master_cols all_rows).
Proof.
  intros all_rows.
  assert (H : Forall (fun d => Events.has_dup (columns d) = false) all_rows)
    by (repeat constructor).
  split; [exact H|]. split; [vm_compute; reflexivity|].
  exact (proj1 (proj2 (schema_union all_rows H))).
Defined.

(** ** The matcher is sound *)

Lemma firstn_consumed (w s' : str) :
  firstn (length (w ++ s') - length s') (w ++ s') = w.
Proof.
  rewrite length_app, Nat.add_sub, firstn_app, Nat.sub_diag, firstn_all.
  cbn [firstn]. apply app_nil_r.
Qed.

Lemma rep_loop_sound (R : Type) (r1 : regex) (greedy : bool) (lo : nat)
    (hi : option nat) (k : str -> captures -> option R) (x : R)
    (IH : forall (s : str) (g : captures) (k : str -> captures -> option R),
        run r1 s g k = Some x ->
        exists w rest g',
          s = w ++ rest /\ Matches r1 w rest g g' /\ k rest g' = Some x) :
  forall (fuel n : nat) (s : str) (g : captures),
    (fix loop (fuel n : nat) (s : str) (g : captures) {struct fuel}
       : option R :=
       match fuel with
       | 0 => if lo <=? n then k s g else None
       | S fuel' =>
           if greedy then
             match
               (if below n hi
                then run r1 s g
                       (fun s' g' =>
                          if length s' <? length s
                          then loop fuel' (S n) s' g' else None)
                else None)
             with
             | Some x => Some x
             | None => if lo <=? n then k s g else None
             end
           else
             match (if lo <=? n then k s g else None) with
             | Some x => Some x
             | None =>
                 if below n hi
                 then run r1 s g
                        (fun s' g' =>
                           if length s' <? length s
                           then loop fuel' (S n) s' g' else None)
                 else None
             end
       end) fuel n s g = Some x ->
    exists w rest g',
      s = w ++ rest
      /\ Matches (Rep greedy (lo - n) (option_map (fun h => h - n) hi) r1)
                 w rest g g'
      /\ k rest g' = Some x.
Proof.
  assert (Hstop : forall n s g,
             (if lo <=? n then k s g else None) = Some x ->
             exists w rest g',
               s = w ++ rest
               /\ Matches (Rep greedy (lo - n)
                             (option_map (fun h => h - n) hi) r1)
                          w rest g g'
               /\ k rest g' = Some x).
  { intros n s g H. destruct (Nat.leb_spec lo n); [|discriminate].
    exists [], s, g. replace (lo - n) with 0 by lia.
    split; [reflexivity|]. split; [constructor|exact H]. }
  induction fuel as [|fuel IHf]; intros n s g H.
  - now apply Hstop.
  - assert (Hmore :
        (if below n hi
         then run r1 s g
                (fun s' g' =>
                   if length s' <? length s
                   then (fix loop (fuel n : nat) (s : str) (g : captures)
                           {struct fuel} : option R :=
                           match fuel with
                           | 0 => if lo <=? n then k s g else None
                           | S fuel' =>
                               if greedy then
                                 match
                                   (if below n hi
                                    then run r1 s g
                                           (fun s' g' =>
                                              if length s' <? length s
                                              then loop fuel' (S n) s' g'
                                              else None)
                                    else None)
                                 with
                                 | Some x => Some x
                                 | None => if lo <=? n then k s g else None
                                 end
                               else
                                 match (if lo <=? n then k s g else None) with
                                 | Some x => Some x
                                 | None =>
                                     if below n hi
                                     then run r1 s g
                                            (fun s' g' =>
                                               if length s' <? length s
                                               then loop fuel' (S n) s' g'
                                               else None)
                                     else None
                                 end
                           end) fuel (S n) s' g'
                   else None)
         else None) = Some x ->
        exists w rest g',
          s = w ++ rest
          /\ Matches (Rep greedy (lo - n) (option_map (fun h => h - n) hi) r1)
                     w rest g g'
          /\ k rest g' = Some x).
    { intros Hm. destruct (below n hi) eqn:Hb; [|discriminate].
      apply IH in Hm. destruct Hm as (w1 & s1 & g1 & -> & Hm1 & Hm).
      destruct (Nat.ltb_spec (length s1) (length (w1 ++ s1))); [|discriminate].
      apply IHf in Hm. destruct Hm as (w2 & rest & g' & -> & Hm2 & Hk).
      exists (w1 ++ w2), rest, g'.
      split; [now rewrite app_assoc|]. split; [|exact Hk].
      eapply M_rep_more; [|exact Hm1| |].
      - destruct hi as [h|]; [|reflexivity].
        unfold below, option_map in *.
        apply Nat.ltb_lt in Hb. apply Nat.ltb_lt. lia.
      - intros ->. cbn [app] in H0. lia.
      - replace (lo - n - 1) with (lo - S n) by lia.
        replace (option_map (fun h => h - 1)
                   (option_map (fun h => h - n) hi))
          with (option_map (fun h => h - S n) hi); [exact Hm2|].
        destruct hi as [h|]; [|reflexivity]. cbn. f_equal. lia. }
    cbn beta iota in H. destruct greedy.
    + match type of H with
      | match ?e with _ => _ end = _ => destruct e as [y|] eqn:E
      end.
      * injection H as ->. now apply Hmore.
      * now apply Hstop.
    + match type of H with
      | match ?e with _ => _ end = _ => destruct e as [y|] eqn:E
      end.
      * injection H as ->. now apply Hstop.
      * now apply Hmore.
Qed.

(** Whatever the matcher finds is a match: the text splits into the
    matched part and the rest handed to the continuation. *)
Lemma run_sound (R : Type) (x : R) (r : regex) :
  forall (s : str) (g : captures) (k : str -> captures -> option R),
    run r s g k = Some x ->
    exists w rest g',
      s = w ++ rest /\ Matches r w rest g g' /\ k rest g' = Some x.
Proof.
  induction r as [|p|r1 IH1 r2 IH2|greedy lo hi r1 IH1|name r1 IH1|];
    intros s g k H.
  - exists [], s, g. split; [reflexivity|]. split; [constructor|exact H].
  - destruct s as [|c t]; [discriminate|]. cbn [run] in H.
    destruct (p c) eqn:Hp; [|discriminate].
    exists [c], t, g. split; [reflexivity|]. split; [now constructor|exact H].
  - cbn [run] in H. apply IH1 in H. destruct H as (w1 & s1 & g1 & -> & H1 & H).
    apply IH2 in H. destruct H as (w2 & rest & g2 & -> & H2 & H).
    exists (w1 ++ w2), rest, g2. split; [now rewrite app_assoc|].
    split; [econstructor; eassumption|exact H].
  - cbn [run] in H.
    apply (rep_loop_sound R r1 greedy lo hi k x IH1) in H.
    rewrite Nat.sub_0_r in H.
    replace (option_map (fun h => h - 0) hi) with hi in H
      by (destruct hi; cbn; [f_equal; lia|reflexivity]).
    exact H.
  - cbn [run] in H. apply IH1 in H.
    destruct H as (w & rest & g' & -> & H1 & H).
    rewrite firstn_consumed in H.
    exists w, rest, ((name, w) :: g'). split; [reflexivity|].
    split; [now constructor|exact H].
  - cbn [run] in H. destruct s as [|c [|d t]].
    + exists [], [], g. split; [reflexivity|].
      split; [constructor; now left|exact H].
    + destruct (Ascii.eqb c newline) eqn:E; [|discriminate].
      apply Ascii.eqb_eq in E. subst c.
      exists [], [newline], g. split; [reflexivity|].
      split; [constructor; now right|exact H].
    + discriminate.
Qed.
Lemma matches_chr (p : ascii -> bool) (w rest : str) (g g' : captures) :
  Matches (Chr p) w rest g g' -> exists c, w = [c] /\ p c = true /\ g' = g.
Proof. inversion 1; subst. eauto. Qed.


(** A repetition of a character class takes a run of characters of the
    class, as many as its bounds allow, and captures nothing. *)
Lemma matches_rep_chr (p : ascii -> bool) (r : regex) (w rest : str)
    (g g' : captures) :
  Matches r w rest g g' ->
  forall greedy lo hi,
    r = Rep greedy lo hi (Chr p) ->
    forallb p w = true /\ lo <= length w
    /\ match hi with Some h => length w <= h | None => True end
    /\ g' = g.
Proof.
  induction 1 as [rest g|q c rest g Hp|r1 r2 w1 w2 rest g g1 g2 _ _ _ _
                 |name r w rest g g' _ _|rest g _|gr hi r rest g
                 |gr lo hi r w1 w2 rest g g1 g' Hb H1 _ Hne _ IH];
    intros greedy lo' hi' E; try discriminate.
  - injection E as -> <- <- ->. repeat split; try reflexivity.
    destruct hi; [cbn; lia|exact I].
  - injection E as -> -> -> ->.
    apply matches_chr in H1. destruct H1 as (c & -> & Hc & ->).
    destruct (IH greedy _ _ eq_refl) as (Hw & Hlo & Hhi & ->).
    cbn [app forallb length]. rewrite Hc, Hw.
    repeat split; try reflexivity; [lia|].
    destruct hi' as [h|]; [|exact I].
    unfold below, option_map in Hhi, Hb.
    apply Nat.ltb_lt in Hb. lia.
Qed.

(** A repetition whose body takes texts with a property closed under
    concatenation, and captures nothing, does the same. *)
Lemma matches_rep_body (Q : str -> Prop) (body : regex) :
  Q [] -> (forall a b, Q a -> Q b -> Q (a ++ b)) ->
  (forall w rest g g', Matches body w rest g g' -> Q w /\ g' = g) ->
  forall r w rest g g',
    Matches r w rest g g' ->
    forall greedy lo hi,
      r = Rep greedy lo hi body -> Q w /\ g' = g.
Proof.
  intros Q0 Qapp Hbody.
  induction 1 as [rest g|q c rest g Hp|r1 r2 w1 w2 rest g g1 g2 _ _ _ _
                 |name r w rest g g' _ _|rest g _|gr hi r rest g
                 |gr lo hi r w1 w2 rest g g1 g' Hb H1 _ Hne _ IH];
    intros greedy lo' hi' E; try discriminate.
  - injection E as _ _ _ _. split; [exact Q0|reflexivity].
  - injection E as -> -> -> ->.
    destruct (Hbody _ _ _ _ H1) as [Hq ->].
    destruct (IH greedy _ _ eq_refl) as [Hq2 ->].
    split; [now apply Qapp|reflexivity].
Qed.

Lemma finditer_from_prefix (r : regex) (w : str) (g : captures) (s : str) :
  forall skip : nat,
    In (w, g) (finditer_from r skip s) ->
    exists p rest, re_prefix r (skipn p s) = Some (w, g, rest).
Proof.
  induction s as [|c t IH]; intros skip Hin; [destruct Hin|].
  cbn [finditer_from] in Hin. destruct skip as [|n].
  - destruct (re_prefix r (c :: t)) as [[[w' g'] rest]|] eqn:Hp.
    + destruct w' as [|x w''].
      * destruct (IH _ Hin) as (p & rest' & H). now exists (S p), rest'.
      * destruct Hin as [E|Hin].
        -- injection E as <- <-. now exists 0, rest.
        -- destruct (IH _ Hin) as (p & rest' & H). now exists (S p), rest'.
    + destruct (IH _ Hin) as (p & rest' & H). now exists (S p), rest'.
  - destruct (IH _ Hin) as (p & rest' & H). now exists (S p), rest'.
Qed.

Lemma re_prefix_sound (r : regex) (s w rest : str) (g : captures) :
  re_prefix r s = Some (w, g, rest) ->
  Matches r w rest [] g /\ s = w ++ rest.
Proof.
  unfold re_prefix. intros H. apply run_sound in H.
  destruct H as (w' & rest' & g' & -> & Hm & E).
  rewrite firstn_consumed in E. injection E as <- <- <-. auto.
Qed.

Lemma re_match_sound (r : regex) (s : str) (g : captures) :
  re_match r s = Some g -> exists w rest, s = w ++ rest /\ Matches r w rest [] g.
Proof.
  unfold re_match. intros H. apply run_sound in H.
  destruct H as (w & rest & g' & -> & Hm & E). injection E as <-. eauto.
Qed.

(** ** What the patterns of the scripts capture *)

Ltac invert_match :=
  repeat match goal with
         | H : Matches (Cat _ _) _ _ _ _ |- _ => inversion H; subst; clear H
         | H : Matches Eps _ _ _ _ |- _ => inversion H; subst; clear H
         | H : Matches Eos _ _ _ _ |- _ => inversion H; subst; clear H
         | H : Matches (Grp _ _) _ _ _ _ |- _ => inversion H; subst; clear H
         | H : Matches (Chr _) _ _ _ _ |- _ =>
             apply matches_chr in H; destruct H as (? & -> & ? & ->)
         | H : Matches (Rep _ _ _ (Chr ?p)) _ _ _ _ |- _ =>
             apply (fun H => matches_rep_chr p _ _ _ _ _ H _ _ _ eq_refl) in H;
             destruct H as (? & ? & ? & ->)
         end.

Lemma team_hdr_groups (ln : str) (g : captures) :
  re_match TEAM_HDR ln = Some g ->
  length (group "noc" g) = 3
  /\ forallb is_upper (group "noc" g) = true
  /\ 1 <= length (group "trank" g)
  /\ forallb is_digit (group "trank" g) = true.
Proof.
  intros H. apply re_match_sound in H. destruct H as (w & rest & -> & H).
  unfold TEAM_HDR, team_column, cat, star, plus, times, lit, digit, ws, upper,
    any in H.
  cbn [fold_right] in H.
  invert_match. cbn. repeat split; try assumption; lia.
Qed.

Lemma upper_not_digit (c : ascii) : is_upper c = true -> is_digit c = false.
Proof.
  unfold is_upper, is_digit. intros H.
  apply andb_true_iff in H. destruct H as [H1 H2].
  apply Nat.leb_le in H1. apply andb_false_iff. right.
  apply Nat.leb_gt. lia.
Qed.

Lemma space_not_digit (c : ascii) : is_space c = true -> is_digit c = false.
Proof.
  unfold is_space, is_digit. intros H.
  rewrite !orb_true_iff, !andb_true_iff, !Nat.leb_le, !Nat.eqb_eq in H.
  apply andb_false_iff.
  destruct (Nat.leb_spec 48 (nat_of_ascii c)); [right|now left].
  apply Nat.leb_gt. lia.
Qed.

Lemma identity_groups (ln : str) (g : captures) :
  re_match IDENTITY_RE ln = Some g ->
  length (group "noc" g) = 3
  /\ forallb is_upper (group "noc" g) = true
  /\ 1 <= length (group "rank" g)
  /\ forallb is_digit (group "rank" g) = true
  /\ 1 <= length (group "bib" g)
  /\ forallb is_digit (group "bib" g) = true
  /\ no_digits (group "name" g)
  /\ exists c rest, group "name" g = c :: rest /\ is_upper c = true.
Proof.
  intros H. apply re_match_sound in H. destruct H as (w & rest & -> & H).
  unfold IDENTITY_RE, cat, star, plus, times, opt, lit, digit, ws, upper in H.
  cbn [fold_right] in H.
  invert_match.
  match goal with
  | H : Matches (Rep false 1 None ?b) ?w _ _ _ |- _ =>
      assert (Hbody : forall w rest g g',
                 Matches b w rest g g' -> no_digits w /\ g' = g);
      [|pose proof (matches_rep_body no_digits b eq_refl
                      ltac:(unfold no_digits; intros a b0 Ha Hb;
                            rewrite forallb_app, Ha, Hb; reflexivity)
                      Hbody _ _ _ _ _ H _ _ _ eq_refl) as [Hnd ->];
       inversion H; subst; clear H]
  end.
  - intros w' rest' g0 g0' Hm. invert_match. split; [|reflexivity].
    unfold no_digits. cbn [app forallb].
    rewrite (upper_not_digit _ ltac:(eassumption)). cbn [negb andb].
    rewrite !forallb_app. cbn [forallb]. rewrite andb_true_r.
    apply andb_true_iff. split; [assumption|].
    apply forallb_forall. intros c Hc.
    match goal with
    | Hs : forallb is_space ?l = true |- _ =>
        rewrite forallb_forall in Hs; now rewrite (space_not_digit c (Hs c Hc))
    end.
  - invert_match. cbn. repeat split; try assumption; try lia.
    eexists _, _. split; [reflexivity|assumption].
Qed.

Lemma ath_hdr_groups (ln : str) (g : captures) :
  re_match ATH_HDR ln = Some g ->
  3 <= length (group "bib" g)
  /\ forallb is_digit (group "bib" g) = true
  /\ (exists c rest, group "name" g = c :: rest /\ is_upper c = true)
  /\ forallb (fun c => negb (Ascii.eqb c newline)) (group "trail" g) = true.
Proof.
  intros H. apply re_match_sound in H. destruct H as (w & rest & -> & H).
  unfold ATH_HDR, cat, star, plus, times, opt, lit, digit, ws, upper, any in H.
  cbn [fold_right] in H.
  invert_match.
  match goal with
  | H : Matches (Rep true 0 None ?b) _ _ _ _ |- _ =>
      assert (Hbody : forall w rest g g',
                 Matches b w rest g g' -> True /\ g' = g)
        by (intros w' rest' g0 g0' Hm; invert_match; auto);
      pose proof (matches_rep_body (fun _ => True) b I (fun _ _ _ _ => I)
                    Hbody _ _ _ _ _ H _ _ _ eq_refl) as [_ ->];
      clear H
  end.
  invert_match. cbn. repeat split; try assumption; try lia.
  eexists _, _. split; [reflexivity|assumption].
Qed.

Lemma matches_float3 (w rest : str) (g g' : captures) :
  Matches FLOAT3 w rest g g' -> float3_shape w = true /\ g' = g.
Proof.
  unfold FLOAT3, cat, times, lit, digit. cbn [fold_right]. intros H.
  invert_match. split; [|reflexivity].
  repeat match goal with
         | H : context [length ?l] |- _ =>
             is_var l; destruct l; cbn [length] in *; try lia
         end.
  all: cbn [app float3_shape float3_here forallb] in *.
  all: repeat match goal with
              | H : _ && _ = true |- _ =>
                  apply andb_true_iff in H; destruct H
              end.
  all: unfold is_dot.
  all: repeat match goal with
              | H : ?x = true |- context [?x] => rewrite H
              end; reflexivity.
Qed.

Lemma d_score_rk_groups (s w rest : str) (g : captures) :
  re_prefix D_SCORE_RK s = Some (w, g, rest) ->
  float3_shape (group "D" g) = true
  /\ float3_shape (group "score" g) = true
  /\ 1 <= length (group "rk" g)
  /\ forallb is_digit (group "rk" g) = true
  /\ exists tail, s = group "D" g ++ tail.
Proof.
  intros H. apply re_prefix_sound in H. destruct H as [H ->].
  unfold D_SCORE_RK, cat, plus, lit, digit, ws in H.
  cbn [fold_right] in H.
  invert_match.
  repeat match goal with
         | H : Matches FLOAT3 _ _ _ _ |- _ =>
             apply matches_float3 in H; destruct H as [? ->]
         end.
  cbn. repeat split; try assumption; try lia.
  eexists. rewrite <- !app_assoc. reflexivity.
Qed.

(** A text of one or two digits, a point and three digits is a float for
    [IS_FLOAT]. *)
Lemma float3_is_float (w : str) : float3_shape w = true -> is_float w = true.
Proof.
  intros H. unfold is_float, re_match, IS_FLOAT, cat, opt, plus, lit, digit.
  cbn [fold_right].
  destruct w as [|a [|b [|c [|d [|e [|f [|x w]]]]]]]; try discriminate;
    cbn [float3_shape float3_here] in H; unfold is_dot in H;
    repeat match goal with
           | H : _ && _ = true |- _ => apply andb_true_iff in H; destruct H
           end.
  all: repeat match goal with
              | H : Ascii.eqb _ ?c = true |- _ =>
                  apply Ascii.eqb_eq in H; subst c
              end.
  all: repeat
         (cbn -[Nat.sub is_digit Ascii.eqb];
          match goal with
          | H : is_digit ?c = true |- context [is_digit ?c] => rewrite H
          | |- context [Ascii.eqb "-" ?c] =>
              let E := fresh in
              destruct (Ascii.eqb "-" c) eqn:E;
              [apply Ascii.eqb_eq in E; subst c; discriminate|]
          | |- context [Ascii.eqb ?c ?c] => rewrite Ascii.eqb_refl
          | |- context [is_digit "."] => change (is_digit ".") with false
          | |- context [?n <=? ?n] => rewrite Nat.leb_refl
          end).
  all: reflexivity.
Qed.

(** ** Which lines start a team record, and under which context *)

Section TeamRows.
Context {PF : PyFloat}.

Lemma seq_snoc (p : nat) : seq 0 (p + 1) = seq 0 p ++ [p].
Proof. rewrite seq_app. reflexivity. Qed.

Lemma seq_split (p j : nat) :
  p < j -> seq 0 j = seq 0 p ++ [p] ++ seq (p + 1) (j - (p + 1)).
Proof.
  intros H. replace j with (p + (1 + (j - (p + 1)))) at 1 by lia.
  rewrite seq_app, seq_app. cbn [seq app Nat.add]. reflexivity.
Qed.

Lemma no_header_between (lines : list str) (p j : nat) :
  (forall m, p < m < j -> is_header (nth m lines []) = false) ->
  filter (starts_record lines) (seq (p + 1) (j - (p + 1))) = []
  /\ existsb (fun m => matches TEAM_HDR (nth m lines []))
             (seq (p + 1) (j - (p + 1))) = false.
Proof.
  intros H.
  assert (Hin : forall m, In m (seq (p + 1) (j - (p + 1))) ->
                          is_header (nth m lines []) = false).
  { intros m Hm. apply in_seq in Hm. apply H. lia. }
  clear H. induction (seq (p + 1) (j - (p + 1))) as [|m l IH];
    [split; reflexivity|].
  destruct IH as [IH1 IH2]; [intros m' Hm'; apply Hin; now right|].
  pose proof (Hin m (or_introl eq_refl)) as Hm.
  unfold is_header in Hm. apply orb_false_iff in Hm. destruct Hm as [Ha Ht].
  cbn [filter existsb]. unfold starts_record at 1.
  rewrite Ha, Ht. cbn [andb orb]. auto.
Qed.

Lemma context_at_next (lines : list str) (p : nat) :
  p < length lines ->
  context_at lines (p + 1)
  = match re_match TEAM_HDR (nth p lines []) with
    | Some g => Some g
    | None => context_at lines p
    end.
Proof.
  intros Hp. unfold context_at.
  replace (firstn (p + 1) lines) with (firstn p lines ++ [nth p lines []]).
  - rewrite fold_left_app. reflexivity.
  - rewrite <- (firstn_skipn p lines) at 3.
    rewrite Nat.add_comm, firstn_app, firstn_firstn, length_firstn.
    replace (Nat.min (1 + p) p) with p by lia.
    replace (1 + p - Nat.min p (length lines)) with 1 by lia.
    f_equal.
    destruct (skipn p lines) as [|x l] eqn:E.
    + apply (f_equal (@length _)) in E. rewrite length_skipn in E.
      cbn in E. lia.
    + cbn [firstn]. f_equal.
      rewrite <- (firstn_skipn p lines) at 1.
      rewrite app_nth2; rewrite length_firstn;
        replace (Nat.min p (length lines)) with p by lia; [|lia].
      rewrite Nat.sub_diag, E. reflexivity.
Qed.

Lemma context_at_skip (lines : list str) (p j : nat) :
  p <= j -> j <= length lines ->
  (forall m, p <= m < j -> re_match TEAM_HDR (nth m lines []) = None) ->
  context_at lines j = context_at lines p.
Proof.
  intros Hpj Hj H. induction j as [|j IH]; [now replace p with 0 by lia|].
  destruct (Nat.eq_dec p (S j)) as [->|Hne]; [reflexivity|].
  replace (S j) with (j + 1) by lia.
  rewrite context_at_next by lia.
  rewrite (H j) by lia. apply IH; [lia|lia|].
  intros m Hm. apply H. lia.
Qed.

Lemma build_record_identity (cr : option Z) (noc : str) (bib : Z) (name : str)
    (ds e : list str) :
  Team.Rank (Team.build_record cr noc bib name ds e) = cr
  /\ Team.NOC (Team.build_record cr noc bib name ds e) = noc
  /\ Team.Bib (Team.build_record cr noc bib name ds e) = bib
  /\ Team.Name (Team.build_record cr noc bib name ds e) = name.
Proof.
  unfold Team.build_record.
  destruct (fold_left _ _ _) as [entries total]. auto.
Qed.

Lemma filter_seq_snoc (f : nat -> bool) (p : nat) :
  filter f (seq 0 (p + 1)) = filter f (seq 0 p) ++ (if f p then [p] else []).
Proof. rewrite seq_snoc, filter_app. reflexivity. Qed.

Lemma existsb_seq_snoc (f : nat -> bool) (p : nat) :
  existsb f (seq 0 (p + 1)) = existsb f (seq 0 p) || f p.
Proof. rewrite seq_snoc, existsb_app. cbn. now rewrite orb_false_r. Qed.

Lemma step_scan_invariant (lines : list str) (st : Team.state) :
  Team.pos st < length lines ->
  scan_invariant lines st -> scan_invariant lines (Team.step lines st).
Proof.
  intros Hp (Hrows & Hctx & Hcap & Hrec).
  unfold scan_invariant.
  destruct (step_cases lines st)
    as [(mt & Hmt & E)|[(Ht & ma & noc & j & e & Hma & Hc & Hn & Hs & E)
                       |(Ht & Hna & E)]];
    rewrite E; cbn [Team.pos Team.rows Team.ctx_rank Team.ctx_noc Team.advance].
  - assert (Htm : matches TEAM_HDR (nth (Team.pos st) lines []) = true)
      by (unfold matches; now rewrite Hmt).
    assert (Hsr : starts_record lines (Team.pos st) = false)
      by (unfold starts_record; rewrite Htm; cbn [negb];
          now rewrite andb_false_r).
    rewrite filter_seq_snoc, existsb_seq_snoc, context_at_next by exact Hp.
    rewrite Hsr, Htm, Hmt, app_nil_r, orb_true_r.
    split; [exact Hrows|]. split; [|split; [auto|exact Hrec]].
    unfold Team.has_context. cbn [Team.ctx_noc].
    destruct (team_hdr_groups _ _ Hmt) as (Hl & _).
    destruct (group "noc" mt); [discriminate|reflexivity].
  - apply scan_bounds in Hs; [|exact Hp].
    destruct Hs as (Hj & Hno & _ & _).
    destruct (no_header_between lines (Team.pos st) j Hno) as [Hf He].
    assert (Htm : matches TEAM_HDR (nth (Team.pos st) lines []) = false)
      by (unfold matches; now rewrite Ht).
    assert (Hcj : context_at lines j = context_at lines (Team.pos st)).
    { apply context_at_skip; [lia|lia|]. intros m Hm.
      destruct (Nat.eq_dec m (Team.pos st)) as [->|Hne]; [exact Ht|].
      specialize (Hno m ltac:(lia)). unfold is_header in Hno.
      apply orb_false_iff in Hno. destruct Hno as [_ Hno].
      unfold matches in Hno.
      destruct (re_match TEAM_HDR (nth m lines [])); [discriminate|reflexivity]. }
    assert (Hsr : starts_record lines (Team.pos st) = true).
    { unfold starts_record. rewrite Htm, <- Hctx, Hc.
      unfold matches. now rewrite Hma. }
    rewrite (seq_split (Team.pos st) j) by lia.
    rewrite !filter_app, !existsb_app, Hf, He, map_app, Hrows, Hcj.
    cbn [filter existsb map fst]. rewrite Hsr, Htm, app_nil_r, !orb_false_r.
    split; [reflexivity|]. split; [exact Hctx|]. split; [exact Hcap|].
    intros i rec Hin. apply in_app_or in Hin. destruct Hin as [Hin|[Hin|[]]].
    + now apply Hrec.
    + injection Hin as <- <-.
      destruct (context_at lines (Team.pos st)) as [mt|];
        destruct Hcap as [Hcr Hcn]; [|congruence].
      exists mt, ma.
      destruct (build_record_identity (Team.ctx_rank st) noc
                  (int_of (group "bib" ma)) (strip (group "name" ma))
                  (Team.floats_from (group "trail" ma)) e)
        as (-> & -> & -> & ->).
      repeat split; try assumption; congruence.
  - assert (Htm : matches TEAM_HDR (nth (Team.pos st) lines []) = false)
      by (unfold matches; now rewrite Ht).
    assert (Hsr : starts_record lines (Team.pos st) = false).
    { unfold starts_record. rewrite Htm, <- Hctx. cbn [negb].
      now rewrite andb_true_r. }
    rewrite filter_seq_snoc, existsb_seq_snoc, context_at_next by exact Hp.
    rewrite Hsr, Htm, Ht, app_nil_r, orb_false_r.
    split; [exact Hrows|]. split; [exact Hctx|]. split; [exact Hcap|exact Hrec].
Qed.

Lemma loop_scan_invariant (lines : list str) (fuel : nat) :
  forall st st' : Team.state,
    Team.loop fuel lines st = Some st' ->
    scan_invariant lines st ->
    scan_invariant lines st' /\ length lines <= Team.pos st'.
Proof.
  induction fuel as [|fuel IH]; intros st st' Hl Hi; cbn [Team.loop] in Hl;
    destruct (Nat.leb_spec (length lines) (Team.pos st)).
  - injection Hl as <-. auto.
  - discriminate.
  - injection Hl as <-. auto.
  - eapply IH; [exact Hl|]. now apply step_scan_invariant.
Qed.

Lemma context_at_some (lines : list str) (i : nat) :
  i <= length lines ->
  forall mt,
    context_at lines i = Some mt ->
    exists m,
      m < i
      /\ re_match TEAM_HDR (nth m lines []) = Some mt
      /\ forall m', m < m' < i -> re_match TEAM_HDR (nth m' lines []) = None.
Proof.
  induction i as [|i IH]; intros Hi mt H; [discriminate|].
  replace (S i) with (i + 1) in H by lia.
  rewrite context_at_next in H by lia.
  destruct (re_match TEAM_HDR (nth i lines [])) as [g|] eqn:E.
  - injection H as ->. exists i. split; [lia|]. split; [exact E|].
    intros m' Hm'. lia.
  - destruct (IH ltac:(lia) mt H) as (m & Hm & Hmt & Hnone).
    exists m. split; [lia|]. split; [exact Hmt|].
    intros m' Hm'. destruct (Nat.eq_dec m' i) as [->|Hne]; [exact E|].
    apply Hnone. lia.
Qed.

Lemma init_scan_invariant (lines : list str) : scan_invariant lines Team.init.
Proof.
  unfold scan_invariant. cbn. repeat split. intros i rec [].
Qed.

(** X1. The team scan starts a record at exactly the lines that match the
    athlete-header pattern, do not match the team-header pattern and come
    after some team-header line, one record per such line and in the
    order of the lines: no athlete line under a team is passed over. *)
Theorem team_rows_start (lines : list str) :
  exists st',
    Team.loop (length lines) lines Team.init = Some st'
    /\ Team.parse_lines lines = Some (map snd (Team.rows st'))
    /\ map fst (Team.rows st')
       = filter (starts_record lines) (seq 0 (length lines)).
Proof.
  destruct (loop_total lines (length lines) Team.init)
    as (st' & Hl & Hp & _).
  - simpl. lia.
  - simpl. lia.
  - split; [constructor|intros i []].
  - exists st'. split; [exact Hl|].
    split; [unfold Team.parse_lines; now rewrite Hl|].
    destruct (loop_scan_invariant lines _ _ _ Hl (init_scan_invariant lines))
      as [(Hrows & _) _].
    now rewrite <- Hp.
Qed.

(** X2. Every record of the team scan carries the bib and the trimmed
    name captured on its own athlete line, and the rank and country code
    captured on the nearest team-header line above it; the country code
    is three capital letters. *)
Theorem team_rows_context (lines : list str) (st' : Team.state) (i : nat)
    (rec : Team.record) :
  Team.loop (length lines) lines Team.init = Some st' ->
  In (i, rec) (Team.rows st') ->
  exists m mt ma,
    m < i < length lines
    /\ re_match TEAM_HDR (nth m lines []) = Some mt
    /\ (forall m', m < m' < i -> matches TEAM_HDR (nth m' lines []) = false)
    /\ re_match ATH_HDR (nth i lines []) = Some ma
    /\ Team.NOC rec = group "noc" mt
    /\ Team.Rank rec = Some (int_of (group "trank" mt))
    /\ Team.Bib rec = int_of (group "bib" ma)
    /\ Team.Name rec = strip (group "name" ma)
    /\ length (Team.NOC rec) = 3
    /\ forallb is_upper (Team.NOC rec) = true.
Proof.
  intros Hl Hin.
  destruct (loop_scan_invariant lines _ _ _ Hl (init_scan_invariant lines))
    as [(Hrows & _ & _ & Hrec) _].
  assert (Hpos : Team.pos st' = length lines).
  { destruct (loop_total lines (length lines) Team.init)
      as (st'' & Hl' & Hp & _);
      [simpl; lia|simpl; lia|split; [constructor|intros j []]|].
    congruence. }
  assert (Hi : i < length lines).
  { assert (H : In i (map fst (Team.rows st')))
      by (apply in_map_iff; now exists (i, rec)).
    rewrite Hrows in H. apply filter_In in H. destruct H as [H _].
    apply in_seq in H. lia. }
  destruct (Hrec i rec Hin) as (mt & ma & Hc & Hma & Hnoc & Hrk & Hbib & Hname).
  destruct (context_at_some lines i ltac:(lia) mt Hc) as (m & Hm & Hmt & Hnone).
  destruct (team_hdr_groups _ _ Hmt) as (Hl3 & Hup & _).
  exists m, mt, ma. rewrite Hnoc.
  repeat split; try assumption; try lia.
  intros m' Hm'. unfold matches. now rewrite (Hnone m' Hm').
Qed.
End TeamRows.

Lemma team_rows_context_witness :
  let lines := sample_team_lines in
  option_map (fun st' => length (Team.rows st'))
    (Team.loop (PF := Decimal.decimal) (length lines) lines Team.init)
  = Some 2
  /\ match Team.loop (PF := Decimal.decimal) (length lines) lines Team.init
     with
     | Some st' =>
         Forall (fun ir => length (Team.NOC (snd ir)) = 3) (Team.rows st')
     | None => False
     end.
Proof.
  intros lines. split; [vm_compute; reflexivity|].
  destruct (loop_total (PF := Decimal.decimal) lines (length lines) Team.init)
    as (st' & Hl & _);
    [simpl; lia|simpl; lia|split; [constructor|intros j []]|].
  rewrite Hl. apply Forall_forall. intros [i rec] Hin.
  destruct (team_rows_context lines st' i rec Hl Hin)
    as (m & mt & ma & _ & _ & _ & _ & _ & _ & _ & _ & Hlen & _).
  exact Hlen.
Defined.

(** ** Individual records are whole *)

Section IndividualRecords.
Context {PF : PyFloat}.

Lemma float3_shape_here (d tail : str) :
  float3_shape d = true ->
  float3_here (d ++ tail) = true \/ float3_here (tl (d ++ tail)) = true.
Proof.
  destruct d as [|a [|b [|c [|x [|y [|z [|u d]]]]]]]; try discriminate;
    cbn [float3_shape app tl]; intros H.
  - left. exact H.
  - right. apply andb_true_iff in H. destruct H as [_ H]. exact H.
Qed.

Lemma tl_skipn (A : Type) (p : nat) (l : list A) :
  tl (skipn p l) = skipn (S p) l.
Proof.
  revert l. induction p as [|p IH]; intros [|x l]; try reflexivity.
  cbn [skipn] in *. apply IH.
Qed.

Lemma last_error_some (A : Type) (l : list A) :
  l <> [] -> exists x, last_error l = Some x.
Proof.
  intros Hl. unfold last_error.
  destruct (nth_error l (length l - 1)) as [x|] eqn:E; [eauto|].
  apply nth_error_None in E. destruct l; [congruence|cbn [length] in E; lia].
Qed.

Lemma triplets_numbers (line : str) (t : Individual.triplet) :
  In t (fst (Individual.parse_dscore_line line)) ->
  isnan (Individual.tD t) = false /\ isnan (Individual.tScore t) = false.
Proof.
  unfold Individual.parse_dscore_line. cbn [fst]. intros Hin.
  apply in_map_iff in Hin. destruct Hin as ([w g] & <- & Hin).
  apply finditer_from_prefix in Hin. destruct Hin as (p & rest & Hp).
  destruct (d_score_rk_groups _ _ _ _ Hp) as (Hd & Hs & _).
  cbn [Individual.triplet_of Individual.tD Individual.tScore snd].
  split; apply isnan_float_of_str, float3_is_float; assumption.
Qed.

Lemma dscore_total (line : str) :
  fst (Individual.parse_dscore_line line) <> [] ->
  exists x,
    snd (Individual.parse_dscore_line line) = Some x /\ isnan x = false.
Proof.
  unfold Individual.parse_dscore_line. cbn [fst snd].
  set (text := Individual.deglue (norm line)). intros Hne.
  destruct (finditer D_SCORE_RK text) as [|[w g] ms] eqn:Hf;
    [now destruct Hne|].
  assert (Hin : In (w, g) (finditer_from D_SCORE_RK 0 text))
    by (unfold finditer in Hf; rewrite Hf; now left).
  apply finditer_from_prefix in Hin. destruct Hin as (p & rest & Hp).
  destruct (d_score_rk_groups _ _ _ _ Hp) as (Hd & _ & _ & _ & tail & Htail).
  destruct (scan_float3 text 0) as [H1 H2]. cbn [skipn] in H1, H2.
  unfold findall, finditer.
  destruct (map fst (finditer_from FLOAT3 0 text)) as [|y ys] eqn:Hfound.
  - exfalso. specialize (H1 eq_refl).
    destruct (float3_shape_here _ tail Hd) as [H|H]; rewrite <- Htail in H.
    + rewrite (H1 p) in H. discriminate.
    + rewrite tl_skipn, (H1 (S p)) in H. discriminate.
  - destruct (last_error_some _ (y :: ys) ltac:(discriminate)) as [x Hx].
    rewrite Hx. cbn [option_map]. eexists. split; [reflexivity|].
    destruct (H2 x Hx) as (pre & post & _ & Hsh & _).
    now apply isnan_float_of_str, float3_is_float.
Qed.

Lemma e_pen_line_numbers (line : str) (epen : list (float * float)) :
  Individual.parse_e_pen_line line = Some epen -> Forall both_numbers epen.
Proof.
  unfold Individual.parse_e_pen_line. rewrite e_pen_loop_parse_e_pen.
  destruct (length (Team.parse_e_pen (split (norm line)) 4) =? 4);
    [|discriminate].
  intros H. injection H as <-.
  exact (parse_e_pen_numbers 4 (split (norm line))).
Qed.

Lemma upper_not_space (c : ascii) : is_upper c = true -> is_space c = false.
Proof.
  unfold is_upper, is_space. intros H.
  apply andb_true_iff in H. destruct H as [H1 H2].
  apply Nat.leb_le in H1. apply Nat.leb_le in H2.
  rewrite !orb_false_iff, !andb_false_iff, !Nat.leb_gt, !Nat.eqb_neq.
  repeat split; lia.
Qed.

Lemma rstrip_forallb (P : ascii -> bool) (s : str) :
  forallb P s = true -> forallb P (rstrip s) = true.
Proof.
  induction s as [|c t IH]; [reflexivity|].
  cbn [forallb]. intros H. apply andb_true_iff in H. destruct H as [Hc Ht].
  rewrite rstrip_cons. destruct (rstrip t) as [|d r] eqn:E.
  - destruct (is_space c); cbn [forallb]; [reflexivity|now rewrite Hc].
  - cbn [forallb] in *. rewrite Hc. now apply IH.
Qed.

(** Trimming a text that starts with a capital letter keeps that letter
    in front, so the result is not empty and is its own trimming. *)
Lemma strip_name (c : ascii) (rest : str) :
  is_upper c = true ->
  exists rest', strip (c :: rest) = c :: rest'
                /\ strip (strip (c :: rest)) = strip (c :: rest).
Proof.
  intros Hc. pose proof (upper_not_space c Hc) as Hs.
  unfold strip. cbn [lstrip]. rewrite Hs.
  assert (H : exists rest', rstrip (c :: rest) = c :: rest').
  { rewrite rstrip_cons. destruct (rstrip rest); rewrite ?Hs; eauto. }
  destruct H as [rest' H]. exists rest'. split; [exact H|].
  rewrite H. cbn [lstrip]. rewrite Hs, <- H. apply rstrip_idem.
Qed.

(** X3. A record of the individual script is whole: it has a Total, its
    Total and the Score, D, E and Pen of its four apparatus entries are
    numbers (never NaN), every entry has a rank, its country code is
    three capital letters, and its name is trimmed, not empty and without
    digit. *)
Theorem individual_records_whole (lines : list str) (i : nat)
    (rec : Individual.record) :
  In (i, rec) (Individual.emitted lines) ->
  (exists x, Individual.Total rec = Some x /\ isnan x = false)
  /\ length (Individual.apps rec) = 4
  /\ (forall app e,
        In (app, e) (Individual.apps rec) ->
        resolved e = true /\ exists rk, Rk e = Some rk)
  /\ length (Individual.NOC rec) = 3
  /\ forallb is_upper (Individual.NOC rec) = true
  /\ (exists c rest, Individual.Name rec = c :: rest /\ is_upper c = true)
  /\ no_digits (Individual.Name rec)
  /\ strip (Individual.Name rec) = Individual.Name rec.
Proof.
  intros Hin. apply in_emitted in Hin. destruct Hin as (line & Hn & Hb).
  apply block_some in Hb.
  destruct Hb as (m & epen & Hm & H1 & H2 & He & Hd & Hl & ->).
  cbn [Individual.Total Individual.apps Individual.NOC Individual.Name].
  set (d_trips := fst (Individual.parse_dscore_line (nth (i - 1) lines [])))
    in *.
  destruct (identity_groups _ _ Hm)
    as (Hn3 & Hup & _ & _ & _ & _ & Hnd & c & rest & Hname & Hc).
  split; [|split; [|split; [|split; [|split; [|split; [|split]]]]]].
  - apply dscore_total. fold d_trips. intros E. rewrite E in Hd.
    cbn [length] in Hd. lia.
  - rewrite length_map. reflexivity.
  - intros app e Hin. apply In_nth_error in Hin. destruct Hin as [j Hj].
    assert (Hj4 : j < 4).
    { assert (Hs : j < length (map (Individual.app_fields d_trips epen)
                                   (enumerate APPARATUS)))
        by (apply nth_error_Some; congruence).
      rewrite length_map in Hs. exact Hs. }
    rewrite nth_error_map in Hj.
    destruct (nth_error (enumerate APPARATUS) j) as [[j' a]|] eqn:Ej;
      [|discriminate].
    assert (j' = j).
    { apply nth_error_In in Ej as Hi. apply in_enumerate in Hi.
      destruct j as [|[|[|[|j]]]]; [| | | |lia]; cbn in Ej;
        now injection Ej as <- _. }
    subst j'. cbn [option_map] in Hj. unfold Individual.app_fields in Hj.
    destruct (nth_error d_trips j) as [t|] eqn:Et;
      [|apply nth_error_None in Et; lia].
    destruct (nth_error epen j) as [[e0 p0]|] eqn:Ee;
      [|apply nth_error_None in Ee; lia].
    rewrite (nth_error_nth _ _ Individual.default_triplet Et) in Hj.
    rewrite (nth_error_nth _ _ (fnan, fnan) Ee) in Hj.
    injection Hj as <- <-.
    destruct (triplets_numbers (nth (i - 1) lines []) t
                (nth_error_In _ _ Et)) as [HtD HtS].
    pose proof (e_pen_line_numbers _ _ He) as Hnum.
    rewrite Forall_forall in Hnum.
    destruct (Hnum _ (nth_error_In _ _ Ee)) as [He0 Hp0].
    cbn [fst snd] in He0, Hp0.
    unfold resolved. cbn [Score D E Pen Rk].
    rewrite HtD, HtS, He0, Hp0. split; [reflexivity|eauto].
  - exact Hn3.
  - exact Hup.
  - rewrite Hname. destruct (strip_name c rest Hc) as (rest' & E & _).
    exists c, rest'. auto.
  - unfold strip, no_digits. apply rstrip_forallb.
    rewrite Hname. cbn [lstrip]. rewrite (upper_not_space c Hc).
    rewrite <- Hname. exact Hnd.
  - rewrite Hname. now destruct (strip_name c rest Hc) as (rest' & _ & E).
Qed.
End IndividualRecords.


Lemma individual_records_whole_witness :
  let lines := sample_individual_lines in
  length (Individual.emitted (PF := Decimal.decimal) lines) = 1
  /\ Forall (fun ir => exists x, Individual.Total (snd ir) = Some x
                                 /\ isnan x = false)
            (Individual.emitted (PF := Decimal.decimal) lines).
Proof.
  intros lines. split; [vm_compute; reflexivity|].
  apply Forall_forall. intros [i rec] Hin.
  exact (proj1 (individual_records_whole lines i rec Hin)).
Defined.

(** ** Normalized text *)

Lemma split_tokens (s : str) : Forall (fun w => is_token w = true) (split s).
Proof.
  induction s as [|c t IH]; [constructor|].
  rewrite split_cons. destruct (is_space c) eqn:Hc; [exact IH|].
  assert (H1 : is_token [c] = true)
    by (unfold is_token; cbn; now rewrite Hc).
  destruct t as [|d t']; [repeat constructor; exact H1|].
  destruct (is_space d) eqn:Hd; [constructor; [exact H1|exact IH]|].
  destruct (split (d :: t')) as [|w ws]; [repeat constructor; exact H1|].
  apply Forall_cons_iff in IH. destruct IH as [Hw Hws].
  constructor; [|exact Hws].
  unfold is_token in *. cbn [nonempty forallb andb].
  rewrite Hc. cbn [negb andb].
  apply andb_true_iff in Hw. now destruct Hw.
Qed.

Lemma split_token (t : str) : is_token t = true -> split t = [t].
Proof.
  unfold is_token. intros H. apply andb_true_iff in H. destruct H as [Hne Hns].
  induction t as [|c t IH]; [discriminate|].
  cbn [forallb] in Hns. apply andb_true_iff in Hns. destruct Hns as [Hc Ht].
  apply negb_true_iff in Hc. rewrite split_cons, Hc.
  destruct t as [|d t']; [reflexivity|].
  cbn [forallb] in Ht. apply andb_true_iff in Ht as Ht'.
  destruct Ht' as [Hd _]. apply negb_true_iff in Hd. rewrite Hd.
  rewrite (IH eq_refl Ht). reflexivity.
Qed.

Lemma flat_map_split_tokens (toks : list str) :
  Forall (fun t => is_token t = true) toks -> flat_map split toks = toks.
Proof.
  induction 1 as [|t toks Ht _ IH]; [reflexivity|].
  cbn [flat_map]. now rewrite (split_token t Ht), IH.
Qed.

(** X4. Splitting undoes joining: a list of tokens (texts that are not
    empty and have no whitespace) joined with single spaces splits back
    into the same list. *)
Theorem split_join_tokens (toks : list str) :
  Forall (fun t => is_token t = true) toks ->
  split (join (of_string " ") toks) = toks.
Proof.
  intros H. change (of_string " ") with [space].
  rewrite split_join. now apply flat_map_split_tokens.
Qed.

(** X5. Normalizing is idempotent and keeps the words: [norm] of a
    normalized text is that text, the words of [norm s] are the words of
    [s], and [norm s] is those words joined by single spaces. *)
Theorem norm_idempotent (s : str) :
  norm (norm s) = norm s
  /\ split (norm s) = split s
  /\ norm s = join (of_string " ") (split s).
Proof.
  assert (H : split (norm s) = split s).
  { rewrite norm_words, split_join.
    apply flat_map_split_tokens, split_tokens. }
  split; [|split; [exact H|apply norm_words]].
  rewrite (norm_words (norm s)), H. symmetry. apply norm_words.
Qed.

Lemma lstrip_spaces (s : str) : forallb is_space s = true -> lstrip s = [].
Proof.
  induction s as [|c t IH]; [reflexivity|].
  cbn [forallb lstrip]. intros H. apply andb_true_iff in H.
  destruct H as [-> Ht]. now apply IH.
Qed.

Lemma strip_nil (s : str) : strip s = [] <-> split s = [].
Proof.
  split.
  - intros H. rewrite <- split_strip, H. reflexivity.
  - intros H. apply split_nil in H. unfold strip.
    now rewrite (lstrip_spaces s H).
Qed.

Lemma join_nil (ws : list str) :
  Forall (fun w => is_token w = true) ws ->
  join [space] ws = [] -> ws = [].
Proof.
  destruct ws as [|w ws]; [reflexivity|].
  intros H. apply Forall_cons_iff in H. destruct H as [Hw _].
  destruct w as [|c w]; [discriminate|].
  destruct ws; discriminate.
Qed.

Lemma collapse_row_nil (row : list cell) :
  collapse_row row = [] <-> existsb keep_cell row = false.
Proof.
  unfold collapse_row. rewrite norm_words, split_join. split.
  - intros H. apply join_nil in H.
    + induction row as [|x row IH]; [reflexivity|].
      cbn [existsb filter] in *. destruct (keep_cell x) eqn:Hk.
      * exfalso. cbn [map flat_map] in H. apply app_eq_nil in H.
        destruct H as [H _]. apply strip_nil in H.
        unfold keep_cell, is_placeholder in Hk. rewrite H in Hk.
        discriminate.
      * now apply IH.
    + clear H. induction (map py_str (filter keep_cell row)) as [|p l IH];
        [constructor|].
      cbn [flat_map]. apply Forall_app. split; [apply split_tokens|exact IH].
  - intros H. replace (filter keep_cell row) with (@nil cell); [reflexivity|].
    induction row as [|x row IH]; [reflexivity|].
    cbn [existsb filter] in *. apply orb_false_iff in H.
    destruct H as [-> H]. now apply IH.
Qed.

(** X6. The line list has one line for every raw row with a cell whose
    trimmed text is neither empty nor [None] nor [nan], in the order of
    the rows, and no line for any other row; every line is non-empty and
    is its own normalization. *)
Theorem build_lines_rows (raw : list (list cell)) :
  build_lines raw = map collapse_row (filter (existsb keep_cell) raw)
  /\ Forall (fun ln => ln <> [] /\ norm ln = ln) (build_lines raw).
Proof.
  assert (H : build_lines raw
              = map collapse_row (filter (existsb keep_cell) raw)).
  { unfold build_lines. induction raw as [|row raw IH]; [reflexivity|].
    cbn [map filter].
    destruct (existsb keep_cell row) eqn:Hk.
    - destruct (collapse_row row) as [|c l] eqn:Hc.
      + apply collapse_row_nil in Hc. congruence.
      + cbn [nonempty map]. now rewrite IH, Hc.
    - apply collapse_row_nil in Hk. rewrite Hk. cbn [nonempty]. exact IH. }
  split; [exact H|].
  apply Forall_forall. intros ln Hin. unfold build_lines in Hin.
  apply filter_In in Hin. destruct Hin as [Hin Hne].
  split; [destruct ln; [discriminate|discriminate]|].
  apply in_map_iff in Hin. destruct Hin as (row & <- & _).
  unfold collapse_row. apply norm_idempotent.
Qed.

Lemma split_join_tokens_witness :
  let toks := [of_string "8.500"; of_string "-0.100"; of_string "SMITH"] in
  Forall (fun t => is_token t = true) toks
  /\ split (join (of_string " ") toks) = toks.
Proof.
  intros toks.
  assert (H : Forall (fun t => is_token t = true) toks)
    by (repeat constructor).
  split; [exact H|]. exact (split_join_tokens toks H).
Defined.

(** ** make_unique_columns *)

Lemma counts_get_set (d : counts) (k k' : str) (v : nat) :
  counts_get (counts_set d k v) k'
  = if str_eqb k k' then Some v else counts_get d k'.
Proof.
  induction d as [|[a x] d IH]; cbn [counts_set counts_get].
  - destruct (str_eqb k k'); reflexivity.
  - destruct (str_eqb a k) eqn:E; cbn [counts_get].
    + apply str_eqb_eq in E. subst a. destruct (str_eqb k k'); reflexivity.
    + destruct (str_eqb a k') eqn:E'; [|exact IH].
      apply str_eqb_eq in E'. subst a.
      destruct (str_eqb k k') eqn:E2; [|reflexivity].
      apply str_eqb_eq in E2. subst k'.
      rewrite (proj2 (str_eqb_eq k k) eq_refl) in E. discriminate.
Qed.

Lemma unique_step_counts (done : list str) (seen : counts) (out : list str)
    (c : str) :
  (forall c', counts_get seen c'
              = match occurrences done c' with 0 => None | n => Some n end) ->
  let l := EventTables.clean_label c in
  EventTables.unique_step (seen, out) c
  = (counts_set seen l (S (occurrences done l)), out ++ [numbered done l])
  /\ forall c', counts_get (counts_set seen l (S (occurrences done l))) c'
                = match occurrences (done ++ [l]) c' with
                  | 0 => None
                  | n => Some n
                  end.
Proof.
  intros Hseen l. split.
  - unfold EventTables.unique_step. fold l. rewrite Hseen. unfold numbered.
    destruct (occurrences done l) as [|k]; [reflexivity|].
    rewrite Nat.add_1_r. reflexivity.
  - intros c'. rewrite counts_get_set. unfold occurrences.
    rewrite count_occ_app. cbn [count_occ].
    destruct (list_eq_dec ascii_dec l c') as [->|Hne].
    + rewrite (proj2 (str_eqb_eq c' c') eq_refl).
      f_equal. rewrite Nat.add_1_r. reflexivity.
    + destruct (str_eqb l c') eqn:E; [apply str_eqb_eq in E; congruence|].
      rewrite Nat.add_0_r. apply Hseen.
Qed.

(** What the loop keeps true: [seen] counts the labels met so far. *)
Lemma unique_loop (cols : list str) :
  forall (done : list str) (seen : counts) (out : list str),
    (forall c, counts_get seen c
               = match occurrences done c with 0 => None | n => Some n end) ->
    exists seen',
      fold_left EventTables.unique_step cols (seen, out)
      = (seen',
         out ++ map (fun i =>
                       numbered
                         (done ++ firstn i (map EventTables.clean_label cols))
                         (nth i (map EventTables.clean_label cols) []))
                    (seq 0 (length cols))).
Proof.
  induction cols as [|c cols IH]; intros done seen out Hseen.
  - exists seen. cbn. now rewrite app_nil_r.
  - destruct (unique_step_counts done seen out c Hseen) as [Hstep Hnext].
    cbn [fold_left]. rewrite Hstep.
    destruct (IH _ _ (out ++ [numbered done (EventTables.clean_label c)]) Hnext)
      as [seen' E].
    exists seen'. rewrite E, <- app_assoc. f_equal. f_equal.
    cbn [length seq map app firstn nth]. rewrite app_nil_r. f_equal.
    rewrite <- seq_shift, map_map. apply map_ext. intros i.
    cbn [map firstn nth]. now rewrite <- app_assoc.
Qed.

Lemma make_unique_columns_closed (cols : list str) :
  EventTables.make_unique_columns cols
  = map (fun i =>
           numbered (firstn i (map EventTables.clean_label cols))
                    (nth i (map EventTables.clean_label cols) []))
        (seq 0 (length cols)).
Proof.
  unfold EventTables.make_unique_columns.
  destruct (unique_loop cols [] [] []) as [seen' E]; [reflexivity|].
  apply (f_equal snd) in E. exact E.
Qed.

Lemma occurrences_zero (l : list str) (c : str) :
  ~ In c l -> occurrences l c = 0.
Proof. intros H. now apply count_occ_not_In. Qed.

(** X7. [make_unique_columns] returns one label per input label, in
    order: the trimmed label ("Unnamed" when that is empty) where it is
    met for the first time, and that label followed by "_k" where it is
    met for the k-th time, k > 1.  When the trimmed labels are pairwise
    distinct the result is the list of the trimmed labels. *)
Theorem make_unique_columns_spec (cols : list str) :
  let labels := map EventTables.clean_label cols in
  let out := EventTables.make_unique_columns cols in
  length out = length cols
  /\ (forall i c,
        nth_error labels i = Some c ->
        nth_error out i
        = Some (match occurrences (firstn i labels) c with
                | 0 => c
                | S k => c ++ of_string "_" ++ str_of_nat (S k + 1)
                end))
  /\ (NoDup labels -> out = labels).
Proof.
  intros labels out. unfold out. rewrite make_unique_columns_closed.
  fold labels. split; [now rewrite length_map, length_seq|]. split.
  - intros i c Hi.
    assert (Hlt : i < length cols).
    { unfold labels in Hi. rewrite <- (length_map EventTables.clean_label).
      apply nth_error_Some. congruence. }
    rewrite nth_error_map, nth_error_seq.
    destruct (Nat.ltb_spec i (length cols)); [|lia].
    cbn [option_map Nat.add].
    pose proof (nth_error_nth labels i [] Hi) as Hx. rewrite Hx. reflexivity.
  - intros Hnd. apply nth_error_ext. intros i.
    rewrite nth_error_map, nth_error_seq.
    subst labels. set (labels := map EventTables.clean_label cols) in *.
    destruct (Nat.ltb_spec i (length cols)) as [Hi|Hi].
    + assert (Hl : i < length labels) by (unfold labels; now rewrite length_map).
      destruct (nth_error labels i) as [c|] eqn:Ec;
        [|apply nth_error_None in Ec; lia].
      cbn [option_map Nat.add].
      pose proof (nth_error_nth labels i [] Ec) as Hx. rewrite Hx.
      f_equal. unfold numbered. rewrite occurrences_zero; [reflexivity|].
      intros Hin.
      apply nth_error_split in Ec. destruct Ec as (l1 & l2 & El & Hlen).
      rewrite El in Hnd, Hin. subst i.
      rewrite firstn_app, firstn_all, Nat.sub_diag in Hin.
      cbn [firstn] in Hin. rewrite app_nil_r in Hin.
      apply NoDup_remove_2 in Hnd. apply Hnd, in_or_app. now left.
    + cbn [option_map]. symmetry. apply nth_error_None.
      unfold labels. rewrite length_map. exact Hi.
Qed.

Lemma rstrip_app (a b : str) :
  b <> [] -> rstrip b = b -> rstrip (a ++ b) = a ++ b.
Proof.
  intros Hb Hr. induction a as [|x a IH]; [exact Hr|].
  cbn [app]. rewrite rstrip_cons, IH.
  destruct (a ++ b) eqn:E; [|reflexivity].
  apply app_eq_nil in E. destruct E as [_ E]. congruence.
Qed.

Lemma strip_app_suffix (c t : str) :
  strip c = c -> c <> [] -> t <> [] -> rstrip t = t ->
  strip (c ++ t) = c ++ t.
Proof.
  intros Hc Hne Ht Hr. destruct c as [|x c']; [congruence|].
  assert (Hx : is_space x = false).
  { pose proof (rstrip_starts _ (lstrip_starts (x :: c'))) as H.
    fold (strip (x :: c')) in H. rewrite Hc in H. exact H. }
  unfold strip. cbn [app lstrip]. rewrite Hx.
  change (x :: c' ++ t) with ((x :: c') ++ t). now apply rstrip_app.
Qed.

Lemma clean_label_trimmed (c : str) :
  strip c = c -> c <> [] -> EventTables.clean_label c = c.
Proof.
  intros Hc Hne. unfold EventTables.clean_label. rewrite Hc.
  destruct (str_eqb c (of_string "")) eqn:E; [|reflexivity].
  apply str_eqb_eq in E. exfalso. apply Hne. exact E.
Qed.

(** X8. [make_unique_columns] does not always make the labels unique: on
    a trimmed, non-empty label [c] given twice and followed by the label
    [c_2], the second [c] is renamed [c_2] and the given [c_2] is kept,
    so the result holds [c_2] twice. *)
Theorem make_unique_columns_repeats (c : str) :
  strip c = c -> c <> [] ->
  EventTables.make_unique_columns [c; c; c ++ of_string "_2"]
  = [c; c ++ of_string "_2"; c ++ of_string "_2"].
Proof.
  intros Hc Hne. rewrite make_unique_columns_closed.
  cbn [length seq map firstn nth].
  rewrite (clean_label_trimmed c Hc Hne).
  assert (H2 : EventTables.clean_label (c ++ of_string "_2")
               = c ++ of_string "_2").
  { apply clean_label_trimmed.
    - apply strip_app_suffix; try assumption; [discriminate|reflexivity].
    - intros E. apply app_eq_nil in E. destruct E as [_ E]. discriminate. }
  rewrite H2. unfold numbered, occurrences. cbn [count_occ].
  destruct (list_eq_dec ascii_dec c c) as [_|N]; [|congruence].
  destruct (list_eq_dec ascii_dec c (c ++ of_string "_2")) as [E|_].
  - apply (f_equal (@length _)) in E. rewrite length_app in E.
    cbn [length of_string list_ascii_of_string] in E. lia.
  - reflexivity.
Qed.

Lemma make_unique_columns_repeats_witness :
  let c := of_string "Score" in
  strip c = c
  /\ EventTables.make_unique_columns [c; c; c ++ of_string "_2"]
     = [c; c ++ of_string "_2"; c ++ of_string "_2"].
Proof.
  intros c.
  assert (H : strip c = c) by reflexivity.
  split; [exact H|].
  apply (make_unique_columns_repeats c H). discriminate.
Defined.

(** ** Event labels of pages *)

Lemma startswith_app (pat s : str) :
  startswith pat s = true -> exists rest, s = pat ++ rest.
Proof.
  revert s. induction pat as [|p pat IH]; intros s H.
  - exists s. reflexivity.
  - destruct s as [|c s]; [discriminate|].
    cbn [startswith] in H. apply andb_prop in H. destruct H as [Hc Hs].
    apply Ascii.eqb_eq in Hc. subst c.
    destruct (IH s Hs) as [rest ->]. exists rest. reflexivity.
Qed.

Lemma contains_re_search (pat : str) (r : regex) :
  (forall rest, matches r (pat ++ rest) = true) ->
  forall s, contains pat s = true -> re_search r s = true.
Proof.
  intros Hr s. induction s as [|c s IH]; cbn [contains re_search]; intros H.
  - rewrite orb_false_r in H. destruct (startswith_app _ _ H) as [rest ->].
    rewrite Hr. reflexivity.
  - apply orb_prop in H. destruct H as [H|H].
    + destruct (startswith_app _ _ H) as [rest ->]. rewrite Hr. reflexivity.
    + rewrite (IH H). apply orb_true_r.
Qed.

Ltac run_marker :=
  intros rest; unfold matches, re_match;
  cbn -[Nat.leb Nat.ltb];
  repeat (rewrite ?Nat.ltb_irrefl, ?Nat.leb_refl;
          first [ rewrite (proj2 (Nat.ltb_lt _ _)) by (cbn [length]; lia) | idtac ];
          cbn -[Nat.leb Nat.ltb]);
  reflexivity.

Lemma vault_marker (rest : str) :
  matches EventPages.VAULT_RE (of_string "Women's Vault" ++ rest) = true.
Proof. revert rest. run_marker. Qed.

Lemma bars_marker (rest : str) :
  matches EventPages.BARS_RE (of_string "Women's Uneven Bars" ++ rest) = true.
Proof. revert rest. run_marker. Qed.

Lemma beam_marker (rest : str) :
  matches EventPages.BEAM_RE (of_string "Women's Balance Beam" ++ rest) = true.
Proof. revert rest. run_marker. Qed.

Lemma floor_marker (rest : str) :
  matches EventPages.FLOOR_RE (of_string "Women's Floor Exercise" ++ rest) = true.
Proof. revert rest. run_marker. Qed.

(** X9 (detect_event_name).  The label of a page is one of Vault, Uneven
    Bars, Balance Beam, Floor and Unknown.  It is Unknown exactly when none
    of the four case-insensitive patterns is found in the page text (an
    exact marker is always a match of its pattern), and a page labelled
    with an event has that event's pattern somewhere in its text. *)
Theorem detect_event_name_labels (page_text : str) :
  let label := EventPages.detect_event_name page_text in
  let found r := re_search r page_text in
  In label (map snd EventPages.EVENT_PATTERNS ++ [of_string "Unknown"])
  /\ (label = of_string "Unknown" <->
      found EventPages.VAULT_RE = false /\ found EventPages.BARS_RE = false
      /\ found EventPages.BEAM_RE = false /\ found EventPages.FLOOR_RE = false)
  /\ (label = of_string "Vault" -> found EventPages.VAULT_RE = true)
  /\ (label = of_string "Uneven Bars" -> found EventPages.BARS_RE = true)
  /\ (label = of_string "Balance Beam" -> found EventPages.BEAM_RE = true)
  /\ (label = of_string "Floor" -> found EventPages.FLOOR_RE = true).
Proof.
  cbv zeta.
  pose proof (contains_re_search _ _ vault_marker page_text) as Hv.
  pose proof (contains_re_search _ _ bars_marker page_text) as Hu.
  pose proof (contains_re_search _ _ beam_marker page_text) as Hb.
  pose proof (contains_re_search _ _ floor_marker page_text) as Hf.
  unfold EventPages.detect_event_name, EventPages.EVENT_PATTERNS.
  cbn [find fst snd map app].
  destruct (contains (of_string "Women's Vault") page_text);
    [ rewrite (Hv eq_refl); cbn; intuition (try discriminate; auto) |].
  destruct (contains (of_string "Women's Uneven Bars") page_text);
    [ rewrite (Hu eq_refl); cbn; intuition (try discriminate; auto) |].
  destruct (contains (of_string "Women's Balance Beam") page_text);
    [ rewrite (Hb eq_refl); cbn; intuition (try discriminate; auto) |].
  destruct (contains (of_string "Women's Floor Exercise") page_text);
    [ rewrite (Hf eq_refl); cbn; intuition (try discriminate; auto) |].
  clear Hv Hu Hb Hf.
  destruct (re_search EventPages.VAULT_RE page_text);
    [ cbn; intuition (try discriminate; auto) |].
  destruct (re_search EventPages.BARS_RE page_text);
    [ cbn; intuition (try discriminate; auto) |].
  destruct (re_search EventPages.BEAM_RE page_text);
    [ cbn; intuition (try discriminate; auto) |].
  destruct (re_search EventPages.FLOOR_RE page_text);
    cbn; intuition (try discriminate; auto).
Qed.

(** ** The header row of an event table *)

Lemma space_not_word (c : ascii) : is_space c = true -> is_word c = false.
Proof.
  destruct c as [[] [] [] [] [] [] [] []]; vm_compute; intros H;
    first [reflexivity | discriminate H].
Qed.

Lemma word_at_prev (w : str) (p q : option ascii) (s : str) :
  wordy p = wordy q -> word_at w p s = word_at w q s.
Proof.
  intros H. unfold word_at, boundary. rewrite H.
  destruct w as [|x w']; [cbn [map last]; now rewrite H|].
  replace (last (map Some (x :: w')) p) with (last (map Some (x :: w')) q);
    [reflexivity|].
  cbn [map]. generalize (Some x) as d. generalize (map Some w') as l.
  induction l as [|y l IH]; intros d; [reflexivity|].
  cbn [last]. destruct l; [reflexivity|]. apply (IH y).
Qed.

Lemma word_search_prev (w : str) (p q : option ascii) (s : str) :
  wordy p = wordy q -> word_search w p s = word_search w q s.
Proof.
  intros H. destruct s as [|c t]; cbn [word_search];
    now rewrite (word_at_prev w p q _ H).
Qed.

Lemma solid_head (w : str) :
  solid w -> exists x w', w = x :: w' /\ is_space x = false.
Proof.
  intros [Hne Hs]. destruct w as [|x w']; [congruence|].
  cbn [forallb] in Hs. apply andb_prop in Hs. destruct Hs as [Hx _].
  exists x, w'. split; [reflexivity|]. now destruct (is_space x).
Qed.

Lemma startswith_space (w : str) (c : ascii) (t : str) :
  solid w -> is_space c = true -> startswith w (c :: t) = false.
Proof.
  intros Hw Hc. destruct (solid_head w Hw) as (x & w' & -> & Hx).
  cbn [startswith]. destruct (Ascii.eqb x c) eqn:E; [|reflexivity].
  apply Ascii.eqb_eq in E. congruence.
Qed.

Lemma word_at_space (w : str) (p : option ascii) (c : ascii) (t : str) :
  solid w -> is_space c = true -> word_at w p (c :: t) = false.
Proof.
  intros Hw Hc. unfold word_at. rewrite (startswith_space w c t Hw Hc).
  now rewrite andb_false_r.
Qed.

Lemma word_at_nil (w : str) (p : option ascii) :
  solid w -> word_at w p [] = false.
Proof.
  intros Hw. destruct (solid_head w Hw) as (x & w' & -> & _).
  unfold word_at. cbn [startswith]. now rewrite andb_false_r.
Qed.

Lemma word_search_lstrip (w : str) (p : option ascii) (s : str) :
  solid w -> wordy p = false ->
  word_search w p (lstrip s) = word_search w p s.
Proof.
  intros Hw. revert p. induction s as [|c t IH]; intros p Hp; [reflexivity|].
  cbn [lstrip]. destruct (is_space c) eqn:Hc; [|reflexivity].
  cbn [word_search]. rewrite (word_at_space w p c t Hw Hc). cbn [orb].
  rewrite (IH p Hp). apply word_search_prev.
  cbn [wordy]. now rewrite (space_not_word c Hc).
Qed.

Lemma word_search_spaces (w : str) (p : option ascii) (s : str) :
  solid w -> forallb is_space s = true -> word_search w p s = false.
Proof.
  intros Hw. revert p. induction s as [|c t IH]; intros p Hs.
  - cbn [word_search]. now rewrite (word_at_nil w p Hw).
  - cbn [forallb] in Hs. apply andb_prop in Hs. destruct Hs as [Hc Ht].
    cbn [word_search]. rewrite (word_at_space w p c t Hw Hc).
    exact (IH (Some c) Ht).
Qed.

Lemma hd_rstrip (s : str) :
  wordy (hd_error (rstrip s)) = wordy (hd_error s).
Proof.
  destruct s as [|c t]; [reflexivity|]. rewrite rstrip_cons.
  destruct (rstrip t); [|reflexivity].
  destruct (is_space c) eqn:Hc; [|reflexivity].
  cbn [hd_error wordy]. now rewrite (space_not_word c Hc).
Qed.

Lemma startswith_rstrip (w s : str) :
  forallb (fun c => negb (is_space c)) w = true ->
  startswith w (rstrip s) = startswith w s
  /\ (startswith w s = true ->
      wordy (nth_error (rstrip s) (length w))
      = wordy (nth_error s (length w))).
Proof.
  revert s. induction w as [|x w IH]; intros s Hw.
  - split; [now destruct (rstrip s), s|].
    intros _. cbn [length]. destruct s as [|c t]; [reflexivity|].
    pose proof (hd_rstrip (c :: t)) as H.
    destruct (rstrip (c :: t)); exact H.
  - cbn [forallb] in Hw. apply andb_prop in Hw. destruct Hw as [Hx Hw].
    destruct s as [|c t]; [split; [reflexivity|discriminate]|].
    rewrite rstrip_cons. destruct (IH t Hw) as [IH1 IH2].
    destruct (rstrip t) as [|d r] eqn:Hr.
    + assert (Hw0 : startswith w t = startswith w []) by (now rewrite <- IH1).
      destruct (is_space c) eqn:Hc.
      * assert (E : Ascii.eqb x c = false).
        { destruct (Ascii.eqb x c) eqn:E; [|reflexivity].
          apply Ascii.eqb_eq in E. subst x. now rewrite Hc in Hx. }
        cbn [startswith]. rewrite E. split; [reflexivity|discriminate].
      * cbn [startswith length nth_error]. rewrite Hw0. split; [reflexivity|].
        intros H. apply andb_prop in H. destruct H as [_ H].
        rewrite <- Hw0 in H. exact (IH2 H).
    + cbn [startswith length nth_error]. rewrite <- IH1. split; [reflexivity|].
      intros H. apply andb_prop in H. destruct H as [_ H].
      rewrite IH1 in H. exact (IH2 H).
Qed.

Lemma word_at_rstrip (w : str) (p : option ascii) (s : str) :
  solid w -> word_at w p (rstrip s) = word_at w p s.
Proof.
  intros [_ Hw]. unfold word_at, boundary.
  destruct (startswith_rstrip w s Hw) as [H1 H2].
  rewrite H1, hd_rstrip. destruct (startswith w s) eqn:E.
  - now rewrite (H2 eq_refl).
  - now rewrite !andb_false_r.
Qed.

Lemma word_search_cons (w : str) (p : option ascii) (c : ascii) (t : str) :
  word_search w p (c :: t) = word_at w p (c :: t) || word_search w (Some c) t.
Proof. reflexivity. Qed.

Lemma word_search_rstrip (w : str) (p : option ascii) (s : str) :
  solid w -> word_search w p (rstrip s) = word_search w p s.
Proof.
  intros Hw. revert p. induction s as [|c t IH]; intros p; [reflexivity|].
  pose proof (word_at_rstrip w p (c :: t) Hw) as Ha.
  rewrite rstrip_cons in *. destruct (rstrip t) as [|d r] eqn:Hr.
  - assert (Ht : word_search w (Some c) t = false).
    { apply word_search_spaces; [exact Hw|]. now apply rstrip_nil. }
    rewrite (word_search_cons w p c t), Ht, orb_false_r, <- Ha.
    destruct (is_space c).
    + cbn [word_search]. now rewrite orb_false_r.
    + rewrite (word_search_cons w p c []). cbn [word_search].
      rewrite (word_at_nil w (Some c) Hw). now rewrite orb_false_r.
  - rewrite !word_search_cons, Ha. f_equal. exact (IH (Some c)).
Qed.

Lemma word_search_strip (w : str) (s : str) :
  solid w -> word_search w None (strip s) = word_search w None s.
Proof.
  intros Hw. unfold strip.
  rewrite (word_search_rstrip w None (lstrip s) Hw).
  now apply word_search_lstrip.
Qed.

Lemma existsb_map_ext (A B : Type) (f : B -> bool) (g : A -> B)
    (h : A -> bool) (l : list A) :
  (forall x, f (g x) = h x) -> existsb f (map g l) = existsb h l.
Proof.
  intros H. induction l as [|x l IH]; [reflexivity|].
  cbn [map existsb]. now rewrite H, IH.
Qed.

(** X10 (find_header_row).  The header row is the first of the first 25
    rows that has a cell with the word Rank and a cell with the word Name,
    and row 0 when those rows have none; a row further down is never
    chosen. *)
Theorem find_header_row_first (df : table) :
  let h := EventRows.find_header_row df in
  let header i := EventRows.is_header_row (nth i df []) in
  h < 25
  /\ (df <> [] -> h < length df)
  /\ (forall i, i < h -> header i = false)
  /\ (forall i, i < length df -> i < 25 -> header i = true ->
      header h = true /\ h <= i)
  /\ (header h = false -> h = 0).
Proof.
  cbv zeta. unfold EventRows.find_header_row.
  set (n := Nat.min (length df) 25).
  set (P := fun i => EventRows.is_header_row (nth i df [])).
  assert (Hn : n <= length df /\ n <= 25) by (subst n; lia).
  assert (Hgen : forall k a,
    match find P (seq a k) with
    | Some i => a <= i < a + k /\ P i = true
                /\ forall j, a <= j < i -> P j = false
    | None => forall j, a <= j < a + k -> P j = false
    end).
  { induction k as [|k IH]; intros a; cbn [seq find].
    - intros j Hj. lia.
    - destruct (P a) eqn:Ea.
      + repeat split; intros; try lia; exact Ea.
      + specialize (IH (S a)). destruct (find P (seq (S a) k)) as [i|].
        * destruct IH as (Hi & HP & Hlt). repeat split; try lia; [exact HP|].
          intros j Hj. destruct (Nat.eq_dec j a) as [->|Hne]; [exact Ea|].
          apply Hlt. lia.
        * intros j Hj. destruct (Nat.eq_dec j a) as [->|Hne]; [exact Ea|].
          apply IH. lia. }
  specialize (Hgen n 0). destruct (find P (seq 0 n)) as [h|].
  - destruct Hgen as (Hh & HP & Hlt). repeat split; intros; try lia.
    + apply Hlt. lia.
    + exact HP.
    + destruct (Nat.le_gt_cases h i) as [Hle|Hgt]; [exact Hle|].
      assert (P i = false) by (apply Hlt; lia). unfold P in *. congruence.
    + unfold P in HP. congruence.
  - repeat split; intros; try lia.
    + destruct df; [congruence|cbn [length]; lia].
    + assert (P i = false) by (apply Hgen; subst n; lia).
      unfold P in *. congruence.
Qed.

(** X11 (find_header_row).  Trimming the cells has no effect on the test
    for a header row: a cell has the word Rank (or Name) after trimming
    exactly when it has it before, so the row test can be read on the raw
    cells. *)
Theorem header_test_ignores_trim (row : list str) :
  EventRows.is_header_row row
  = existsb (has_word "Rank") row && existsb (has_word "Name") row.
Proof.
  unfold EventRows.is_header_row.
  rewrite (existsb_map_ext _ _ (has_word "Rank") strip (has_word "Rank")).
  rewrite (existsb_map_ext _ _ (has_word "Name") strip (has_word "Name")).
  - reflexivity.
  - intros x. apply word_search_strip. split; [discriminate|reflexivity].
  - intros x. apply word_search_strip. split; [discriminate|reflexivity].
Qed.

(** ** The cleaned table of a page *)

Lemma find_header_row_bound (df : table) :
  df <> [] -> EventRows.find_header_row df < length df.
Proof.
  intros Hne. unfold EventRows.find_header_row.
  destruct (find _ _) as [i|] eqn:E.
  - apply find_some in E. destruct E as [Hin _].
    apply in_seq in Hin. lia.
  - destruct df; [congruence|cbn [length]; lia].
Qed.

Lemma in_skipn (A : Type) (n : nat) (l : list A) (x : A) :
  In x (skipn n l) -> In x l.
Proof.
  intros H. rewrite <- (firstn_skipn n l). apply in_or_app. now right.
Qed.

Lemma strip_idem (s : str) : strip (strip s) = strip s.
Proof.
  unfold strip.
  assert (H : lstrip (rstrip (lstrip s)) = rstrip (lstrip s)).
  { pose proof (rstrip_starts _ (lstrip_starts s)) as Hs.
    destruct (rstrip (lstrip s)) as [|c r]; [reflexivity|].
    cbn [starts_space] in Hs. cbn [lstrip]. now rewrite Hs. }
  rewrite H. apply rstrip_idem.
Qed.

Lemma make_unique_columns_length (cols : list str) :
  length (EventTables.make_unique_columns cols) = length cols.
Proof.
  rewrite make_unique_columns_closed. now rewrite length_map, length_seq.
Qed.

(** X12 (clean_table_keep_all_cols).  Cleaning fails exactly on a table
    without rows.  Otherwise the result has one label for every column of
    the table that is not fully empty, fewer rows than the table, and each
    of its rows has one cell per label, a cell that is not empty, and only
    trimmed cells. *)
Theorem clean_table_shape (t : table) :
  (EventRows.clean_table_keep_all_cols t = None <-> t = [])
  /\ forall cols rows,
       EventRows.clean_table_keep_all_cols t = Some (cols, rows) ->
       length cols = length (EventRows.kept_columns t)
       /\ length rows < length t
       /\ forall r, In r rows ->
            length r = length cols
            /\ EventRows.all_blank r = false
            /\ (forall c, In c r -> strip c = c).
Proof.
  unfold EventRows.clean_table_keep_all_cols.
  set (js := EventRows.kept_columns t).
  set (df := map (EventRows.select js) t).
  set (h := EventRows.find_header_row df).
  assert (Hlen : length df = length t) by (unfold df; apply length_map).
  assert (Hrow : forall r, In r df -> length r = length js).
  { intros r Hin. unfold df in Hin. apply in_map_iff in Hin.
    destruct Hin as (r0 & <- & _). unfold EventRows.select.
    apply length_map. }
  split.
  - split.
    + destruct (nth_error df h) eqn:E; [discriminate|]. intros _.
      apply nth_error_None in E.
      destruct t as [|r t']; [reflexivity|].
      assert (Hne : df <> []) by (unfold df; discriminate).
      pose proof (find_header_row_bound df Hne). fold h in H. lia.
    + intros ->. reflexivity.
  - intros cols rows H.
    destruct (nth_error df h) as [hdr|] eqn:E; [|discriminate].
    injection H as <- <-.
    assert (Hh : h < length df) by (apply nth_error_Some; congruence).
    split; [|split].
    + rewrite !make_unique_columns_length, length_map.
      apply Hrow. eapply nth_error_In. exact E.
    + eapply Nat.le_lt_trans; [apply filter_length_le|].
      rewrite length_map, length_skipn. lia.
    + intros r Hin. apply filter_In in Hin. destruct Hin as [Hin Hb].
      apply in_map_iff in Hin. destruct Hin as (r0 & <- & Hin).
      split; [|split].
      * rewrite !make_unique_columns_length, !length_map.
        rewrite (Hrow hdr) by (eapply nth_error_In; exact E).
        apply Hrow. exact (in_skipn _ _ _ _ Hin).
      * now apply negb_true_iff.
      * intros c Hc. apply in_map_iff in Hc. destruct Hc as (c0 & <- & _).
        apply strip_idem.
Qed.

(** ** The run over the pages *)

(** X13 (parse_events_pdf).  The table taken from a page is one of the
    page's tables, no table of the page is larger (rows times columns),
    and every table before it is strictly smaller: of several largest
    tables the first is taken. *)
Theorem largest_first_maximal (t : table) (rest : list table) :
  let m := EventRun.largest_from t rest in
  exists i,
    nth_error (t :: rest) i = Some m
    /\ (forall u, In u (t :: rest) ->
        EventRun.shape_size u <= EventRun.shape_size m)
    /\ (forall j u, j < i -> nth_error (t :: rest) j = Some u ->
        EventRun.shape_size u < EventRun.shape_size m).
Proof.
  cbv zeta. revert t. induction rest as [|t' rest IH]; intros t.
  - exists 0. cbn [EventRun.largest_from]. split; [reflexivity|]. split.
    + intros u [<-|[]]. lia.
    + intros j u Hj. lia.
  - cbn [EventRun.largest_from].
    destruct (Nat.ltb_spec (EventRun.shape_size t) (EventRun.shape_size t'))
      as [Hlt|Hge].
    + destruct (IH t') as (i & Hi & Hall & Hbefore).
      assert (Ht' : EventRun.shape_size t'
                    <= EventRun.shape_size (EventRun.largest_from t' rest))
        by (apply Hall; now left).
      exists (S i). split; [exact Hi|]. split.
      * intros u [<-|Hu]; [lia|now apply Hall].
      * intros [|j] u Hj Hu.
        -- injection Hu as <-. lia.
        -- apply (Hbefore j u); [lia|exact Hu].
    + destruct (IH t) as (i & Hi & Hall & Hbefore).
      assert (Ht : EventRun.shape_size t
                   <= EventRun.shape_size (EventRun.largest_from t rest))
        by (apply Hall; now left).
      destruct i as [|i].
      * exists 0. injection Hi as Hi. rewrite <- Hi. split; [reflexivity|].
        split.
        -- intros u [<-|[<-|Hu]]; try lia.
           rewrite Hi. apply Hall. now right.
        -- intros j u Hj. lia.
      * exists (S (S i)). split; [exact Hi|]. split.
        -- intros u [<-|[<-|Hu]]; try lia. apply Hall. now right.
        -- assert (H0 : EventRun.shape_size t
                        < EventRun.shape_size (EventRun.largest_from t rest))
             by (apply (Hbefore 0 t); [lia|reflexivity]).
           intros [|[|j]] u Hj Hu.
           ++ injection Hu as <-. exact H0.
           ++ injection Hu as <-. lia.
           ++ apply (Hbefore (S j) u); [lia|exact Hu].
Qed.

Section RunFacts.
Context {PF : PyFloat}.
Variable parse_numeric : str -> option float.

Lemma column_In (d : frame) (c : str) (col : list value) :
  column d c = Some col -> In (c, col) d.
Proof.
  unfold column. destruct (find _ d) as [[c' col']|] eqn:E; [|discriminate].
  cbn [option_map snd]. intros H. injection H as ->.
  apply find_some in E. destruct E as [Hin E]. cbn [fst] in E.
  apply str_eqb_eq in E. now subst.
Qed.

Lemma column_None (d : frame) (c : str) :
  column d c = None -> ~ In c (columns d).
Proof.
  unfold column, columns. intros H Hin. apply in_map_iff in Hin.
  destruct Hin as ([c' col] & Hc & Hin). cbn [fst] in Hc. subst c'.
  destruct (find _ d) eqn:E; [discriminate|].
  pose proof (find_none _ _ E _ Hin) as Hn. cbn [fst] in Hn.
  now rewrite str_eqb_refl in Hn.
Qed.

Lemma columns_to_frame (cols : list str) (rows : table) :
  columns (EventRun.to_frame cols rows) = cols.
Proof.
  unfold columns, EventRun.to_frame. rewrite map_map. cbn [fst].
  apply nth_error_ext. intros i. rewrite nth_error_map, nth_error_seq.
  destruct (Nat.ltb_spec i (length cols)) as [Hi|Hi]; cbn [option_map Nat.add].
  - symmetry. now apply nth_error_nth'.
  - symmetry. now apply nth_error_None.
Qed.

(** What a frame appended by the loop over the pages looks like. *)
Lemma page_frame_shape (p : EventRun.page) (d : frame) :
  EventRun.page_frame p = EventRun.PageFrame d ->
  exists t rest cols rows,
    EventRun.tables p = t :: rest
    /\ EventRows.clean_table_keep_all_cols (EventRun.largest_from t rest)
       = Some (cols, rows)
    /\ cols <> [] /\ rows <> []
    /\ str_mem (of_string "Event") cols = false
    /\ d = (of_string "Event",
            repeat (VStr (EventRun.page_event p)) (length rows))
           :: EventRun.rename_pen (EventRun.to_frame cols rows).
Proof.
  unfold EventRun.page_frame. destruct (EventRun.tables p) as [|t rest];
    [discriminate|].
  destruct (EventRows.clean_table_keep_all_cols _) as [[cols rows]|] eqn:E;
    [|discriminate].
  destruct cols as [|c cols]; [discriminate|].
  destruct rows as [|r rows]; [discriminate|].
  unfold EventRun.insert_event. rewrite columns_to_frame.
  destruct (str_mem _ (c :: cols)) eqn:Hm; [discriminate|].
  intros H. injection H as <-.
  exists t, rest, (c :: cols), (r :: rows).
  repeat split; try discriminate; try assumption.
Qed.

Lemma page_frame_rows (p : EventRun.page) (d : frame) :
  EventRun.page_frame p = EventRun.PageFrame d ->
  0 < nrows d
  /\ hd_error (columns d) = Some (of_string "Event")
  /\ column d (of_string "Event")
     = Some (repeat (VStr (EventRun.page_event p)) (nrows d))
  /\ forall c col, In (c, col) d -> length col = nrows d.
Proof.
  intros H. destruct (page_frame_shape p d H)
    as (t & rest & cols & rows & _ & _ & _ & Hr & _ & ->).
  cbn [nrows]. rewrite repeat_length.
  split; [destruct rows; [congruence|cbn [length]; lia]|].
  split; [reflexivity|]. split; [reflexivity|].
  intros c col [Hin|Hin].
  - injection Hin as _ <-. apply repeat_length.
  - unfold EventRun.rename_pen, EventRun.to_frame in Hin.
    rewrite map_map in Hin. apply in_map_iff in Hin.
    destruct Hin as (j & Hj & _). cbn [fst snd] in Hj.
    injection Hj as _ <-. apply length_map.
Qed.

Lemma collect_frames (pages : list EventRun.page) (all_rows : list frame) :
  EventRun.collect pages = Some all_rows ->
  all_rows
  = flat_map (fun p => match EventRun.page_frame p with
                       | EventRun.PageFrame d => [d]
                       | _ => []
                       end) pages.
Proof.
  revert all_rows. induction pages as [|p ps IH]; intros all_rows;
    cbn [EventRun.collect flat_map].
  - intros H. now injection H as <-.
  - destruct (EventRun.page_frame p) as [| |d]; [discriminate| |].
    + intros H. cbn [app]. now apply IH.
    + destruct (EventRun.collect ps) as [l|]; [|discriminate].
      cbn [option_map]. intros H. injection H as <-.
      cbn [app]. f_equal. now apply IH.
Qed.

Lemma collect_none (pages : list EventRun.page) :
  EventRun.collect pages = None
  <-> exists p, In p pages /\ EventRun.page_frame p = EventRun.PageRaised.
Proof.
  induction pages as [|p ps IH]; cbn [EventRun.collect].
  - split; [discriminate|]. now intros (p & [] & _).
  - destruct (EventRun.page_frame p) as [| |d] eqn:E.
    + split; [|reflexivity]. intros _. exists p. split; [now left|exact E].
    + rewrite IH. split; intros (q & Hin & Hq).
      * exists q. split; [now right|exact Hq].
      * destruct Hin as [<-|Hin]; [congruence|]. now exists q.
    + destruct (EventRun.collect ps) as [l|]; cbn [option_map].
      * split; [discriminate|]. intros (q & [<-|Hin] & Hq); [congruence|].
        destruct IH as [_ IH]. discriminate IH. now exists q.
      * split; [|reflexivity]. intros _.
        destruct IH as [IH _]. destruct (IH eq_refl) as (q & Hin & Hq).
        exists q. split; [now right|exact Hq].
Qed.

Lemma all_some_none (A B : Type) (f : A -> option B) (l : list A) (x : A) :
  In x l -> f x = None -> Events.all_some (map f l) = None.
Proof.
  intros Hin Hx. induction l as [|y l IH]; [destruct Hin|].
  cbn [map Events.all_some]. destruct Hin as [->|Hin].
  - now rewrite Hx.
  - destruct (f y); [|reflexivity]. now rewrite (IH Hin).
Qed.

(** Step 3 succeeds exactly when no frame repeats a label, and then
    stacks the columns. *)
Lemma align_stacked (all_rows : list frame) :
  match Events.align all_rows with
  | Some out_df =>
      Forall (fun d => Events.has_dup (columns d) = false) all_rows
      /\ columns out_df = Events.master_cols all_rows
      /\ forall c,
           In c (Events.master_cols all_rows) ->
           column out_df c
           = Some (flat_map
                     (fun d => match column d c with
                               | Some col => col
                               | None => repeat (VNum fnan) (nrows d)
                               end)
                     all_rows)
  | None => exists d, In d all_rows /\ Events.has_dup (columns d) = true
  end.
Proof.
  set (master := Events.master_cols all_rows).
  set (fill := fun (d : frame) (c : str) =>
                 match column d c with
                 | Some col => col
                 | None => repeat (VNum fnan) (nrows d)
                 end).
  set (re := fun d : frame => map (fun c => (c, fill d c)) master).
  destruct (existsb (fun d => Events.has_dup (columns d)) all_rows) eqn:Ex.
  - apply existsb_exists in Ex. destruct Ex as (d & Hin & Hd).
    assert (Hn : Events.all_some (map (Events.reindex master) all_rows)
                 = None).
    { apply (all_some_none _ _ _ all_rows d Hin).
      unfold Events.reindex. now rewrite Hd. }
    unfold Events.align. fold master. rewrite Hn. cbn [option_map].
    now exists d.
  - assert (Hnd : Forall (fun d => Events.has_dup (columns d) = false)
                         all_rows).
    { apply Forall_forall. intros d Hin.
      destruct (Events.has_dup (columns d)) eqn:Hd; [|reflexivity].
      rewrite <- Ex. symmetry. apply existsb_exists. now exists d. }
    assert (Hn : Events.all_some (map (Events.reindex master) all_rows)
                 = Some (map re all_rows)).
    { apply all_some_map. intros d Hin. rewrite Forall_forall in Hnd.
      unfold Events.reindex. now rewrite (Hnd d Hin). }
    unfold Events.align. fold master. rewrite Hn. cbn [option_map].
    split; [exact Hnd|]. split.
    + unfold Events.concat, columns. rewrite map_map. cbn [fst].
      apply map_id.
    + intros c Hin. unfold Events.concat.
      rewrite (column_of_map
                 (fun x => flat_map (fun d => match column d x with
                                              | Some col => col
                                              | None => []
                                              end) (map re all_rows))
                 master c Hin).
      f_equal. rewrite flat_map_concat_map, map_map, <- flat_map_concat_map.
      apply flat_map_ext. intros d. unfold re.
      now rewrite (column_of_map (fill d) master c Hin).
Qed.

Lemma columns_numeric_pass (skip : list str) (f : list value -> list value)
    (d : frame) :
  columns (numeric_pass skip f d) = columns d.
Proof.
  unfold columns, numeric_pass. rewrite map_map. apply map_ext.
  intros [c col]. cbn [fst]. now destruct (str_mem c skip).
Qed.

Lemma column_numeric_pass (skip : list str) (f : list value -> list value)
    (d : frame) (c : str) :
  column (numeric_pass skip f d) c
  = if str_mem c skip then column d c else option_map f (column d c).
Proof.
  unfold column, numeric_pass. induction d as [|[x col] d IH].
  - cbn. now destruct (str_mem c skip).
  - cbn [map find fst]. destruct (str_mem x skip) eqn:Hs; cbn [fst].
    + destruct (str_eqb x c) eqn:E; [|exact IH].
      apply str_eqb_eq in E. subst x. now rewrite Hs.
    + destruct (str_eqb x c) eqn:E; [|exact IH].
      apply str_eqb_eq in E. subst x. now rewrite Hs.
Qed.

Lemma length_to_numeric_ignore (col : list value) :
  length (to_numeric_ignore parse_numeric col) = length col.
Proof.
  unfold to_numeric_ignore. destruct (forallb _ col); [apply length_map|].
  reflexivity.
Qed.

Lemma master_cols_head (d : frame) (rest : list frame) (c : str) :
  hd_error (columns d) = Some c ->
  hd_error (Events.master_cols (d :: rest)) = Some c.
Proof.
  rewrite master_cols_first_seen. cbn [flat_map].
  destruct (columns d) as [|x l]; [discriminate|].
  intros H. injection H as ->. reflexivity.
Qed.
End RunFacts.

Section RunClaims.
Context {PF : PyFloat}.
Variable parse_numeric : str -> option float.

Lemma stacked_over_pages (F : frame -> list value)
    (pages : list EventRun.page) :
  flat_map F
    (flat_map (fun p => match EventRun.page_frame p with
                        | EventRun.PageFrame d => [d]
                        | _ => []
                        end) pages)
  = flat_map (fun p => match EventRun.page_frame p with
                       | EventRun.PageFrame d => F d
                       | _ => []
                       end) pages.
Proof.
  induction pages as [|p ps IH]; [reflexivity|].
  cbn [flat_map]. rewrite flat_map_app, IH. f_equal.
  destruct (EventRun.page_frame p); cbn [flat_map]; now rewrite ?app_nil_r.
Qed.

Lemma in_collect (pages : list EventRun.page) (all_rows : list frame)
    (d : frame) :
  EventRun.collect pages = Some all_rows ->
  In d all_rows <->
  exists p, In p pages /\ EventRun.page_frame p = EventRun.PageFrame d.
Proof.
  intros Hc. rewrite (collect_frames pages all_rows Hc), in_flat_map.
  split; intros (p & Hin & Hp); exists p; (split; [exact Hin|]).
  - destruct (EventRun.page_frame p) as [| |d']; try destruct Hp.
    + now subst.
    + destruct H.
  - rewrite Hp. now left.
Qed.

Lemma columns_rename_pen (d : frame) :
  columns (EventRun.rename_pen d) = map (replace "Pen." "Pen") (columns d).
Proof.
  unfold columns, EventRun.rename_pen. now rewrite !map_map.
Qed.

Lemma columns_cons (c : str) (col : list value) (d : frame) :
  columns ((c, col) :: d) = c :: columns d.
Proof. reflexivity. Qed.

Lemma page_frame_breaks (p : EventRun.page) :
  match EventRun.page_frame p with
  | EventRun.PageRaised => breaks p = true
  | EventRun.PageSkipped => breaks p = false
  | EventRun.PageFrame d => breaks p = Events.has_dup (columns d)
  end.
Proof.
  unfold EventRun.page_frame, breaks.
  destruct (EventRun.tables p) as [|t rest]; [reflexivity|].
  destruct (EventRows.clean_table_keep_all_cols _) as [[cols rows]|];
    [|reflexivity].
  destruct cols as [|c cols]; [reflexivity|].
  destruct rows as [|r rows]; [reflexivity|].
  unfold EventRun.insert_event. rewrite columns_to_frame.
  cbn [length Nat.eqb negb andb].
  destruct (str_mem (of_string "Event") (c :: cols)) eqn:Hm.
  - cbn [Events.has_dup]. apply orb_true_iff. left.
    unfold str_mem in *. apply existsb_exists in Hm.
    destruct Hm as (x & Hin & Hx). apply str_eqb_eq in Hx. subst x.
    apply existsb_exists. exists (of_string "Event"). split.
    + apply in_map_iff. exists (of_string "Event"). now split.
    + apply str_eqb_refl.
  - rewrite columns_rename_pen, columns_cons, columns_to_frame.
    reflexivity.
Qed.

(** X14 (parse_events_pdf).  In the table that is saved the first column
    is Event and no label is repeated.  The Event column holds, page after
    page, the event detected on the page, once for every row the page
    gives; and every column has one cell for each of these rows. *)
Theorem saved_event_column (pages : list EventRun.page) (out_df : frame) :
  EventRun.parse_events_pdf parse_numeric pages = EventRun.Saved out_df ->
  hd_error (columns out_df) = Some (of_string "Event")
  /\ NoDup (columns out_df)
  /\ column out_df (of_string "Event")
     = Some (flat_map
               (fun p => repeat (VStr (EventRun.page_event p))
                                (EventRun.page_rows p))
               pages)
  /\ forall c col,
       column out_df c = Some col ->
       length col = list_sum (map EventRun.page_rows pages).
Proof.
  unfold EventRun.parse_events_pdf.
  destruct (EventRun.collect pages) as [all_rows|] eqn:Hc; [|discriminate].
  pose proof (collect_frames pages all_rows Hc) as Hfr.
  pose proof (align_stacked all_rows) as Ha.
  destruct all_rows as [|d0 rest]; [discriminate|].
  destruct (Events.align (d0 :: rest)) as [al|]; [|discriminate].
  destruct Ha as (_ & Hcols & Hstack).
  intros H. injection H as <-.
  unfold Events.numeric_best_effort.
  rewrite columns_numeric_pass, Hcols.
  assert (Hd0 : hd_error (columns d0) = Some (of_string "Event")).
  { destruct (proj1 (in_collect pages _ d0 Hc) (or_introl eq_refl))
      as (p & _ & Hp).
    now destruct (page_frame_rows p d0 Hp) as (_ & H & _). }
  assert (Hhd : hd_error (Events.master_cols (d0 :: rest))
                = Some (of_string "Event"))
    by (now apply master_cols_head).
  assert (Hev : In (of_string "Event") (Events.master_cols (d0 :: rest))).
  { destruct (Events.master_cols (d0 :: rest)); [discriminate|].
    injection Hhd as ->. now left. }
  split; [exact Hhd|]. split.
  { rewrite master_cols_first_seen. apply first_seen_NoDup. }
  split.
  - rewrite column_numeric_pass.
    change (str_mem (of_string "Event")
                    [of_string "Event"; of_string "Name"]) with true.
    cbv iota. rewrite (Hstack _ Hev). apply (f_equal Some).
    rewrite Hfr, stacked_over_pages.
    apply flat_map_ext. intros p. unfold EventRun.page_rows.
    pose proof (page_frame_rows p) as Hp.
    destruct (EventRun.page_frame p) as [| |d]; try reflexivity.
    destruct (Hp d eq_refl) as (_ & _ & -> & _). reflexivity.
  - intros c col Hcol. rewrite column_numeric_pass in Hcol.
    assert (Hal : exists col', column al c = Some col'
                               /\ length col = length col').
    { destruct (str_mem c _); [now exists col|].
      destruct (column al c) as [col'|]; [|discriminate].
      cbn [option_map] in Hcol. injection Hcol as <-.
      exists col'. split; [reflexivity|].
      apply length_to_numeric_ignore. }
    destruct Hal as (col' & Hcol' & ->).
    assert (Hin : In c (Events.master_cols (d0 :: rest))).
    { rewrite <- Hcols. apply column_In in Hcol'.
      unfold columns. apply in_map_iff. now exists (c, col'). }
    rewrite (Hstack c Hin) in Hcol'.
    set (stack := flat_map _ _) in Hcol'. injection Hcol' as <-.
    subst stack.
    rewrite Hfr, stacked_over_pages.
    rewrite length_flat_map. apply (f_equal list_sum).
    apply map_ext. intros p.
    unfold EventRun.page_rows.
    pose proof (page_frame_rows p) as Hp.
    destruct (EventRun.page_frame p) as [| |d]; try reflexivity.
    destruct (Hp d eq_refl) as (_ & _ & _ & Hlen).
    destruct (column d c) as [x|] eqn:Ex.
    + apply (Hlen c). now apply column_In.
    + apply repeat_length.
Qed.

(** X15 (parse_events_pdf).  The run ends in an exception exactly when
    some page breaks it: the largest table of the page has no row, or the
    labels of its cleaned table, with Event in front and Pen. renamed to
    Pen, are not pairwise distinct. *)
Theorem run_raises_iff (pages : list EventRun.page) :
  EventRun.parse_events_pdf parse_numeric pages = EventRun.Raised
  <-> existsb breaks pages = true.
Proof.
  rewrite existsb_exists. unfold EventRun.parse_events_pdf. split.
  - destruct (EventRun.collect pages) as [all_rows|] eqn:Hc.
    + destruct all_rows as [|d0 rest]; [discriminate|].
      pose proof (align_stacked (d0 :: rest)) as Ha.
      destruct (Events.align (d0 :: rest)) as [al|]; [discriminate|].
      intros _. destruct Ha as (d & Hin & Hd).
      apply (in_collect pages _ d Hc) in Hin. destruct Hin as (p & Hin & Hp).
      exists p. split; [exact Hin|].
      pose proof (page_frame_breaks p) as Hb. rewrite Hp in Hb. congruence.
    + intros _. apply collect_none in Hc. destruct Hc as (p & Hin & Hp).
      exists p. split; [exact Hin|].
      pose proof (page_frame_breaks p) as Hb. now rewrite Hp in Hb.
  - intros (p & Hin & Hb).
    destruct (EventRun.collect pages) as [all_rows|] eqn:Hc; [|reflexivity].
    pose proof (page_frame_breaks p) as Hp.
    destruct (EventRun.page_frame p) as [| |d] eqn:Ep.
    + assert (EventRun.collect pages = None)
        by (apply collect_none; now exists p).
      congruence.
    + congruence.
    + assert (Hd : In d all_rows)
        by (apply (in_collect pages _ d Hc); now exists p).
      destruct all_rows as [|d0 rest]; [destruct Hd|].
      pose proof (align_stacked (d0 :: rest)) as Ha.
      destruct (Events.align (d0 :: rest)) as [al|]; [|reflexivity].
      destruct Ha as (Hnd & _). rewrite Forall_forall in Hnd.
      specialize (Hnd d Hd). congruence.
Qed.
End RunClaims.

Lemma is_saved_some {PF : PyFloat} (o : EventRun.outcome) :
  is_saved o = true -> exists out_df, o = EventRun.Saved out_df.
Proof. destruct o; try discriminate. intros _. now eexists. Qed.

Lemma saved_event_column_witness :
  map EventRun.page_event sample_pages
  = [of_string "Vault"; of_string "Unknown"]
  /\ map (EventRun.page_rows (PF := Decimal.decimal)) sample_pages = [1; 2]
  /\ exists out_df,
       EventRun.parse_events_pdf (PF := Decimal.decimal) sample_numeric
                                 sample_pages
       = EventRun.Saved out_df
       /\ column out_df (of_string "Event")
          = Some (flat_map
                    (fun p => repeat (VStr (EventRun.page_event p))
                                     (EventRun.page_rows
                                        (PF := Decimal.decimal) p))
                    sample_pages).
Proof.
  split; [vm_compute; reflexivity|]. split; [vm_compute; reflexivity|].
  destruct (is_saved_some
              (EventRun.parse_events_pdf (PF := Decimal.decimal)
                                         sample_numeric sample_pages))
    as [out_df Hout]; [vm_compute; reflexivity|].
  exists out_df. split; [exact Hout|].
  exact (proj1 (proj2 (proj2
           (saved_event_column sample_numeric sample_pages out_df Hout)))).
Defined.

Section RunOutcomes.
Context {PF : PyFloat}.
Variable parse_numeric : str -> option float.

Lemma page_frame_skipped (p : EventRun.page) :
  EventRun.page_frame p = EventRun.PageSkipped <-> skipped p = true.
Proof.
  unfold EventRun.page_frame, skipped.
  destruct (EventRun.tables p) as [|t rest]; [tauto|].
  destruct (EventRows.clean_table_keep_all_cols _) as [[cols rows]|];
    [|split; discriminate].
  destruct cols as [|c cols]; [tauto|].
  destruct rows as [|r rows]; [tauto|].
  cbn [length Nat.eqb orb].
  destruct (EventRun.insert_event _ _ _); split; discriminate.
Qed.

Lemma collect_nil (pages : list EventRun.page) :
  EventRun.collect pages = Some [] <-> forallb skipped pages = true.
Proof.
  induction pages as [|p ps IH]; cbn [EventRun.collect forallb];
    [tauto|].
  pose proof (page_frame_skipped p) as Hp.
  destruct (EventRun.page_frame p) as [| |d].
  - destruct (skipped p); [|split; discriminate].
    destruct Hp as [_ Hp]. discriminate (Hp eq_refl).
  - rewrite (proj1 Hp eq_refl). exact IH.
  - destruct (skipped p).
    + destruct Hp as [_ Hp]. discriminate (Hp eq_refl).
    + destruct (EventRun.collect ps); split; discriminate.
Qed.

(** X19 (parse_events_pdf).  The run stops with "No tables extracted." and
    writes no file exactly when every page is skipped: the page has no
    table, or its largest table, once cleaned, has no label or no row. *)
Theorem run_no_tables_iff (pages : list EventRun.page) :
  EventRun.parse_events_pdf parse_numeric pages = EventRun.NoTables
  <-> forallb skipped pages = true.
Proof.
  rewrite <- collect_nil. unfold EventRun.parse_events_pdf.
  destruct (EventRun.collect pages) as [[|d rest]|].
  - tauto.
  - destruct (Events.align (d :: rest)); split; discriminate.
  - split; discriminate.
Qed.
End RunOutcomes.

(** ** The tables of the all-around scripts *)

Section TableFacts.
Context {PF : PyFloat}.
Variable parse_numeric : str -> option float.

Lemma add_col_known (l m : list str) :
  (forall c, In c l -> In c m) -> fold_left Events.add_col l m = m.
Proof.
  induction l as [|c l IH]; intros H; [reflexivity|].
  cbn [fold_left]. unfold Events.add_col at 2.
  rewrite (proj2 (str_mem_In c m) (H c (or_introl eq_refl))).
  apply IH. intros x Hx. apply H. now right.
Qed.

(** Dicts with the same labels give these labels as columns. *)
Lemma keys_union_same (K : list str) (rows : list dict) :
  fold_left Events.add_col K [] = K ->
  rows <> [] ->
  Forall (fun r => map fst r = K) rows ->
  keys_union rows = K.
Proof.
  intros HK Hne Hall. unfold keys_union.
  destruct rows as [|r rows]; [congruence|].
  apply Forall_cons_iff in Hall. destruct Hall as [Hr Hrest].
  cbn [fold_left]. rewrite Hr, HK. clear Hne Hr.
  induction rows as [|r' rows IH]; [reflexivity|].
  apply Forall_cons_iff in Hrest. destruct Hrest as [Hr' Hrest].
  cbn [fold_left]. rewrite Hr', (add_col_known K K (fun c H => H)).
  now apply IH.
Qed.

Lemma select_of_map (F : str -> list value) (K cols : list str) :
  (forall c, In c cols -> In c K) ->
  select_columns cols (map (fun k => (k, F k)) K)
  = map (fun c => (c, F c)) cols.
Proof.
  intros H. unfold select_columns. apply map_ext_in. intros c Hc.
  now rewrite (column_of_map F K c (H c Hc)).
Qed.

Lemma add_missing_known (n : nat) (cols : list str) (d : frame) :
  (forall c, In c cols -> In c (columns d)) ->
  fold_left (TeamTable.add_missing n) cols d = d.
Proof.
  induction cols as [|c cols IH]; intros H; [reflexivity|].
  cbn [fold_left]. unfold TeamTable.add_missing at 2.
  rewrite (proj2 (str_mem_In c (columns d)) (H c (or_introl eq_refl))).
  apply IH. intros x Hx. apply H. now right.
Qed.

Lemma numeric_cleanup_map (F : str -> list value) (cols : list str) :
  numeric_cleanup parse_numeric (map (fun c => (c, F c)) cols)
  = map (fun c => (c, if str_mem c [of_string "Name"; of_string "NOC"]
                      then F c
                      else map (coerce_cell parse_numeric) (F c)))
        cols.
Proof.
  unfold numeric_cleanup, numeric_pass. rewrite map_map.
  apply map_ext. intros c. cbn [fst snd].
  now destruct (str_mem c _).
Qed.

(** The table of dicts that all carry the labels [K], a rearrangement of
    [COLS]. *)
Lemma cleaned_table (K : list str) (rows : list dict) :
  fold_left Events.add_col K [] = K ->
  (forall c, In c COLS -> In c K) ->
  rows <> [] ->
  Forall (fun r => map fst r = K) rows ->
  numeric_cleanup parse_numeric (select_columns COLS (from_dicts rows))
  = table_of parse_numeric rows
  /\ forall c, In c COLS -> In c (columns (from_dicts rows)).
Proof.
  intros HK Hsub Hne Hall. unfold from_dicts.
  rewrite (keys_union_same K rows HK Hne Hall).
  split.
  - rewrite (select_of_map
               (fun k => map (fun r => match dict_get r k with
                                       | Some v => v
                                       | None => VNum fnan
                                       end) rows) K COLS Hsub).
    rewrite numeric_cleanup_map. unfold table_of. apply map_ext.
    intros c. f_equal. unfold cleaned, cell_of.
    destruct (str_mem c _); [reflexivity|]. now rewrite map_map.
  - intros c Hc. unfold columns. rewrite map_map. cbn [fst].
    rewrite map_id. now apply Hsub.
Qed.

Lemma columns_table_of (rows : list dict) :
  columns (table_of parse_numeric rows) = COLS.
Proof.
  unfold columns, table_of. rewrite map_map. cbn [fst]. apply map_id.
Qed.

Lemma column_table_of (rows : list dict) (c : str) :
  In c COLS ->
  column (table_of parse_numeric rows) c
  = Some (map (fun r => cleaned parse_numeric c (cell_of r c)) rows).
Proof.
  intros Hc. unfold table_of.
  exact (column_of_map
           (fun c => map (fun r => cleaned parse_numeric c (cell_of r c)) rows)
           COLS c Hc).
Qed.

Lemma map_filter_index (A B : Type) (f : A -> B) (g : A -> bool) (d : A)
    (l : list A) :
  forall (a : nat) (F : nat -> B) (G : nat -> bool),
    (forall i, i < length l ->
               F (a + i) = f (nth i l d) /\ G (a + i) = g (nth i l d)) ->
    map F (filter G (seq a (length l))) = map f (filter g l).
Proof.
  induction l as [|x l IH]; intros a F G H; [reflexivity|].
  cbn [length seq filter].
  destruct (H 0 (Nat.lt_0_succ _)) as [HF HG]. rewrite Nat.add_0_r in HF, HG.
  cbn [nth] in HF, HG. rewrite HG.
  assert (E : map F (filter G (seq (S a) (length l))) = map f (filter g l)).
  { apply IH. intros i Hi. specialize (H (S i)). cbn [length nth] in H.
    rewrite Nat.add_succ_r in H. apply H. lia. }
  destruct (g x); cbn [map]; now rewrite ?HF, E.
Qed.

Lemma nth_map_default (A B : Type) (f : A -> B) (l : list A) (i : nat)
    (d : A) (e : B) :
  i < length l -> nth i (map f l) e = f (nth i l d).
Proof.
  intros Hi. rewrite (nth_indep (map f l) e (f d)) by (now rewrite length_map).
  apply map_nth.
Qed.

Lemma map_constant (A B : Type) (f : A -> B) (b : B) (l : list A) :
  (forall x, In x l -> f x = b) -> map f l = repeat b (length l).
Proof.
  induction l as [|x l IH]; intros H; [reflexivity|].
  cbn [map length repeat]. rewrite (H x (or_introl eq_refl)).
  f_equal. apply IH. intros y Hy. apply H. now right.
Qed.
End TableFacts.

Section TeamTableClaims.
Context {PF : PyFloat}.
Variable parse_numeric : str -> option float.

Lemma team_parse_total (lines : list str) :
  exists recs,
    Team.parse_lines lines = Some recs
    /\ forall r, In r recs -> exists k, k <= 4 /\ resolved_groups r k.
Proof.
  destruct (loop_total lines (length lines) Team.init) as (st' & Hl & _);
    [simpl; lia|simpl; lia|split; [constructor|intros j []]|].
  exists (map snd (Team.rows st')). unfold Team.parse_lines. rewrite Hl.
  split; [reflexivity|]. intros r Hin.
  apply loop_rows_built in Hl; [|constructor].
  apply in_map_iff in Hin. destruct Hin as ([i r'] & <- & Hin).
  rewrite Forall_forall in Hl. apply Hl in Hin. cbn [snd] in *.
  destruct Hin as (cr & noc & bib & name & ds & e & Hf & ->).
  eexists. destruct (build_record_groups cr noc bib name ds e Hf)
    as (Hk & Hg & _). split; [exact Hk|exact Hg].
Qed.

(** The four entries of a record of the team script. *)
Lemma team_apps_shape (r : Team.record) (k : nat) :
  resolved_groups r k ->
  exists e1 e2 e3 e4,
    Team.apps r = [("Vault"%string, e1); ("UnevenBars"%string, e2);
                   ("BalanceBeam"%string, e3); ("Floor"%string, e4)]
    /\ Rk e1 = None /\ Rk e2 = None /\ Rk e3 = None /\ Rk e4 = None
    /\ isnan (Score e1) = negb (0 <? k)
    /\ isnan (Score e2) = negb (1 <? k)
    /\ isnan (Score e3) = negb (2 <? k)
    /\ isnan (Score e4) = negb (3 <? k).
Proof.
  intros (Hkeys & Hent & _). unfold APPARATUS in Hkeys.
  destruct (Team.apps r) as [|[a1 e1] [|[a2 e2] [|[a3 e3] [|[a4 e4] [|]]]]];
    try discriminate.
  cbn [map fst] in Hkeys. injection Hkeys as -> -> -> ->.
  assert (Hs : forall idx app e,
             nth_error [("Vault"%string, e1); ("UnevenBars"%string, e2);
                        ("BalanceBeam"%string, e3); ("Floor"%string, e4)] idx
             = Some (app, e) ->
             Rk e = None /\ isnan (Score e) = negb (idx <? k)).
  { intros idx app e H. destruct (Hent idx app e H) as [Hrk Hres].
    split; [exact Hrk|]. destruct (idx <? k).
    - unfold resolved in Hres. rewrite !andb_true_iff in Hres.
      destruct Hres as [[[Hs _] _] _]. now apply negb_true_iff in Hs.
    - destruct Hres as [-> _]. apply isnan_fnan. }
  exists e1, e2, e3, e4. split; [reflexivity|].
  destruct (Hs 0 _ _ eq_refl) as [? ?], (Hs 1 _ _ eq_refl) as [? ?],
           (Hs 2 _ _ eq_refl) as [? ?], (Hs 3 _ _ eq_refl) as [? ?].
  repeat split; assumption.
Qed.

Lemma team_dict_keys (r : Team.record) (k : nat) :
  resolved_groups r k -> map fst (TeamTable.to_dict r) = team_keys.
Proof.
  intros H. destruct (team_apps_shape r k H) as (e1 & e2 & e3 & e4 & E & _).
  destruct r as [rank bib name noc apps total]. cbn [Team.apps] in E.
  subst apps. vm_compute. reflexivity.
Qed.

(** The cells a record gives to the report. *)
Lemma team_record_cells (r : Team.record) (k : nat) :
  resolved_groups r k ->
  let d := TeamTable.to_dict r in
  let c l := cleaned parse_numeric l (cell_of d l) in
  (c (of_string "Bib"), c (of_string "Name"), c (of_string "NOC"))
  = identity_cells r
  /\ existsb (fun a => isna (c (field_label a "Score"))) APPARATUS
     = missing_score r
  /\ forall a, In a APPARATUS -> c (field_label a "Rk") = VNum fnan.
Proof.
  intros H. destruct (team_apps_shape r k H)
    as (e1 & e2 & e3 & e4 & E & R1 & R2 & R3 & R4 & _).
  destruct r as [rank bib name noc apps total]. cbn [Team.apps] in E.
  subst apps.
  destruct e1 as [s1 d1 x1 p1 r1], e2 as [s2 d2 x2 p2 r2],
           e3 as [s3 d3 x3 p3 r3], e4 as [s4 d4 x4 p4 r4].
  cbn [Rk] in R1, R2, R3, R4. subst r1 r2 r3 r4.
  cbv zeta. split; [vm_compute; reflexivity|].
  split; [vm_compute; reflexivity|].
  intros a [<-|[<-|[<-|[<-|[]]]]]; vm_compute; reflexivity.
Qed.

Lemma team_frame (recs : list Team.record) :
  recs <> [] ->
  (forall r, In r recs -> exists k, resolved_groups r k) ->
  TeamTable.frame_of parse_numeric recs
  = table_of parse_numeric (map TeamTable.to_dict recs).
Proof.
  intros Hne Hall. unfold TeamTable.frame_of.
  assert (Hlen : (0 <? length recs) = true).
  { destruct recs; [congruence|reflexivity]. }
  rewrite Hlen.
  destruct (cleaned_table parse_numeric team_keys
              (map TeamTable.to_dict recs)) as [Ht Hin].
  - vm_compute. reflexivity.
  - assert (Hsub : forallb (fun c => str_mem c team_keys) COLS = true)
      by (vm_compute; reflexivity).
    rewrite forallb_forall in Hsub. intros c Hc.
    apply str_mem_In. exact (Hsub c Hc).
  - destruct recs; [congruence|discriminate].
  - apply Forall_forall. intros d Hd. apply in_map_iff in Hd.
    destruct Hd as (r & <- & Hr). destruct (Hall r Hr) as [k Hk].
    exact (team_dict_keys r k Hk).
  - rewrite (add_missing_known _ COLS _ Hin). exact Ht.
Qed.

Lemma in_COLS (c : str) : str_mem c COLS = true -> In c COLS.
Proof. apply str_mem_In. Qed.

Lemma cell_at_table (rows : list dict) (c : str) (i : nat) (d : dict) :
  In c COLS -> i < length rows ->
  cell_at (table_of parse_numeric rows) c i
  = cleaned parse_numeric c (cell_of (nth i rows d) c).
Proof.
  intros Hc Hi. unfold cell_at. rewrite (column_table_of _ rows c Hc).
  exact (nth_map_default _ _
           (fun r => cleaned parse_numeric c (cell_of r c)) rows i d VNone Hi).
Qed.

(** X16 (parse_pdf_team).  The scan of the team script always returns its
    rows.  Without rows the table has no column at all; otherwise its
    labels are the 25 labels of [cols] in that order, every column has
    one cell per row, and the four rank columns hold NaN only. *)
Theorem team_table_columns (raw : list (list cell)) :
  exists rows,
    Team.parse_lines (build_lines raw) = Some rows
    /\ TeamTable.parse_pdf_team parse_numeric raw
       = Some (TeamTable.frame_of parse_numeric rows,
               TeamTable.partials parse_numeric rows)
    /\ let df := TeamTable.frame_of parse_numeric rows in
       (rows = [] -> df = [])
       /\ (rows <> [] ->
           columns df = COLS
           /\ length COLS = 25
           /\ (forall c, In c COLS ->
               exists col, column df c = Some col
                           /\ length col = length rows)
           /\ forall a, In a APPARATUS ->
               column df (field_label a "Rk")
               = Some (repeat (VNum fnan) (length rows))).
Proof.
  destruct (team_parse_total (build_lines raw)) as (rows & Hp & Hall).
  exists rows. split; [exact Hp|]. split.
  { unfold TeamTable.parse_pdf_team. now rewrite Hp. }
  cbv zeta. split; [intros ->; reflexivity|]. intros Hne.
  assert (Hall' : forall r, In r rows -> exists k, resolved_groups r k).
  { intros r Hr. destruct (Hall r Hr) as (k & _ & Hk). now exists k. }
  rewrite (team_frame rows Hne Hall').
  split; [apply columns_table_of|]. split; [reflexivity|]. split.
  - intros c Hc. eexists. split; [apply column_table_of; exact Hc|].
    now rewrite !length_map.
  - intros a Ha. rewrite column_table_of.
    + apply (f_equal Some). rewrite map_map.
      apply map_constant. intros r Hr. destruct (Hall' r Hr) as [k Hk].
      exact (proj2 (proj2 (team_record_cells r k Hk)) a Ha).
    + apply in_COLS. destruct Ha as [<-|[<-|[<-|[<-|[]]]]];
        vm_compute; reflexivity.
Qed.

(** X17 (parse_pdf_team).  The athletes reported as partial are, in the
    order of the rows, the Bib, Name and NOC of exactly the rows with a
    missing score; and a row has a missing score exactly when fewer than
    four apparatus groups were resolved for it. *)
Theorem team_partials_report (raw : list (list cell)) :
  exists rows,
    Team.parse_lines (build_lines raw) = Some rows
    /\ TeamTable.partials parse_numeric rows
       = map identity_cells (filter missing_score rows)
    /\ forall r, In r rows ->
         exists k, k <= 4 /\ resolved_groups r k
                   /\ missing_score r = (k <? 4).
Proof.
  destruct (team_parse_total (build_lines raw)) as (rows & Hp & Hall).
  exists rows. split; [exact Hp|]. split.
  - unfold TeamTable.partials.
    destruct rows as [|r0 rest] eqn:Erows; [reflexivity|].
    rewrite <- Erows in *.
    assert (Hne : rows <> []) by (rewrite Erows; discriminate).
    assert (Hall' : forall r, In r rows -> exists k, resolved_groups r k).
    { intros r Hr. destruct (Hall r Hr) as (k & _ & Hk). now exists k. }
    assert (Hlen : (0 <? length rows) = true)
      by (rewrite Erows; reflexivity).
    rewrite Hlen, (team_frame rows Hne Hall').
    apply (map_filter_index _ _ identity_cells missing_score r0 rows 0).
    intros i Hi. cbn [Nat.add].
    assert (Hi' : i < length (map TeamTable.to_dict rows))
      by (now rewrite length_map).
    assert (Hin : In (nth i rows r0) rows) by (now apply nth_In).
    destruct (Hall' _ Hin) as [k Hk].
    destruct (team_record_cells (nth i rows r0) k Hk) as (Hid & Hmiss & _).
    cbv zeta in Hid, Hmiss.
    rewrite <- Hid, <- Hmiss. unfold APPARATUS. cbn [existsb].
    rewrite !(cell_at_table _ _ i (TeamTable.to_dict r0)) by
      (try exact Hi'; apply in_COLS; vm_compute; reflexivity).
    now rewrite !map_nth.
  - intros r Hr. destruct (Hall r Hr) as (k & Hk & Hg).
    exists k. split; [exact Hk|]. split; [exact Hg|].
    destruct (team_apps_shape r k Hg)
      as (e1 & e2 & e3 & e4 & E & _ & _ & _ & _ & S1 & S2 & S3 & S4).
    unfold missing_score. rewrite E. cbn [existsb snd].
    rewrite S1, S2, S3, S4.
    destruct k as [|[|[|[|[|k]]]]]; reflexivity.
Qed.
End TeamTableClaims.

Section IndividualTableClaims.
Context {PF : PyFloat}.
Variable parse_numeric : str -> option float.

(** The four entries and the total of a record of the individual
    script. *)
Lemma individual_record_shape (lines : list str) (rec : Individual.record) :
  In rec (Individual.parse_lines lines) ->
  exists e1 e2 e3 e4 x,
    Individual.apps rec
    = [("Vault"%string, e1); ("UnevenBars"%string, e2);
       ("BalanceBeam"%string, e3); ("Floor"%string, e4)]
    /\ Individual.Total rec = Some x /\ isnan x = false
    /\ Forall (fun e => resolved e = true /\ exists rk, Rk e = Some rk)
              [e1; e2; e3; e4].
Proof.
  unfold Individual.parse_lines. intros Hin. apply in_map_iff in Hin.
  destruct Hin as ([i r] & <- & Hin). cbn [snd].
  apply in_emitted in Hin. destruct Hin as (line & Hn & Hb).
  apply block_some in Hb.
  destruct Hb as (m & epen & Hm & H1 & H2 & He & Hd & Hl & ->).
  cbn [Individual.Total Individual.apps].
  pose proof (triplets_numbers (nth (i - 1) lines [])) as Htn.
  pose proof (dscore_total (nth (i - 1) lines [])) as Htot.
  pose proof (e_pen_line_numbers _ _ He) as Hnum.
  set (d_trips := fst (Individual.parse_dscore_line (nth (i - 1) lines [])))
    in *.
  destruct Htot as (x & Hx & Hxn).
  { intros E. rewrite E in Hd. cbn [length] in Hd. lia. }
  clearbody d_trips.
  destruct d_trips as [|t1 [|t2 [|t3 [|t4 trest]]]];
    try (cbn [length] in Hd; lia).
  destruct epen as [|[x1 p1] [|[x2 p2] [|[x3 p3] [|[x4 p4] erest]]]];
    try (cbn [length] in Hl; lia).
  do 4 eexists. exists x. split; [reflexivity|].
  split; [exact Hx|]. split; [exact Hxn|].
  rewrite Forall_forall in Hnum.
  assert (Hres : forall t xp, In t [t1; t2; t3; t4] ->
                   In xp [(x1, p1); (x2, p2); (x3, p3); (x4, p4)] ->
                   resolved {| Score := Individual.tScore t;
                               D := Individual.tD t;
                               E := fst xp; Pen := snd xp;
                               Rk := Some (Individual.tRk t) |} = true).
  { intros t xp Ht Hxp. unfold resolved. cbn [Score D E Pen].
    destruct (Htn t) as [HD HS].
    { cbn [In] in Ht |- *. tauto. }
    destruct (Hnum xp) as [HE HP].
    { cbn [In] in Hxp |- *. tauto. }
    now rewrite HD, HS, HE, HP. }
  repeat constructor; cbn [Rk]; eauto;
    apply (Hres _ (_, _)); cbn [In]; tauto.
Qed.

(** The cells a record gives to the table: its labels are [cols] and no
    cell is missing. *)
Lemma individual_record_cells (lines : list str) (rec : Individual.record) :
  In rec (Individual.parse_lines lines) ->
  map fst (IndividualTable.to_dict rec) = COLS
  /\ Forall (fun c => isna (cleaned parse_numeric c
                              (cell_of (IndividualTable.to_dict rec) c))
                      = false) COLS.
Proof.
  intros Hin. destruct (individual_record_shape lines rec Hin)
    as (e1 & e2 & e3 & e4 & x & E & Ht & Hx & Hres).
  destruct rec as [rank bib name noc apps total].
  cbn [Individual.apps Individual.Total] in E, Ht. subst apps total.
  destruct e1 as [s1 d1 x1 p1 r1], e2 as [s2 d2 x2 p2 r2],
           e3 as [s3 d3 x3 p3 r3], e4 as [s4 d4 x4 p4 r4].
  repeat match goal with
         | H : Forall _ (_ :: _) |- _ =>
             apply Forall_cons_iff in H; destruct H as [[? [? ?]] H]
         end.
  cbn [Rk] in *. subst.
  repeat match goal with
         | H : resolved _ = true |- _ =>
             unfold resolved in H; cbn [Score D E Pen] in H;
             rewrite !andb_true_iff, !negb_true_iff in H;
             destruct H as [[[? ?] ?] ?]
         end.
  split; [vm_compute; reflexivity|].
  repeat constructor; vm_compute; first [reflexivity | assumption].
Qed.

Lemma individual_frame (lines : list str) :
  let records := Individual.parse_lines lines in
  records <> [] ->
  IndividualTable.frame_of parse_numeric records
  = table_of parse_numeric (map IndividualTable.to_dict records).
Proof.
  intros records Hne. unfold IndividualTable.frame_of.
  destruct (cleaned_table parse_numeric COLS
              (map IndividualTable.to_dict records)) as [Ht Hin].
  - vm_compute. reflexivity.
  - auto.
  - destruct records; [congruence|discriminate].
  - apply Forall_forall. intros d Hd. apply in_map_iff in Hd.
    destruct Hd as (r & <- & Hr).
    exact (proj1 (individual_record_cells lines r Hr)).
  - assert (Hall : forallb
                     (fun c => str_mem c
                        (columns (from_dicts
                                    (map IndividualTable.to_dict records))))
                     COLS = true).
    { apply forallb_forall. intros c Hc. apply str_mem_In. now apply Hin. }
    rewrite Hall. exact Ht.
Qed.

(** X18 (parse_pdf).  Without records the table of the individual script
    has no column at all.  Otherwise its labels are the 25 labels of
    [cols] in that order, every column has one cell per record, and no
    cell of the table is missing: every number was read from the page. *)
Theorem individual_table_whole (raw : list (list cell)) :
  let records := Individual.parse_lines (build_lines raw) in
  let df := IndividualTable.parse_pdf parse_numeric raw in
  (records = [] -> df = [])
  /\ (records <> [] ->
      columns df = COLS
      /\ forall c col,
           column df c = Some col ->
           length col = length records
           /\ forall v, In v col -> isna v = false).
Proof.
  cbv zeta. unfold IndividualTable.parse_pdf.
  split; [intros ->; reflexivity|]. intros Hne.
  rewrite (individual_frame (build_lines raw) Hne).
  split; [apply columns_table_of|].
  intros c col Hcol. apply column_In in Hcol. unfold table_of in Hcol.
  apply in_map_iff in Hcol. destruct Hcol as (c' & E & Hc).
  injection E as -> <-. split; [now rewrite !length_map|].
  intros v Hv. rewrite map_map in Hv. apply in_map_iff in Hv.
  destruct Hv as (r & <- & Hr).
  destruct (individual_record_cells (build_lines raw) r Hr) as [_ Hcells].
  rewrite Forall_forall in Hcells. now apply Hcells.
Qed.
End IndividualTableClaims.
